(** * GeminiCli node: plan lifecycle, plan store and process runner

    A shallow embedding of [nodes/GeminiCli/GeminiCli.node.ts] (the version
    with execution plans and MCP server configuration) and the properties
    of its plan engine.

    Layout:
    - [Js]      strings, JSON values, [JSON.parse] / [JSON.stringify],
                the regular expression used to cut JSON out of a reply;
    - [Host]    the file system, the clock, the external [gemini] process
                and the error monad the operations run in;
    - [GeminiCli] the static methods of the class, in source order;
    - theorems about them. *)

From Stdlib Require Import ZArith String Ascii List Bool Lia.
From Stdlib Require Import DecimalString DecimalFacts DecimalPos.
From stdpp Require Import base option list gmap strings sorting.

Set Warnings "-register-all".
Local Open Scope string_scope.
Local Open Scope Z_scope.

(* ================================================================== *)
(** ** JavaScript strings and JSON *)
(* ================================================================== *)

Module Js.

(** Strings are byte strings; the code under study only inspects ASCII
    characters (braces, [=], [,], white space). *)

Definition is_space (c : ascii) : bool :=
  let n := nat_of_ascii c in
  ((n =? 32) || (n =? 9) || (n =? 10) || (n =? 11) || (n =? 12) || (n =? 13))%nat.

Fixpoint trimStart (s : string) : string :=
  match s with
  | String c r => if is_space c then trimStart r else s
  | EmptyString => EmptyString
  end.

(** [trimEnd] keeps a character when it is not a space or when something
    that is kept follows it. *)
Fixpoint trimEnd (s : string) : string :=
  match s with
  | EmptyString => EmptyString
  | String c r =>
      match trimEnd r with
      | EmptyString => if is_space c then EmptyString else String c EmptyString
      | t => String c t
      end
  end.

(** [String.prototype.trim] *)
Definition trim (s : string) : string := trimEnd (trimStart s).

(** [s.split(sep)] for a one-character separator: never returns the empty list. *)
Fixpoint split (sep : ascii) (s : string) : list string :=
  match s with
  | EmptyString => [EmptyString]
  | String c r =>
      if Ascii.eqb c sep then EmptyString :: split sep r
      else match split sep r with
           | w :: ws => String c w :: ws
           | [] => [String c EmptyString]
           end
  end.

(** [s.split(/\s+/)]: a run of white space is one separator. *)
Fixpoint split_spaces (s : string) : list string :=
  match s with
  | EmptyString => [EmptyString]
  | String c r =>
      if is_space c then
        match r with
        | String c' _ => if is_space c' then split_spaces r else EmptyString :: split_spaces r
        | EmptyString => EmptyString :: split_spaces r
        end
      else match split_spaces r with
           | w :: ws => String c w :: ws
           | [] => [String c EmptyString]
           end
  end.

(** [parts.join(sep)] *)
Fixpoint join (sep : string) (parts : list string) : string :=
  match parts with
  | [] => EmptyString
  | [p] => p
  | p :: ps => p +:+ sep +:+ join sep ps
  end.

(** [s.includes(c)] for one character. *)
Fixpoint includes (c : ascii) (s : string) : bool :=
  match s with
  | EmptyString => false
  | String d r => Ascii.eqb d c || includes c r
  end.

(** [s.endsWith(suffix)] *)
Definition endsWith (s suffix : string) : bool :=
  let n := String.length s in
  let k := String.length suffix in
  (k <=? n)%nat && String.eqb (substring (n - k) k s) suffix.

(** [String(n)] for an integer: decimal digits, a leading [-] when negative. *)
Definition string_of_Z (z : Z) : string :=
  DecimalString.NilZero.string_of_int (Z.to_int z).

Definition string_of_nat (n : nat) : string := string_of_Z (Z.of_nat n).

Example split_spaces_ex : split_spaces "-y  pkg arg" = ["-y"; "pkg"; "arg"].
Proof. reflexivity. Qed.

Example split_eq_ex : split "=" "A=b=c" = ["A"; "b"; "c"].
Proof. reflexivity. Qed.

Example trim_ex : trim "  {x}  " = "{x}".
Proof. reflexivity. Qed.

Example string_of_Z_ex : string_of_Z 300 = "300" /\ string_of_Z (-7) = "-7" /\ string_of_Z 0 = "0".
Proof. repeat split; reflexivity. Qed.

(** *** JSON values

    Numbers are the integers (time stamps in milliseconds, durations in
    seconds, exit codes): a literal with a fraction or an exponent is not
    read by [JSON_parse] below.  An object keeps its members in insertion
    order, as a JavaScript object does for string keys. *)

Inductive json : Type :=
| JNull
| JBool (b : bool)
| JNum (n : Z)
| JStr (s : string)
| JArr (items : list json)
| JObj (members : list (string * json)).

(** [o[k] = v] on the member list: overwrite in place or append. *)
Fixpoint obj_set (k : string) (v : json) (ms : list (string * json)) : list (string * json) :=
  match ms with
  | [] => [(k, v)]
  | (k', v') :: r => if String.eqb k' k then (k, v) :: r else (k', v') :: obj_set k v r
  end.

Fixpoint obj_get (k : string) (ms : list (string * json)) : option json :=
  match ms with
  | [] => None
  | (k', v) :: r => if String.eqb k' k then Some v else obj_get k r
  end.

(** [v.k] for a value that is not [null]: [None] stands for [undefined]. *)
Definition prop (k : string) (v : json) : option json :=
  match v with
  | JObj ms => obj_get k ms
  | _ => None
  end.

(** ToBoolean. *)
Definition truthy (v : option json) : bool :=
  match v with
  | None | Some JNull | Some (JBool false) => false
  | Some (JNum n) => negb (n =? 0)
  | Some (JStr s) => negb (String.eqb s "")
  | Some _ => true
  end.

(** *** JSON.parse *)

Definition is_json_ws (c : ascii) : bool :=
  let n := nat_of_ascii c in
  ((n =? 32) || (n =? 9) || (n =? 10) || (n =? 13))%nat.

Fixpoint skip_ws (s : string) : string :=
  match s with
  | String c r => if is_json_ws c then skip_ws r else s
  | EmptyString => EmptyString
  end.

Definition digit_val (c : ascii) : option Z :=
  let n := nat_of_ascii c in
  if ((48 <=? n) && (n <=? 57))%nat then Some (Z.of_nat (n - 48)) else None.

Definition hex_val (c : ascii) : option Z :=
  let n := nat_of_ascii c in
  if ((48 <=? n) && (n <=? 57))%nat then Some (Z.of_nat (n - 48))
  else if ((65 <=? n) && (n <=? 70))%nat then Some (Z.of_nat (n - 55))
  else if ((97 <=? n) && (n <=? 102))%nat then Some (Z.of_nat (n - 87))
  else None.

Definition byte (z : Z) : ascii := ascii_of_nat (Z.to_nat z).

(** The bytes of a [\uXXXX] code unit (UTF-8, one to three bytes). *)
Definition utf8 (u : Z) (rest : string) : string :=
  if u <? 128 then String (byte u) rest
  else if u <? 2048 then
    String (byte (192 + u / 64)) (String (byte (128 + u mod 64)) rest)
  else
    String (byte (224 + u / 4096))
      (String (byte (128 + (u / 64) mod 64)) (String (byte (128 + u mod 64)) rest)).

Definition dquote : ascii := ascii_of_nat 34.

Definition unescape (c : ascii) : option ascii :=
  if Ascii.eqb c dquote then Some dquote
  else match c with
  | "\"%char => Some "\"%char
  | "/"%char => Some "/"%char
  | "b"%char => Some (ascii_of_nat 8)
  | "f"%char => Some (ascii_of_nat 12)
  | "n"%char => Some (ascii_of_nat 10)
  | "r"%char => Some (ascii_of_nat 13)
  | "t"%char => Some (ascii_of_nat 9)
  | _ => None
  end.

(** The body of a string literal, after its opening quote: the decoded
    text and what follows the closing quote. *)
Fixpoint parse_string_body (s : string) : option (string * string) :=
  match s with
  | EmptyString => None
  | String c r =>
      if Ascii.eqb c dquote then Some (EmptyString, r)
      else if Ascii.eqb c "\" then
        match r with
        | String e r1 =>
            match unescape e with
            | Some d =>
                match parse_string_body r1 with
                | Some (t, rest) => Some (String d t, rest)
                | None => None
                end
            | None =>
                match e, r1 with
                | "u"%char, String h1 (String h2 (String h3 (String h4 r2))) =>
                    match hex_val h1, hex_val h2, hex_val h3, hex_val h4, parse_string_body r2 with
                    | Some a, Some b, Some c', Some d, Some (t, rest) =>
                        Some (utf8 (((a * 16 + b) * 16 + c') * 16 + d) t, rest)
                    | _, _, _, _, _ => None
                    end
                | _, _ => None
                end
            end
        | EmptyString => None
        end
      else if (nat_of_ascii c <? 32)%nat then None
      else
        match parse_string_body r with
        | Some (t, rest) => Some (String c t, rest)
        | None => None
        end
  end.

(** Digits after the first one. *)
Fixpoint parse_digits (acc : Z) (s : string) : Z * string :=
  match s with
  | String c r =>
      match digit_val c with
      | Some d => parse_digits (acc * 10 + d) r
      | None => (acc, s)
      end
  | EmptyString => (acc, s)
  end.

Definition starts_fraction (s : string) : bool :=
  match s with
  | String c _ => Ascii.eqb c "." || Ascii.eqb c "e" || Ascii.eqb c "E"
  | EmptyString => false
  end.

(** An unsigned integer literal: [0] or a non-zero digit and more digits. *)
Definition parse_nat_lit (s : string) : option (Z * string) :=
  match s with
  | String c r =>
      match digit_val c with
      | Some 0 => if starts_fraction r then None else Some (0, r)
      | Some d =>
          let '(n, rest) := parse_digits d r in
          if starts_fraction rest then None else Some (n, rest)
      | None => None
      end
  | EmptyString => None
  end.

(** [s] without the word it starts with. *)
Fixpoint strip_prefix (word s : string) : option string :=
  match word with
  | EmptyString => Some s
  | String a word' =>
      match s with
      | String b s' => if Ascii.eqb a b then strip_prefix word' s' else None
      | EmptyString => None
      end
  end.

Definition parse_literal (word : string) (v : json) (s : string) : option (json * string) :=
  match strip_prefix word s with
  | Some rest => Some (v, rest)
  | None => None
  end.

(** [s] without its first character, when that is [c]. *)
Definition starts_with (c : ascii) (s : string) : option string :=
  match s with
  | String d r => if Ascii.eqb d c then Some r else None
  | EmptyString => None
  end.

Fixpoint parse_value (fuel : nat) (s : string) : option (json * string) :=
  match fuel with
  | O => None
  | S f =>
      match skip_ws s with
      | String c r as w =>
          if Ascii.eqb c "{" then
            match starts_with "}" (skip_ws r) with
            | Some r' => Some (JObj [], r')
            | None => parse_members f (skip_ws r) []
            end
          else if Ascii.eqb c "[" then
            match starts_with "]" (skip_ws r) with
            | Some r' => Some (JArr [], r')
            | None => parse_items f (skip_ws r) []
            end
          else if Ascii.eqb c dquote then
            match parse_string_body r with
            | Some (t, rest) => Some (JStr t, rest)
            | None => None
            end
          else if Ascii.eqb c "t" then parse_literal "true" (JBool true) w
          else if Ascii.eqb c "f" then parse_literal "false" (JBool false) w
          else if Ascii.eqb c "n" then parse_literal "null" JNull w
          else if Ascii.eqb c "-" then
            match parse_nat_lit r with
            | Some (n, rest) => Some (JNum (- n), rest)
            | None => None
            end
          else
            match parse_nat_lit w with
            | Some (n, rest) => Some (JNum n, rest)
            | None => None
            end
      | EmptyString => None
      end
  end
with parse_items (fuel : nat) (s : string) (acc : list json) : option (json * string) :=
  match fuel with
  | O => None
  | S f =>
      match parse_value f s with
      | Some (v, r) =>
          match starts_with "," (skip_ws r) with
          | Some r' => parse_items f r' (v :: acc)
          | None =>
              match starts_with "]" (skip_ws r) with
              | Some r' => Some (JArr (rev (v :: acc)), r')
              | None => None
              end
          end
      | None => None
      end
  end
with parse_members (fuel : nat) (s : string) (acc : list (string * json)) : option (json * string) :=
  match fuel with
  | O => None
  | S f =>
      match starts_with dquote (skip_ws s) with
      | Some r =>
          match parse_string_body r with
          | Some (k, r1) =>
              match starts_with ":" (skip_ws r1) with
              | Some r2 =>
                  match parse_value f r2 with
                  | Some (v, r3) =>
                      match starts_with "," (skip_ws r3) with
                      | Some r4 => parse_members f r4 (obj_set k v acc)
                      | None =>
                          match starts_with "}" (skip_ws r3) with
                          | Some r4 => Some (JObj (obj_set k v acc), r4)
                          | None => None
                          end
                      end
                  | None => None
                  end
              | None => None
              end
          | None => None
          end
      | None => None
      end
  end.

(** [JSON.parse(text)]: one value, white space around it, nothing else.
    [None] stands for the [SyntaxError] it throws. *)
Definition JSON_parse (text : string) : option json :=
  match parse_value (2 * String.length text + 2) text with
  | Some (v, rest) =>
      match skip_ws rest with
      | EmptyString => Some v
      | _ => None
      end
  | None => None
  end.

(** Test data is written with apostrophes where JSON has double quotes. *)
Fixpoint jq (s : string) : string :=
  match s with
  | EmptyString => EmptyString
  | String c r => String (if Ascii.eqb c "'" then dquote else c) (jq r)
  end.

Example JSON_parse_ex :
  JSON_parse (jq "{'a': [1, -2, true, null], 'b': {'c': 'x\ny'}}")
  = Some (JObj [("a", JArr [JNum 1; JNum (-2); JBool true; JNull]);
                ("b", JObj [("c", JStr (String "x" (String (ascii_of_nat 10) "y")))])]).
Proof. vm_compute. reflexivity. Qed.

Example JSON_parse_trailing : JSON_parse (jq "{'a': 1} }") = None.
Proof. vm_compute. reflexivity. Qed.

Example JSON_parse_fraction : JSON_parse "[1.5]" = None.
Proof. vm_compute. reflexivity. Qed.

(** *** JSON.stringify(value, null, 2) *)

Definition hex_digit (n : Z) : ascii :=
  if n <? 10 then byte (48 + n) else byte (87 + n).

Definition escape_char (c : ascii) (rest : string) : string :=
  let n := Z.of_nat (nat_of_ascii c) in
  if Ascii.eqb c dquote then String "\" (String dquote rest)
  else if Ascii.eqb c "\" then String "\" (String "\" rest)
  else if n =? 8 then String "\" (String "b" rest)
  else if n =? 12 then String "\" (String "f" rest)
  else if n =? 10 then String "\" (String "n" rest)
  else if n =? 13 then String "\" (String "r" rest)
  else if n =? 9 then String "\" (String "t" rest)
  else if n <? 32 then
    String "\" (String "u" (String "0" (String "0"
      (String (hex_digit (n / 16)) (String (hex_digit (n mod 16)) rest)))))
  else String c rest.

Fixpoint escape (s : string) : string :=
  match s with
  | EmptyString => EmptyString
  | String c r => escape_char c (escape r)
  end.

Definition quote (s : string) : string :=
  String dquote (escape s +:+ String dquote EmptyString).

Definition newline : string := String (ascii_of_nat 10) EmptyString.

Fixpoint stringify_at (indent : string) (v : json) : string :=
  let inner := indent +:+ "  " in
  match v with
  | JNull => "null"
  | JBool true => "true"
  | JBool false => "false"
  | JNum n => string_of_Z n
  | JStr t => quote t
  | JArr [] => "[]"
  | JArr items =>
      "[" +:+ newline
      +:+ join ("," +:+ newline) (map (fun x => inner +:+ stringify_at inner x) items)
      +:+ newline +:+ indent +:+ "]"
  | JObj [] => "{}"
  | JObj members =>
      "{" +:+ newline
      +:+ join ("," +:+ newline)
            (map (fun kv => inner +:+ quote (fst kv) +:+ ": " +:+ stringify_at inner (snd kv))
                 members)
      +:+ newline +:+ indent +:+ "}"
  end.

Definition JSON_stringify (v : json) : string := stringify_at EmptyString v.

Example JSON_stringify_ex :
  JSON_stringify (JObj [("id", JStr "p1"); ("steps", JArr [JNum 300; JNull]); ("o", JObj [])])
  = jq ("{" +:+ newline +:+
        "  'id': 'p1'," +:+ newline +:+
        "  'steps': [" +:+ newline +:+
        "    300," +:+ newline +:+
        "    null" +:+ newline +:+
        "  ]," +:+ newline +:+
        "  'o': {}" +:+ newline +:+
        "}").
Proof. vm_compute. reflexivity. Qed.

Example JSON_roundtrip_ex :
  let v := JObj [("t", JStr (jq "a 'q' \ b")); ("n", JArr [JNum (-12); JBool false])] in
  JSON_parse (JSON_stringify v) = Some v.
Proof. vm_compute. reflexivity. Qed.

(** *** The regular expression [/\{[\s\S]*\}/]

    [text.match(re)] without the [g] flag returns the leftmost match, and
    [*] is greedy: the match starts at the first [{] and, since [[\s\S]]
    accepts every character, runs to the last [}] that follows it. *)

(** The text from its first [{] on. *)
Fixpoint from_open_brace (s : string) : option string :=
  match s with
  | EmptyString => None
  | String c r => if Ascii.eqb c "{" then Some s else from_open_brace r
  end.

(** The longest prefix that ends in [}]. *)
Fixpoint to_last_close_brace (s : string) : option string :=
  match s with
  | EmptyString => None
  | String c r =>
      match to_last_close_brace r with
      | Some t => Some (String c t)
      | None => if Ascii.eqb c "}" then Some (String c EmptyString) else None
      end
  end.

(** [text.match(/\{[\s\S]*\}/)]: [Some m] for [jsonMatch[0] = m], [None] for [null]. *)
Definition match_json_braces (text : string) : option string :=
  match from_open_brace text with
  | Some (String c r) =>
      match to_last_close_brace r with
      | Some t => Some (String c t)
      | None => None
      end
  | _ => None
  end.

Example match_json_braces_ex :
  match_json_braces "Here: {'a': {'b': 1}} done" = Some "{'a': {'b': 1}}"
  /\ match_json_braces "no json }{" = None.
Proof. split; reflexivity. Qed.

End Js.

(* ================================================================== *)
(** ** The host: errors, file system, clock, child processes *)
(* ================================================================== *)

Module Host.

(** *** Errors and results *)

Inductive error : Type :=
| ApplicationError (message : string)
| NodeOperationError (message : string)
| ErrnoException (code : string) (message : string)
| SyntaxError (message : string)
| TypeError (message : string).

(** [error instanceof Error ? error.message : 'Unknown error']: every value
    thrown in this program is an [Error]. *)
Definition message (e : error) : string :=
  match e with
  | ApplicationError m | NodeOperationError m | SyntaxError m | TypeError m => m
  | ErrnoException _ m => m
  end.

(** [(error as NodeJS.ErrnoException).code] *)
Definition code (e : error) : option string :=
  match e with
  | ErrnoException c _ => Some c
  | _ => None
  end.

(** The outcome of a call: a value, a thrown error, or [Untyped] when the
    run meets a value that contradicts the TypeScript annotation it is
    cast to ([as string], [as ExecutionPlan]); the typed model stops there. *)
Inductive result (A : Type) : Type :=
| Ok (a : A)
| Throw (e : error)
| Untyped.

Arguments Ok {A} a.
Arguments Throw {A} e.
Arguments Untyped {A}.

(** Code that touches neither files nor processes: sequencing and
    [try]/[catch] on results alone. *)
Definition result_bind {A B} (r : result A) (k : A -> result B) : result B :=
  match r with
  | Ok a => k a
  | Throw e => Throw e
  | Untyped => Untyped
  end.

Definition result_catch {A} (r : result A) (handler : error -> result A) : result A :=
  match r with
  | Throw e => handler e
  | _ => r
  end.

(** *** Paths and the file system

    A path is the list of its components from the root.  A plan id is one
    component (the ids of [generatePlanId] contain no separator). *)

Abbreviation path := (list string) (only parsing).

Inductive node : Type :=
| Dir
| File (content : string).

(** [path.join(dir, name)] for a single component. *)
Definition path_join (dir : path) (name : string) : path := (dir ++ [name])%list.

Definition path_string (p : path) : string :=
  fold_right (fun c acc => "/" +:+ c +:+ acc) EmptyString p.

(** The non-empty prefixes of a path, shortest first. *)
Fixpoint ancestors_and_self (p : path) : list path :=
  match p with
  | [] => []
  | c :: r => [c] :: map (cons c) (ancestors_and_self r)
  end.

Definition is_file (n : option node) : bool :=
  match n with Some (File _) => true | _ => false end.

Definition is_dir (n : option node) : bool :=
  match n with Some Dir => true | _ => false end.

(** *** Child processes

    What a spawned [gemini] does: it either cannot be started (the
    ['error'] event) or writes chunks and closes after some time with an
    exit code ([null] when a signal ended it). *)

Inductive stream : Type := Stdout | Stderr.

Record chunk : Type := { from : stream; text : string; at_ms : Z }.

Inductive process : Type :=
| Exits (output : list chunk) (exit_code : option Z) (after_ms : Z)
| FailsToStart (reason : string).

(** *** The world an operation runs in *)

Record world : Type := {
  fs : gmap path node;
  now : Z;                                   (* Date.now() *)
  cwd : path;                                (* process.cwd() *)
  toISOString : Z -> string;                 (* new Date(t).toISOString() *)
  random36 : string;                         (* Math.random().toString(36) *)
  gemini : nat -> list string -> process;    (* the n-th spawned gemini, by argv *)
  spawned : list (list string);              (* argv of every gemini spawned so far *)
  gemini_version : option string;            (* output of gemini --version, if it runs *)
}.

Definition with_fs (f : gmap path node) (w : world) : world :=
  {| fs := f; now := now w; cwd := cwd w; toISOString := toISOString w;
     random36 := random36 w; gemini := gemini w; spawned := spawned w;
     gemini_version := gemini_version w |}.

Definition with_now (t : Z) (w : world) : world :=
  {| fs := fs w; now := t; cwd := cwd w; toISOString := toISOString w;
     random36 := random36 w; gemini := gemini w; spawned := spawned w;
     gemini_version := gemini_version w |}.

Definition with_spawned (l : list (list string)) (w : world) : world :=
  {| fs := fs w; now := now w; cwd := cwd w; toISOString := toISOString w;
     random36 := random36 w; gemini := gemini w; spawned := l;
     gemini_version := gemini_version w |}.

(** *** The monad: state passing with exceptions

    A thrown error keeps the state reached so far (files written before
    the throw stay written). *)

Definition M (A : Type) : Type := world -> result A * world.

Definition ret {A} (a : A) : M A := fun w => (Ok a, w).

Definition throw {A} (e : error) : M A := fun w => (Throw e, w).

Definition untyped {A} : M A := fun w => (Untyped, w).

(** A computation on results, run in a world it leaves alone. *)
Definition lift {A} (r : result A) : M A := fun w => (r, w).

Definition bind {A B} (m : M A) (k : A -> M B) : M B :=
  fun w =>
    match m w with
    | (Ok a, w') => k a w'
    | (Throw e, w') => (Throw e, w')
    | (Untyped, w') => (Untyped, w')
    end.

(** [try { m } catch (error) { handler(error) }] *)
Definition try_catch {A} (m : M A) (handler : error -> M A) : M A :=
  fun w =>
    match m w with
    | (Throw e, w') => handler e w'
    | r => r
    end.

Definition get_world : M world := fun w => (Ok w, w).

Declare Scope host_scope.
Delimit Scope host_scope with host.
Notation "'let!' x ':=' m 'in' k" :=
  (bind m (fun x => k)) (at level 10, x pattern, m at level 100, k at level 200) : host_scope.
Notation "m ';;' k" :=
  (bind m (fun _ => k)) (at level 100, k at level 200, right associativity) : host_scope.
Notation "'let?' x ':=' r 'in' k" :=
  (result_bind r (fun x => k)) (at level 10, x pattern, r at level 100, k at level 200) : host_scope.

Local Open Scope host_scope.

(** [Date.now()] *)
Definition Date_now : M Z := fun w => (Ok (now w), w).

(** [process.cwd()] *)
Definition process_cwd : M path := fun w => (Ok (cwd w), w).

(** [spawn('gemini', args, ...)]: the child is the next one the world holds
    for this argument vector; the call is recorded. *)
Definition spawn (args : list string) : M process :=
  fun w => (Ok (gemini w (length (spawned w)) args), with_spawned (spawned w ++ [args])%list w).

(** Time passing while the child runs. *)
Definition elapse (ms : Z) : M unit := fun w => (Ok tt, with_now (now w + ms) w).

(** [fs.mkdir(p, { recursive: true })]: fails when a file is in the way. *)
Definition fs_mkdir (p : path) : M unit :=
  fun w =>
    if existsb (fun q => is_file (fs w !! q)) (ancestors_and_self p)
    then (Throw (ErrnoException "EEXIST" ("EEXIST: file already exists, mkdir '" +:+ path_string p +:+ "'")), w)
    else (Ok tt, with_fs (foldl (fun m q => <[q := Dir]> m) (fs w) (ancestors_and_self p)) w).

(** [fs.writeFile(p, content, 'utf8')]: the directory of [p] must exist and
    [p] must not be a directory; the file is created or overwritten. *)
Definition fs_writeFile (p : path) (content : string) : M unit :=
  fun w =>
    let parent := removelast p in
    if negb (match parent with [] => true | _ => is_dir (fs w !! parent) end)
    then (Throw (ErrnoException "ENOENT" ("ENOENT: no such file or directory, open '" +:+ path_string p +:+ "'")), w)
    else if is_dir (fs w !! p)
    then (Throw (ErrnoException "EISDIR" ("EISDIR: illegal operation on a directory, open '" +:+ path_string p +:+ "'")), w)
    else (Ok tt, with_fs (<[p := File content]> (fs w)) w).

(** [fs.readFile(p, 'utf8')] *)
Definition fs_readFile (p : path) : M string :=
  fun w =>
    match fs w !! p with
    | Some (File content) => (Ok content, w)
    | Some Dir =>
        (Throw (ErrnoException "EISDIR" "EISDIR: illegal operation on a directory, read"), w)
    | None =>
        if existsb (fun q => is_file (fs w !! q)) (ancestors_and_self (removelast p))
        then (Throw (ErrnoException "ENOTDIR" ("ENOTDIR: not a directory, open '" +:+ path_string p +:+ "'")), w)
        else (Throw (ErrnoException "ENOENT" ("ENOENT: no such file or directory, open '" +:+ path_string p +:+ "'")), w)
    end.

(** [fs.rm(p, { recursive: true, force: true })]: [p] and everything below
    it is gone; a missing [p] is not an error. *)
Definition fs_rm (p : path) : M unit :=
  fun w => (Ok tt, with_fs (filter (fun e => ¬ p `prefix_of` e.1) (fs w)) w).

(** [fs.readdir(p)]: the names of the entries of directory [p]. *)
Definition fs_readdir (p : path) : M (list string) :=
  fun w =>
    match fs w !! p, p with
    | Some (File _), _ =>
        (Throw (ErrnoException "ENOTDIR" ("ENOTDIR: not a directory, scandir '" +:+ path_string p +:+ "'")), w)
    | None, _ :: _ =>
        (Throw (ErrnoException "ENOENT" ("ENOENT: no such file or directory, scandir '" +:+ path_string p +:+ "'")), w)
    | _, _ =>
        (Ok (omap (fun e => if decide (removelast e.1 = p) then last e.1 else None)
                  (map_to_list (fs w))), w)
    end.

End Host.

(* ================================================================== *)
(** ** The node: data model *)
(* ================================================================== *)

Module GeminiCli.

Import Js Host.
Local Open Scope host_scope.

Inductive MessageType : Type := user | assistant | system | error_message.

Record GeminiMessage : Type := {
  type : MessageType;
  content : string;
  timestamp : Z;
}.

Record GeminiResponse : Type := {
  messages : list GeminiMessage;
  result_text : string;            (* result *)
  success : bool;
  duration_ms : Z;
  error : option string;
}.

Inductive StepStatus : Type := pending | in_progress | step_completed | step_failed.

Inductive PlanStatus : Type := draft | approved | executing | completed | failed.

Inductive SecurityMode : Type := safe | yolo | sandbox.

#[global] Instance StepStatus_eq_dec : EqDecision StepStatus.
Proof. solve_decision. Defined.

#[global] Instance PlanStatus_eq_dec : EqDecision PlanStatus.
Proof. solve_decision. Defined.

Record ToolsConfig : Type := {
  enabledTools : option (list string);
  securityMode : option SecurityMode;
  checkpointing : option bool;
}.

Record ExecutionStep : Type := {
  step_id : string;                      (* id *)
  step_description : string;             (* description *)
  command : option string;
  files : option (list string);
  estimated_duration : option Z;
  step_status : option StepStatus;       (* status *)
}.

Record PlanConfiguration : Type := {
  configuration_model : option string;        (* model *)
  configuration_projectPath : option string;  (* projectPath *)
  configuration_toolsConfig : option ToolsConfig;
}.

Record ExecutionPlan : Type := {
  id : string;
  title : string;
  description : string;
  steps : list ExecutionStep;
  created_at : Z;
  modified_at : Z;
  status : PlanStatus;
  original_prompt : option string;
  configuration : option PlanConfiguration;
}.

Inductive ConnectionType : Type := connection_command | connection_http.

Record McpServer : Type := {
  name : string;
  connectionType : ConnectionType;
  server_command : option string;        (* command *)
  args : option string;
  httpUrl : option string;
  headers : option string;
  env : option string;
  server_cwd : option string;            (* cwd *)
  server_timeout : Z;                    (* timeout *)
  trust : bool;
  includeTools : option string;
  excludeTools : option string;
}.

(** The [options] argument of the static methods. *)
Record Options : Type := {
  cwd_option : option path;              (* cwd *)
  apiKey : option string;
  useVertexAI : option bool;
  model : option string;
  systemPrompt : option string;
  timeout : option Z;
  debug : option bool;
  toolsConfig : option ToolsConfig;
  mcpServers : option (list McpServer);  (* mcpServers?.servers *)
}.

Definition with_systemPrompt (p : string) (o : Options) : Options :=
  {| cwd_option := cwd_option o; apiKey := apiKey o; useVertexAI := useVertexAI o;
     model := model o; systemPrompt := Some p; timeout := timeout o; debug := debug o;
     toolsConfig := toolsConfig o; mcpServers := mcpServers o |}.

(** Truthiness of an optional string: [undefined] and the empty string are falsy. *)
Definition nonempty (s : option string) : option string :=
  match s with
  | Some t => if String.eqb t EmptyString then None else Some t
  | None => None
  end.

(** *** Status names *)

Definition StepStatus_name (s : StepStatus) : string :=
  match s with
  | pending => "pending"
  | in_progress => "in_progress"
  | step_completed => "completed"
  | step_failed => "failed"
  end.

Definition PlanStatus_name (s : PlanStatus) : string :=
  match s with
  | draft => "draft"
  | approved => "approved"
  | executing => "executing"
  | completed => "completed"
  | failed => "failed"
  end.

Definition SecurityMode_name (s : SecurityMode) : string :=
  match s with safe => "safe" | yolo => "yolo" | sandbox => "sandbox" end.

Definition StepStatus_of_name (s : string) : option StepStatus :=
  if String.eqb s "pending" then Some pending
  else if String.eqb s "in_progress" then Some in_progress
  else if String.eqb s "completed" then Some step_completed
  else if String.eqb s "failed" then Some step_failed
  else None.

Definition PlanStatus_of_name (s : string) : option PlanStatus :=
  if String.eqb s "draft" then Some draft
  else if String.eqb s "approved" then Some approved
  else if String.eqb s "executing" then Some executing
  else if String.eqb s "completed" then Some completed
  else if String.eqb s "failed" then Some failed
  else None.

Definition SecurityMode_of_name (s : string) : option SecurityMode :=
  if String.eqb s "safe" then Some safe
  else if String.eqb s "yolo" then Some yolo
  else if String.eqb s "sandbox" then Some sandbox
  else None.

(** *** Plans as JSON

    [JSON.stringify] writes the properties of an object in the order they
    were created and leaves out those whose value is [undefined]. *)

Definition field {A} (k : string) (enc : A -> json) (v : option A) : list (string * json) :=
  match v with
  | Some a => [(k, enc a)]
  | None => []
  end.

Definition strings_to_json (l : list string) : json := JArr (map JStr l).

Definition ToolsConfig_to_json (t : ToolsConfig) : json :=
  JObj (field "enabledTools" strings_to_json (enabledTools t)
        ++ field "securityMode" (fun m => JStr (SecurityMode_name m)) (securityMode t)
        ++ field "checkpointing" JBool (checkpointing t))%list.

Definition PlanConfiguration_to_json (c : PlanConfiguration) : json :=
  JObj (field "model" JStr (configuration_model c)
        ++ field "projectPath" JStr (configuration_projectPath c)
        ++ field "toolsConfig" ToolsConfig_to_json (configuration_toolsConfig c))%list.

Definition ExecutionStep_to_json (s : ExecutionStep) : json :=
  JObj ([("id", JStr (step_id s)); ("description", JStr (step_description s))]
        ++ field "command" JStr (command s)
        ++ field "files" strings_to_json (files s)
        ++ field "estimated_duration" JNum (estimated_duration s)
        ++ field "status" (fun st => JStr (StepStatus_name st)) (step_status s))%list.

Definition ExecutionPlan_to_json (p : ExecutionPlan) : json :=
  JObj ([("id", JStr (id p)); ("title", JStr (title p)); ("description", JStr (description p));
         ("steps", JArr (map ExecutionStep_to_json (steps p)));
         ("created_at", JNum (created_at p)); ("modified_at", JNum (modified_at p));
         ("status", JStr (PlanStatus_name (status p)))]
        ++ field "original_prompt" JStr (original_prompt p)
        ++ field "configuration" PlanConfiguration_to_json (configuration p))%list.

(** The cast [JSON.parse(text) as ExecutionPlan], read as a check: [None]
    when the value does not have the declared shape.  A property the
    interface does not declare is not looked at. *)

Definition as_string (v : json) : option string :=
  match v with JStr s => Some s | _ => None end.

Definition as_number (v : json) : option Z :=
  match v with JNum n => Some n | _ => None end.

Definition as_bool (v : json) : option bool :=
  match v with JBool b => Some b | _ => None end.

Definition as_strings (v : json) : option (list string) :=
  match v with JArr l => mapM as_string l | _ => None end.

(** A required property. *)
Definition required {A} (k : string) (dec : json -> option A) (v : json) : option A :=
  match prop k v with
  | Some x => dec x
  | None => None
  end.

(** An optional property: absent, or present with the declared type. *)
Definition optional {A} (k : string) (dec : json -> option A) (v : json) : option (option A) :=
  match prop k v with
  | Some x => match dec x with Some a => Some (Some a) | None => None end
  | None => Some None
  end.

Definition is_object (v : json) : bool :=
  match v with JObj _ => true | _ => false end.

Definition ToolsConfig_of_json (v : json) : option ToolsConfig :=
  if is_object v then
    e ← optional "enabledTools" as_strings v;
    m ← optional "securityMode" (fun x => as_string x ≫= SecurityMode_of_name) v;
    c ← optional "checkpointing" as_bool v;
    Some {| enabledTools := e; securityMode := m; checkpointing := c |}
  else None.

Definition PlanConfiguration_of_json (v : json) : option PlanConfiguration :=
  if is_object v then
    m ← optional "model" as_string v;
    p ← optional "projectPath" as_string v;
    t ← optional "toolsConfig" ToolsConfig_of_json v;
    Some {| configuration_model := m; configuration_projectPath := p;
            configuration_toolsConfig := t |}
  else None.

Definition ExecutionStep_of_json (v : json) : option ExecutionStep :=
  i ← required "id" as_string v;
  d ← required "description" as_string v;
  c ← optional "command" as_string v;
  f ← optional "files" as_strings v;
  e ← optional "estimated_duration" as_number v;
  s ← optional "status" (fun x => as_string x ≫= StepStatus_of_name) v;
  Some {| step_id := i; step_description := d; command := c; files := f;
          estimated_duration := e; step_status := s |}.

Definition as_steps (v : json) : option (list ExecutionStep) :=
  match v with JArr l => mapM ExecutionStep_of_json l | _ => None end.

Definition ExecutionPlan_of_json (v : json) : option ExecutionPlan :=
  i ← required "id" as_string v;
  t ← required "title" as_string v;
  d ← required "description" as_string v;
  s ← required "steps" as_steps v;
  c ← required "created_at" as_number v;
  m ← required "modified_at" as_number v;
  st ← required "status" (fun x => as_string x ≫= PlanStatus_of_name) v;
  o ← optional "original_prompt" as_string v;
  cfg ← optional "configuration" PlanConfiguration_of_json v;
  Some {| id := i; title := t; description := d; steps := s; created_at := c;
          modified_at := m; status := st; original_prompt := o; configuration := cfg |}.

(* ================================================================== *)
(** ** The node: static methods, in source order *)
(* ================================================================== *)

(** *** createGeminiConfig *)

(** The loop over [env] or [headers] lines: [KEY=value], split at the first [=]. *)
Definition parse_key_values (text : string) : list (string * json) :=
  fold_left
    (fun acc line =>
       let trimmed := trim line in
       if negb (String.eqb trimmed EmptyString) && includes "=" trimmed then
         match split "=" trimmed with
         | key :: valueParts => obj_set (trim key) (JStr (trim (join "=" valueParts))) acc
         | [] => acc
         end
       else acc)
    (split (ascii_of_nat 10) text) [].

(** [text.split(',').map(t => t.trim()).filter(t => t.length > 0)] *)
Definition parse_tools (text : string) : list string :=
  filter (fun t => t ≠ EmptyString) (map trim (split "," text)).

(** Truthy and not blank: [s && s.trim()]. *)
Definition filled (s : option string) : option string :=
  match s with
  | Some t => if String.eqb (trim t) EmptyString then None else Some t
  | None => None
  end.

Definition serverConfig (server : McpServer) : json :=
  JObj ([("timeout", JNum (if server_timeout server =? 0 then 30000 else server_timeout server));
         ("trust", JBool (trust server))]
        ++ match connectionType server, nonempty (server_command server), nonempty (httpUrl server) with
           | connection_command, Some c, _ =>
               [("command", JStr c)]
               ++ field "args" (fun a => strings_to_json (split_spaces (trim a))) (filled (args server))
               ++ field "cwd" (fun d => JStr (trim d)) (filled (server_cwd server))
           | connection_http, _, Some u => [("url", JStr u)]
           | _, _, _ => []
           end
        ++ field "env" (fun e => JObj (parse_key_values e)) (filled (env server))
        ++ field "headers" (fun h => JObj (parse_key_values h)) (filled (headers server))
        ++ field "includeTools" (fun t => strings_to_json (parse_tools t)) (filled (includeTools server))
        ++ field "excludeTools" (fun t => strings_to_json (parse_tools t)) (filled (excludeTools server)))%list.

(** The [settings] object: servers without a name are skipped. *)
Definition GeminiSettings (servers : option (list McpServer)) : json :=
  match servers with
  | Some (_ :: _ as l) =>
      JObj [("mcpServers",
             JObj (fold_left
                     (fun acc server =>
                        if String.eqb (trim (name server)) EmptyString then acc
                        else obj_set (trim (name server)) (serverConfig server) acc)
                     l []))]
  | _ => JObj []
  end.

Record GeminiConfig : Type := { configDir : path; settingsPath : path }.

Definition createGeminiConfig (servers : option (list McpServer)) (workingDirectory : path)
  : M GeminiConfig :=
  let configDir := path_join workingDirectory ".gemini" in
  let settingsPath := path_join configDir "settings.json" in
  try_catch (fs_mkdir configDir)
    (fun e => throw (NodeOperationError ("Failed to create config directory: " +:+ message e))) ;;
  let settings := GeminiSettings servers in
  try_catch (fs_writeFile settingsPath (JSON_stringify settings))
    (fun e => throw (NodeOperationError ("Failed to write settings file: " +:+ message e))) ;;
  ret {| configDir := configDir; settingsPath := settingsPath |}.

(** *** The plan store *)

Definition plansDirectory (workingDirectory : path) : path :=
  path_join (path_join workingDirectory ".gemini") "plans".

Definition ensurePlansDirectory (workingDirectory : path) : M path :=
  let plansDir := plansDirectory workingDirectory in
  try_catch (fs_mkdir plansDir ;; ret plansDir)
    (fun e => throw (ApplicationError ("Failed to create plans directory: " +:+ message e))).

(** [s.replace(/[:.]/g, '-')] *)
Fixpoint dash_colons_dots (s : string) : string :=
  match s with
  | EmptyString => EmptyString
  | String c r =>
      String (if Ascii.eqb c ":" || Ascii.eqb c "." then "-"%char else c) (dash_colons_dots r)
  end.

(** [s.replace('T', '_')]: the first occurrence only. *)
Fixpoint underscore_first_T (s : string) : string :=
  match s with
  | EmptyString => EmptyString
  | String c r => if Ascii.eqb c "T" then String "_" r else String c (underscore_first_T r)
  end.

Definition generatePlanId : M string :=
  let! w := get_world in
  let iso := toISOString w (now w) in
  let replaced := underscore_first_T (dash_colons_dots iso) in
  let timestamp := substring 0 (String.length replaced - 5) replaced in   (* slice(0, -5) *)
  let randomSuffix := substring 2 6 (random36 w) in                       (* substring(2, 8) *)
  ret ("plan_" +:+ timestamp +:+ "_" +:+ randomSuffix).

Definition planPath (plansDir : path) (planId : string) : path :=
  path_join plansDir (planId +:+ ".json").

Definition savePlan (plan : ExecutionPlan) (workingDirectory : path) : M unit :=
  let! plansDir := ensurePlansDirectory workingDirectory in
  let planPath := planPath plansDir (id plan) in
  try_catch (fs_writeFile planPath (JSON_stringify (ExecutionPlan_to_json plan)))
    (fun e => throw (ApplicationError ("Failed to save plan: " +:+ message e))).

(** [JSON.parse(text)] as a call that may throw. *)
Definition JSON_parse_or_throw (text : string) : result json :=
  match JSON_parse text with
  | Some v => Ok v
  | None => Throw (SyntaxError "Unexpected token in JSON")
  end.

(** [null] is [None]: a file that holds the JSON text [null] loads as [null]. *)
Definition loadPlan (planId : string) (workingDirectory : path) : M (option ExecutionPlan) :=
  let plansDir := plansDirectory workingDirectory in
  let planPath := planPath plansDir planId in
  try_catch
    (let! planContent := fs_readFile planPath in
     let! v := lift (JSON_parse_or_throw planContent) in
     match v with
     | JNull => ret None
     | _ => match ExecutionPlan_of_json v with
            | Some plan => ret (Some plan)
            | None => untyped
            end
     end)
    (fun e =>
       if decide (code e = Some "ENOENT") then ret None
       else throw (ApplicationError ("Failed to load plan: " +:+ message e))).

(** The loop of [listPlans]: a file that cannot be read or parsed is skipped. *)
Fixpoint read_plans (plansDir : path) (planFiles : list string) : M (list ExecutionPlan) :=
  match planFiles with
  | [] => ret []
  | file :: rest =>
      let! here :=
        try_catch
          (let! planContent := fs_readFile (path_join plansDir file) in
           let! v := lift (JSON_parse_or_throw planContent) in
           match ExecutionPlan_of_json v with
           | Some plan => ret [plan]
           | None => untyped
           end)
          (fun _ => ret []) in
      let! more := read_plans plansDir rest in
      ret (here ++ more)%list
  end.

Definition newest_first (a b : ExecutionPlan) : Prop := created_at b <= created_at a.

#[local] Instance newest_first_dec (a b : ExecutionPlan) : Decision (newest_first a b).
Proof. unfold newest_first. apply _. Defined.

Definition listPlans (workingDirectory : path) : M (list ExecutionPlan) :=
  let plansDir := plansDirectory workingDirectory in
  try_catch
    (let! files := fs_readdir plansDir in
     let planFiles := filter (fun file => endsWith file ".json" = true) files in
     let! plans := read_plans plansDir planFiles in
     ret (merge_sort newest_first plans))
    (fun e =>
       if decide (code e = Some "ENOENT") then ret []
       else throw (ApplicationError ("Failed to list plans: " +:+ message e))).

(** *** cleanupGeminiConfig: removes the whole directory, never throws. *)
Definition cleanupGeminiConfig (configDir : path) : M unit :=
  try_catch (fs_rm configDir) (fun _ => ret tt).

(** *** The instruction texts *)

Definition planningSystemPrompt (options : Options) : string :=
  jq "You are an AI assistant that creates detailed execution plans. 
When given a task, you must respond with a structured execution plan in the following JSON format:

{
  'title': 'Brief title for the task',
  'description': 'Detailed description of what needs to be accomplished',
  'steps': [
    {
      'id': 'step_1', 
      'description': 'Clear description of what this step does',
      'command': 'optional: specific command to run',
      'files': ['optional: array of files this step will work with'],
      'estimated_duration': 300
    }
  ]
}

Break down complex tasks into specific, actionable steps. Each step should be clear and executable.
Do not execute anything - only create the plan. Include estimated duration in seconds for each step.
Be specific about files that will be created, modified, or analyzed.

"
  +:+ match nonempty (systemPrompt options) with
      | Some extra => newline +:+ newline +:+ "Additional context: " +:+ extra
      | None => EmptyString
      end.

Definition planningPrompt (prompt : string) : string :=
  "Create an execution plan for the following task:

"
  +:+ prompt +:+
  "

Respond ONLY with the JSON structure described in the system prompt. Do not include any other text, explanations, or markdown formatting.".

Definition editingSystemPrompt : string :=
  jq "You are an AI assistant that modifies execution plans based on user instructions.

You will receive:
1. An existing execution plan in JSON format
2. Instructions for how to modify the plan

You must respond with the modified plan in the same JSON format:

{
  'title': 'Brief title for the task',
  'description': 'Detailed description of what needs to be accomplished', 
  'steps': [
    {
      'id': 'step_1',
      'description': 'Clear description of what this step does',
      'command': 'optional: specific command to run',
      'files': ['optional: array of files this step will work with'],
      'estimated_duration': 300
    }
  ]
}

Modify only what is requested in the instructions. Keep the existing structure and IDs where possible.
Respond ONLY with the JSON structure. Do not include any other text or explanations.".

Definition editingPrompt (existingPlan : ExecutionPlan) (editInstructions : string) : string :=
  "Here is the existing execution plan:" +:+ newline +:+ newline
  +:+ JSON_stringify
        (JObj [("title", JStr (title existingPlan));
               ("description", JStr (description existingPlan));
               ("steps",
                JArr (map (fun step =>
                             JObj ([("id", JStr (step_id step));
                                    ("description", JStr (step_description step))]
                                   ++ field "command" JStr (command step)
                                   ++ field "files" strings_to_json (files step)
                                   ++ field "estimated_duration" JNum (estimated_duration step))%list)
                          (steps existingPlan)))])
  +:+ newline +:+ newline
  +:+ "Please modify this plan according to these instructions:" +:+ newline +:+ newline
  +:+ editInstructions +:+ newline +:+ newline
  +:+ "Respond ONLY with the modified JSON structure.".

Definition executionPrompt (step : ExecutionStep) : string :=
  "Execute the following step from an approved plan:

Step Description: "
  +:+ step_description step +:+ newline
  +:+ match nonempty (command step) with
      | Some c => "Suggested Command: " +:+ c
      | None => EmptyString
      end +:+ newline
  +:+ match files step with
      | Some l => "Files to work with: " +:+ join ", " l
      | None => EmptyString
      end +:+
  "

Complete this step thoroughly. If this involves code changes, make the actual changes. If it involves analysis, provide detailed analysis.".

(** *** runGeminiCLI *)

(** [options.cwd || process.cwd()] *)
Definition workingDirectory_of (options : Options) : M path :=
  match cwd_option options with
  | Some d => ret d
  | None => process_cwd
  end.

Definition finalPrompt (prompt : string) (options : Options) : string :=
  match nonempty (systemPrompt options) with
  | Some sp => sp +:+ newline +:+ newline +:+ prompt
  | None => prompt
  end.

(** The argument vector, in the order the pushes are written. *)
Definition command_args (prompt : string) (options : Options) : list string :=
  (match nonempty (model options) with
   | Some m => ["--model"; m]
   | None => []
   end
   ++ match toolsConfig options ≫= securityMode with
      | Some yolo => ["--yolo"]
      | Some sandbox => ["--sandbox"]
      | _ => []                       (* safe is the default, no additional args *)
      end
   ++ match toolsConfig options ≫= checkpointing with
      | Some true => ["-c"]
      | _ => []
      end
   ++ match debug options with
      | Some true => ["--debug"]
      | _ => []
      end
   ++ ["-p"; finalPrompt prompt options])%list.

(** [options.timeout || 300] *)
Definition timeout_seconds (options : Options) : Z :=
  match timeout options with
  | Some t => if t =? 0 then 300 else t
  | None => 300
  end.

Definition message_of_chunk (startTime : Z) (c : chunk) : GeminiMessage :=
  {| type := match from c with Stdout => assistant | Stderr => error_message end;
     content := text c;
     timestamp := startTime + at_ms c |}.

(** [fullResponse]: the standard-output chunks, concatenated. *)
Definition fullResponse (output : list chunk) : string :=
  fold_right (fun c acc => match from c with Stdout => text c +:+ acc | Stderr => acc end)
             EmptyString output.

Definition exit_code_string (c : option Z) : string :=
  match c with
  | Some n => string_of_Z n
  | None => "null"
  end.

(** The promise of [runGeminiCLI]: [Ok] when it resolves, [Throw] when it
    rejects.  A throw of [createGeminiConfig] reaches the [catch] block with
    [configDir] still undefined, so nothing is cleaned up there.  The timer
    fires when the child has not closed after [timeout] seconds. *)
Definition runGeminiCLI (prompt : string) (options : Options) : M GeminiResponse :=
  let! startTime := Date_now in
  let! workingDirectory := workingDirectory_of options in
  let! configDir :=
    match mcpServers options with
    | Some (_ :: _) =>
        let! configResult := createGeminiConfig (mcpServers options) workingDirectory in
        ret (Some (configDir configResult))
    | _ => ret None
    end in
  let args := command_args prompt options in
  let! geminiProcess := spawn args in
  let cleanup :=
    match configDir with
    | Some d => cleanupGeminiConfig d
    | None => ret tt
    end in
  match geminiProcess with
  | FailsToStart reason =>
      cleanup ;;
      throw (ApplicationError ("Failed to start Gemini CLI: " +:+ reason))
  | Exits output exit_code after_ms =>
      if timeout_seconds options * 1000 <=? after_ms then
        elapse (timeout_seconds options * 1000) ;;
        cleanup ;;
        throw (ApplicationError ("Gemini CLI timed out after "
                                 +:+ string_of_Z (timeout_seconds options) +:+ " seconds"))
      else
        elapse after_ms ;;
        let! endTime := Date_now in
        let duration := endTime - startTime in
        cleanup ;;
        let messages :=
          {| type := user; content := finalPrompt prompt options; timestamp := startTime |}
          :: map (message_of_chunk startTime) output in
        ret {| messages := messages;
               result_text := trim (fullResponse output);
               success := bool_decide (exit_code = Some 0);
               duration_ms := duration;
               error := if bool_decide (exit_code = Some 0) then None
                        else Some ("Gemini CLI exited with code " +:+ exit_code_string exit_code) |}
  end.

(** *** generatePlanWithGemini and editPlanWithGemini *)

(** [value as string || fallback] *)
Definition string_or (value : option json) (fallback : string) : result string :=
  if truthy value then
    match value with
    | Some (JStr t) => Ok t
    | _ => Untyped
    end
  else Ok fallback.

(** The object literal that [planData.steps.map(...)] builds from one step. *)
Definition validatedFields (index : nat) (step : json) : result ExecutionStep :=
  let? i := string_or (prop "id" step) ("step_" +:+ string_of_nat (index + 1)) in
  let? d := string_or (prop "description" step) ("Step " +:+ string_of_nat (index + 1)) in
  let? c := match prop "command" step with
            | None => Ok None
            | Some (JStr t) => Ok (Some t)
            | Some _ => Untyped
            end in
  let? f := match prop "files" step with
            | Some (JArr l) =>
                match mapM as_string l with
                | Some names => Ok (Some names)
                | None => Untyped
                end
            | _ => Ok None
            end in
  Ok {| step_id := i; step_description := d; command := c; files := f;
        estimated_duration :=
          Some (match prop "estimated_duration" step with
                | Some (JNum n) => n
                | _ => 300
                end);
        step_status := Some pending |}.

(** One element of the map; reading a property of [null] throws. *)
Definition validatedStep (index : nat) (step : json) : result ExecutionStep :=
  match step with
  | JNull => Throw (TypeError "Cannot read properties of null (reading 'id')")
  | _ => validatedFields index step
  end.

Fixpoint validatedSteps_from (index : nat) (l : list json) : result (list ExecutionStep) :=
  match l with
  | [] => Ok []
  | step :: rest =>
      let? v := validatedStep index step in
      let? vs := validatedSteps_from (S index) rest in
      Ok (v :: vs)
  end.

Definition validatedSteps (l : list json) : result (list ExecutionStep) :=
  validatedSteps_from 0 l.

(** The inner [try] of both methods: cut the JSON out of the reply and parse it. *)
Definition extract_planData (reply : string) (what : string) : result json :=
  result_catch
    (match match_json_braces reply with
     | None => Throw (ApplicationError "No JSON structure found in Gemini response")
     | Some jsonMatch => JSON_parse_or_throw jsonMatch
     end)
    (fun parseError => Throw (ApplicationError (what +:+ message parseError))).

(** [!planData.title || !planData.description || !Array.isArray(planData.steps)] *)
Definition missing_required_fields (planData : json) : bool :=
  negb (truthy (prop "title" planData))
  || negb (truthy (prop "description" planData))
  || negb (match prop "steps" planData with Some (JArr _) => true | _ => false end).

Definition steps_array (planData : json) : list json :=
  match prop "steps" planData with
  | Some (JArr l) => l
  | _ => []
  end.

Definition error_or_unknown (e : option string) : string :=
  match nonempty e with
  | Some m => m
  | None => "Unknown error"
  end.

Definition generatePlanWithGemini (prompt : string) (options : Options) : M ExecutionPlan :=
  let! planId := generatePlanId in
  let! timestamp := Date_now in
  try_catch
    (let! response :=
       runGeminiCLI (planningPrompt prompt)
                    (with_systemPrompt (planningSystemPrompt options) options) in
     if negb (success response) then
       throw (ApplicationError ("Failed to generate plan: " +:+ error_or_unknown (error response)))
     else
       let! planData :=
         lift (extract_planData (result_text response) "Failed to parse plan structure: ") in
       if missing_required_fields planData then
         throw (ApplicationError "Invalid plan structure: missing required fields")
       else
         let! validated := lift (validatedSteps (steps_array planData)) in
         let! planTitle := lift (string_or (prop "title" planData) EmptyString) in
         let! planDescription := lift (string_or (prop "description" planData) EmptyString) in
         let executionPlan :=
           {| id := planId;
              title := planTitle;
              description := planDescription;
              steps := validated;
              created_at := timestamp;
              modified_at := timestamp;
              status := draft;
              original_prompt := Some prompt;
              configuration :=
                Some {| configuration_model := model options;
                        configuration_projectPath := path_string <$> cwd_option options;
                        configuration_toolsConfig := toolsConfig options |} |} in
         let! workingDirectory := workingDirectory_of options in
         savePlan executionPlan workingDirectory ;;
         ret executionPlan)
    (fun e => throw (ApplicationError ("Plan generation failed: " +:+ message e))).

Definition editPlanWithGemini (planId : string) (editInstructions : string) (options : Options)
  : M ExecutionPlan :=
  let! workingDirectory := workingDirectory_of options in
  let! loaded := loadPlan planId workingDirectory in
  match loaded with
  | None => throw (ApplicationError ("Plan with ID " +:+ planId +:+ " not found"))
  | Some existingPlan =>
      try_catch
        (let! response :=
           runGeminiCLI (editingPrompt existingPlan editInstructions)
                        (with_systemPrompt editingSystemPrompt options) in
         if negb (success response) then
           throw (ApplicationError ("Failed to edit plan: " +:+ error_or_unknown (error response)))
         else
           let! planData :=
             lift (extract_planData (result_text response)
                                    "Failed to parse edited plan structure: ") in
           if missing_required_fields planData then
             throw (ApplicationError "Invalid edited plan structure: missing required fields")
           else
             let! validated := lift (validatedSteps (steps_array planData)) in
             let! planTitle := lift (string_or (prop "title" planData) EmptyString) in
             let! planDescription := lift (string_or (prop "description" planData) EmptyString) in
             let! modified := Date_now in
             let updatedPlan :=
               {| id := id existingPlan;
                  title := planTitle;
                  description := planDescription;
                  steps := validated;
                  created_at := created_at existingPlan;
                  modified_at := modified;
                  status := draft;               (* Reset to draft after editing *)
                  original_prompt := original_prompt existingPlan;
                  configuration := configuration existingPlan |} in
             savePlan updatedPlan workingDirectory ;;
             ret updatedPlan)
        (fun e => throw (ApplicationError ("Plan editing failed: " +:+ message e)))
  end.

(** *** executePlan *)

(** [plan.status = st; plan.modified_at = t] *)
Definition set_status (st : PlanStatus) (t : Z) (plan : ExecutionPlan) : ExecutionPlan :=
  {| id := id plan; title := title plan; description := description plan;
     steps := steps plan; created_at := created_at plan; modified_at := t;
     status := st; original_prompt := original_prompt plan;
     configuration := configuration plan |}.

Definition with_step_status (st : StepStatus) (step : ExecutionStep) : ExecutionStep :=
  {| step_id := step_id step; step_description := step_description step;
     command := command step; files := files step;
     estimated_duration := estimated_duration step; step_status := Some st |}.

(** [step.status = st] for the step at [index]: the step object is the one
    in [plan.steps], so the plan sees the assignment. *)
Definition set_step_status (index : nat) (st : StepStatus) (plan : ExecutionPlan) : ExecutionPlan :=
  {| id := id plan; title := title plan; description := description plan;
     steps := alter (with_step_status st) index (steps plan);
     created_at := created_at plan; modified_at := modified_at plan;
     status := status plan; original_prompt := original_prompt plan;
     configuration := configuration plan |}.

(** How the [try] block of [executePlan] ends: it leaves the loop with the
    plan, the results and [allStepsSuccessful], or a statement outside the
    inner [try] throws; the [catch] block then works on the plan as the
    loop has left it. *)
Inductive try_end (A : Type) : Type :=
| Done (a : A)
| Caught (plan : ExecutionPlan) (e : Host.error).

Arguments Done {A} a.
Arguments Caught {A} plan e.

(** A statement of the [try] block that may throw, while [plan] is the
    current state of the plan object. *)
Definition in_try {A B} (plan : ExecutionPlan) (m : M A) (k : A -> M (try_end B)) : M (try_end B) :=
  fun w =>
    match m w with
    | (Ok a, w') => k a w'
    | (Throw e, w') => (Ok (Caught plan e), w')
    | (Untyped, w') => (Untyped, w')
    end.

(** The inner [try]/[catch] around [runGeminiCLI]: the error is kept, not rethrown. *)
Definition attempt {A} (m : M A) : M (A + Host.error) :=
  fun w =>
    match m w with
    | (Ok a, w') => (Ok (inl a), w')
    | (Throw e, w') => (Ok (inr e), w')
    | (Untyped, w') => (Untyped, w')
    end.

(** [for (const step of plan.steps)], from the step at [index] on. *)
Fixpoint execute_steps (workingDirectory : path) (options : Options)
    (plan : ExecutionPlan) (results : list GeminiResponse)
    (index : nat) (todo : list ExecutionStep)
  : M (try_end (ExecutionPlan * list GeminiResponse * bool)) :=
  match todo with
  | [] => ret (Done (plan, results, true))
  | step :: rest =>
      let plan := set_step_status index in_progress plan in
      in_try plan (savePlan plan workingDirectory) (fun _ =>
      let! outcome := attempt (runGeminiCLI (executionPrompt step) options) in
      match outcome with
      | inl stepResult =>
          let results := (results ++ [stepResult])%list in
          if success stepResult then
            let plan := set_step_status index step_completed plan in
            (* Save progress after each step *)
            in_try plan (savePlan plan workingDirectory) (fun _ =>
            execute_steps workingDirectory options plan results (S index) rest)
          else
            (* Stop execution on first failure *)
            ret (Done (set_step_status index step_failed plan, results, false))
      | inr stepError =>
          ret (Done (set_step_status index step_failed plan, results, false))
      end)
  end.

Definition executePlan (planId : string) (options : Options)
  : M (ExecutionPlan * list GeminiResponse) :=
  let! workingDirectory := workingDirectory_of options in
  let! loaded := loadPlan planId workingDirectory in
  match loaded with
  | None => throw (ApplicationError ("Plan with ID " +:+ planId +:+ " not found"))
  | Some plan =>
      if negb (bool_decide (status plan = approved)) then
        throw (ApplicationError ("Plan must be approved before execution. Current status: "
                                 +:+ PlanStatus_name (status plan)))
      else
        (* Update plan status to executing *)
        let! t := Date_now in
        let plan := set_status executing t plan in
        savePlan plan workingDirectory ;;
        let! tried :=
          (let! looped := execute_steps workingDirectory options plan [] 0 (steps plan) in
           match looped with
           | Done (plan, results, allStepsSuccessful) =>
               (* Update final plan status *)
               let! t := Date_now in
               let plan := set_status (if allStepsSuccessful : bool then completed else failed) t plan in
               in_try plan (savePlan plan workingDirectory) (fun _ => ret (Done (plan, results)))
           | Caught plan e => ret (Caught plan e)
           end : M (try_end (ExecutionPlan * list GeminiResponse))) in
        match tried with
        | Done r => ret r
        | Caught plan e =>
            (* Mark plan as failed on any error *)
            let! t := Date_now in
            let plan := set_status failed t plan in
            savePlan plan workingDirectory ;;
            throw e
        end
  end.

(** *** checkGeminiCLI and validateProjectPath, as far as [execute] uses them *)

Definition checkGeminiCLI_isAvailable : M bool :=
  fun w => (Ok (match gemini_version w with Some _ => true | None => false end), w).

(** [path.resolve(projectPath)]: an absolute path is taken from the root, a
    relative one from the current directory; [.] and empty components
    vanish and [..] drops the component before it. *)
Definition path_resolve (base : path) (projectPath : string) : path :=
  let start := match projectPath with
               | String "/" _ => []
               | _ => base
               end in
  fold_left
    (fun acc c =>
       if String.eqb c EmptyString || String.eqb c "." then acc
       else if String.eqb c ".." then removelast acc
       else (acc ++ [c])%list)
    (split "/" projectPath) start.

(** [Ok resolvedPath] or [Error message]; permissions are not modelled. *)
Definition validateProjectPath (projectPath : string) : M (path + string) :=
  let! base := process_cwd in
  let resolvedPath := path_resolve base projectPath in
  let! w := get_world in
  match resolvedPath, fs w !! resolvedPath with
  | [], _ | _, Some Dir => ret (inl resolvedPath)
  | _, Some (File _) =>
      ret (inr ("Path exists but is not a directory: " +:+ path_string resolvedPath))
  | _, None => ret (inr ("Directory does not exist: " +:+ path_string resolvedPath))
  end.

(** *** execute: the work on one input item *)

Record AdditionalOptions : Type := {
  additional_apiKey : option string;
  additional_useVertexAI : option bool;
  additional_systemPrompt : option string;
  additional_debug : option bool;
}.

(** The node parameters of one item. *)
Record Parameters : Type := {
  operation : string;
  parameter_model : string;
  parameter_timeout : Z;
  projectPath : string;
  additionalOptions : AdditionalOptions;
  parameter_toolsConfig : option ToolsConfig;
  parameter_mcpServers : option (list McpServer);
  parameter_prompt : string;
  parameter_planId : string;
  editInstructions : string;
}.

(** What the [switch] leaves in [response], [plan], [plans] or [executionResults]. *)
Inductive Outcome : Type :=
| Response (response : GeminiResponse)
| Plan (plan : ExecutionPlan)
| Plans (plans : list ExecutionPlan)
| ExecutionResults (plan : ExecutionPlan) (results : list GeminiResponse).

Definition one_of (l : list string) (x : string) : bool := existsb (String.eqb x) l.

Definition operationOptions (p : Parameters) (resolvedProjectPath : option path) : Options :=
  {| cwd_option := resolvedProjectPath;
     apiKey := additional_apiKey (additionalOptions p);
     useVertexAI := additional_useVertexAI (additionalOptions p);
     model := Some (parameter_model p);
     systemPrompt := additional_systemPrompt (additionalOptions p);
     timeout := Some (parameter_timeout p);
     debug := additional_debug (additionalOptions p);
     toolsConfig := parameter_toolsConfig p;
     mcpServers := parameter_mcpServers p |}.

(** The [switch (operation)]. *)
Definition run_operation (p : Parameters) (prompt planId editInstructions : string)
    (resolvedProjectPath : option path) : M Outcome :=
  let operationOptions := operationOptions p resolvedProjectPath in
  let operation := operation p in
  if String.eqb operation "query" || String.eqb operation "continue" then
    let! response := runGeminiCLI prompt operationOptions in
    ret (Response response)
  else if String.eqb operation "generate_plan" then
    let! plan := generatePlanWithGemini prompt operationOptions in
    ret (Plan plan)
  else if String.eqb operation "list_plans" then
    let! wd := workingDirectory_of operationOptions in
    let! plans := listPlans wd in
    ret (Plans plans)
  else if String.eqb operation "edit_plan" then
    let! plan := editPlanWithGemini planId editInstructions operationOptions in
    ret (Plan plan)
  else if String.eqb operation "approve_plan" then
    let! wd := workingDirectory_of operationOptions in
    let! planToApprove := loadPlan planId wd in
    match planToApprove with
    | None => throw (NodeOperationError ("Plan with ID " +:+ planId +:+ " not found"))
    | Some planToApprove =>
        let! t := Date_now in
        let planToApprove := set_status approved t planToApprove in
        savePlan planToApprove wd ;;
        ret (Plan planToApprove)
    end
  else if String.eqb operation "execute_plan" then
    let! executionResults := executePlan planId operationOptions in
    ret (ExecutionResults executionResults.1 executionResults.2)
  else throw (NodeOperationError ("Unknown operation: " +:+ operation)).

(** The body of the [try] of [execute] for one item, up to the [switch]. *)
Definition execute_item (p : Parameters) : M Outcome :=
  let operation := operation p in
  let prompt := if one_of ["query"; "continue"; "generate_plan"] operation
                then parameter_prompt p else EmptyString in
  let planId := if one_of ["edit_plan"; "approve_plan"; "execute_plan"] operation
                then parameter_planId p else EmptyString in
  let editInstructions := if String.eqb operation "edit_plan"
                          then editInstructions p else EmptyString in
  if one_of ["query"; "continue"; "generate_plan"] operation
     && String.eqb (trim prompt) EmptyString then
    throw (NodeOperationError "Prompt is required and cannot be empty")
  else if one_of ["edit_plan"; "approve_plan"; "execute_plan"] operation
          && String.eqb (trim planId) EmptyString then
    throw (NodeOperationError "Plan ID is required for this operation")
  else
    let! isAvailable := checkGeminiCLI_isAvailable in
    if negb isAvailable then
      throw (NodeOperationError
               "Gemini CLI is not installed or not accessible. Install with: npm install -g @google/gemini-cli")
    else
      let! resolvedProjectPath :=
        if negb (String.eqb (trim (projectPath p)) EmptyString) then
          let! pathValidation := validateProjectPath (trim (projectPath p)) in
          match pathValidation with
          | inl resolvedPath => ret (Some resolvedPath)
          | inr problem => throw (NodeOperationError ("Invalid project path: " +:+ problem))
          end
        else ret None in
      run_operation p prompt planId editInstructions resolvedProjectPath.

(** *** execute: the output items and the loop over the input items *)

#[global] Instance MessageType_eq_dec : EqDecision MessageType.
Proof. solve_decision. Defined.

Definition MessageType_name (t : MessageType) : string :=
  match t with
  | user => "user"
  | assistant => "assistant"
  | system => "system"
  | error_message => "error"
  end.

Definition GeminiMessage_to_json (m : GeminiMessage) : json :=
  JObj [("type", JStr (MessageType_name (type m))); ("content", JStr (content m));
        ("timestamp", JNum (timestamp m))].

Definition GeminiResponse_to_json (r : GeminiResponse) : json :=
  JObj ([("messages", JArr (map GeminiMessage_to_json (messages r)));
         ("result", JStr (result_text r)); ("success", JBool (success r));
         ("duration_ms", JNum (duration_ms r))]
        ++ field "error" JStr (error r))%list.

(** One element of [returnData]. *)
Record INodeExecutionData : Type := {
  item_json : json;                (* json *)
  pairedItem : nat;
}.

(** [messages.filter(m => m.type === t).length] *)
Definition count_messages (t : MessageType) (l : list GeminiMessage) : Z :=
  Z.of_nat (length (filter (fun m => type m = t) l)).

(** [steps.filter(s => s.status === st).length] *)
Definition count_steps (st : StepStatus) (l : list ExecutionStep) : Z :=
  Z.of_nat (length (filter (fun s => step_status s = Some st) l)).

(** What is pushed for [response]: nothing when the format is none of the three. *)
Definition response_output (outputFormat : string) (p : Parameters)
    (resolvedProjectPath : option path) (response : GeminiResponse) : option json :=
  if String.eqb outputFormat "text" then
    Some (JObj ([("result", JStr (result_text response)); ("success", JBool (success response));
                 ("duration_ms", JNum (duration_ms response))]
                ++ field "error" JStr (error response))%list)
  else if String.eqb outputFormat "messages" then
    Some (JObj [("messages", JArr (map GeminiMessage_to_json (messages response)));
                ("messageCount", JNum (Z.of_nat (length (messages response))))])
  else if String.eqb outputFormat "structured" then
    Some (JObj ([("messages", JArr (map GeminiMessage_to_json (messages response)));
                 ("summary",
                  JObj [("userMessageCount", JNum (count_messages user (messages response)));
                        ("assistantMessageCount",
                         JNum (count_messages assistant (messages response)));
                        ("errorMessageCount",
                         JNum (count_messages error_message (messages response)));
                        ("hasResult", JBool (negb (String.eqb (result_text response) EmptyString)))]);
                 ("result", JStr (result_text response));
                 ("metrics",
                  JObj [("duration_ms", JNum (duration_ms response));
                        (* Math.ceil(messages.length / 2) *)
                        ("num_turns", JNum ((Z.of_nat (length (messages response)) + 1) / 2));
                        ("success", JBool (success response))]);
                 ("configuration",
                  JObj ([("model", JStr (parameter_model p));
                         ("toolsEnabled",
                          strings_to_json
                            (default [] (parameter_toolsConfig p ≫= enabledTools)));
                         ("securityMode",
                          JStr (SecurityMode_name
                                  (default safe (parameter_toolsConfig p ≫= securityMode))));
                         ("checkpointing",
                          JBool (default false (parameter_toolsConfig p ≫= checkpointing)));
                         ("mcpServersCount",
                          JNum (Z.of_nat (length (default [] (parameter_mcpServers p)))));
                         ("mcpServerNames",
                          strings_to_json
                            (filter (fun n => n ≠ EmptyString)
                                    (map name (default [] (parameter_mcpServers p)))))]
                        ++ field "projectPath" (fun d => JStr (path_string d))
                                 resolvedProjectPath)%list);
                 ("success", JBool (success response))]
                ++ field "error" JStr (error response))%list)
  else None.

Definition plan_output (outputFormat : string) (operation : string) (plan : ExecutionPlan)
  : json :=
  if String.eqb outputFormat "plan" || String.eqb outputFormat "structured" then
    JObj [("plan", ExecutionPlan_to_json plan); ("operation", JStr operation);
          ("success", JBool true)]
  else
    JObj [("planId", JStr (id plan)); ("title", JStr (title plan));
          ("status", JStr (PlanStatus_name (status plan)));
          ("stepCount", JNum (Z.of_nat (length (steps plan))));
          ("operation", JStr operation); ("success", JBool true)].

Definition plans_output (outputFormat : string) (operation : string)
    (plans : list ExecutionPlan) : json :=
  JObj [("plans",
         JArr (if String.eqb outputFormat "plan" then map ExecutionPlan_to_json plans
               else map (fun p =>
                           JObj [("id", JStr (id p)); ("title", JStr (title p));
                                 ("status", JStr (PlanStatus_name (status p)));
                                 ("stepCount", JNum (Z.of_nat (length (steps p))));
                                 ("created_at", JNum (created_at p));
                                 ("modified_at", JNum (modified_at p))])
                        plans));
        ("planCount", JNum (Z.of_nat (length plans)));
        ("operation", JStr operation); ("success", JBool true)].

Definition executionResults_output (outputFormat : string) (operation : string)
    (plan : ExecutionPlan) (results : list GeminiResponse) : json :=
  if String.eqb outputFormat "plan_status" || String.eqb outputFormat "structured" then
    JObj [("plan", ExecutionPlan_to_json plan);
          ("executionResults", JArr (map GeminiResponse_to_json results));
          ("summary",
           JObj [("totalSteps", JNum (Z.of_nat (length (steps plan))));
                 ("completedSteps", JNum (count_steps step_completed (steps plan)));
                 ("failedSteps", JNum (count_steps step_failed (steps plan)));
                 ("finalStatus", JStr (PlanStatus_name (status plan)))]);
          ("operation", JStr operation);
          ("success", JBool (bool_decide (status plan = completed)))]
  else
    JObj [("planId", JStr (id plan)); ("status", JStr (PlanStatus_name (status plan)));
          ("completedSteps", JNum (count_steps step_completed (steps plan)));
          ("totalSteps", JNum (Z.of_nat (length (steps plan))));
          ("operation", JStr operation);
          ("success", JBool (bool_decide (status plan = completed)))].

(** The [if (response) ... else if (plan) ... else if (plans) ... else if
    (executionResults)] after the [switch]. *)
Definition output_items (outputFormat : string) (p : Parameters)
    (resolvedProjectPath : option path) (itemIndex : nat) (outcome : Outcome)
  : list INodeExecutionData :=
  match outcome with
  | Response response =>
      match response_output outputFormat p resolvedProjectPath response with
      | Some j => [{| item_json := j; pairedItem := itemIndex |}]
      | None => []
      end
  | Plan plan =>
      [{| item_json := plan_output outputFormat (operation p) plan; pairedItem := itemIndex |}]
  | Plans plans =>
      [{| item_json := plans_output outputFormat (operation p) plans; pairedItem := itemIndex |}]
  | ExecutionResults plan results =>
      [{| item_json := executionResults_output outputFormat (operation p) plan results;
          pairedItem := itemIndex |}]
  end.

(** The [try] block of [execute] for one item; [finish] stands for what
    follows the [switch]. *)
Definition execute_item_then {A} (p : Parameters) (finish : option path -> Outcome -> A) : M A :=
  let operation := operation p in
  let prompt := if one_of ["query"; "continue"; "generate_plan"] operation
                then parameter_prompt p else EmptyString in
  let planId := if one_of ["edit_plan"; "approve_plan"; "execute_plan"] operation
                then parameter_planId p else EmptyString in
  let editInstructions := if String.eqb operation "edit_plan"
                          then editInstructions p else EmptyString in
  if one_of ["query"; "continue"; "generate_plan"] operation
     && String.eqb (trim prompt) EmptyString then
    throw (NodeOperationError "Prompt is required and cannot be empty")
  else if one_of ["edit_plan"; "approve_plan"; "execute_plan"] operation
          && String.eqb (trim planId) EmptyString then
    throw (NodeOperationError "Plan ID is required for this operation")
  else
    let! isAvailable := checkGeminiCLI_isAvailable in
    if negb isAvailable then
      throw (NodeOperationError
               "Gemini CLI is not installed or not accessible. Install with: npm install -g @google/gemini-cli")
    else
      let! resolvedProjectPath :=
        if negb (String.eqb (trim (projectPath p)) EmptyString) then
          let! pathValidation := validateProjectPath (trim (projectPath p)) in
          match pathValidation with
          | inl resolvedPath => ret (Some resolvedPath)
          | inr problem => throw (NodeOperationError ("Invalid project path: " +:+ problem))
          end
        else ret None in
      let! outcome := run_operation p prompt planId editInstructions resolvedProjectPath in
      ret (finish resolvedProjectPath outcome).

(** One input item: its node parameters and the output format chosen. *)
Record Item : Type := {
  item_parameters : Parameters;
  outputFormat : string;
}.

(** The item pushed for an error when the node continues on failure; the
    stack trace ([errorDetails]) is left out. *)
Definition error_item (e : Host.error) (itemIndex : nat) : INodeExecutionData :=
  {| item_json := JObj [("error", JStr (message e)); ("errorType", JStr "execution_error");
                        ("itemIndex", JNum (Z.of_nat itemIndex))];
     pairedItem := itemIndex |}.

(** [for (let itemIndex = 0; itemIndex < items.length; itemIndex++)] from
    [itemIndex] on, with [returnData] as collected so far. *)
Fixpoint execute_from (continueOnFail : bool) (itemIndex : nat) (items : list Item)
    (returnData : list INodeExecutionData) : M (list INodeExecutionData) :=
  match items with
  | [] => ret returnData
  | item :: rest =>
      let! pushed :=
        try_catch
          (execute_item_then (item_parameters item)
             (fun resolvedProjectPath outcome =>
                output_items (outputFormat item) (item_parameters item)
                             resolvedProjectPath itemIndex outcome))
          (fun e =>
             if continueOnFail then ret [error_item e itemIndex]
             else throw (NodeOperationError
                           ("Gemini CLI execution failed: " +:+ message e))) in
      execute_from continueOnFail (S itemIndex) rest (returnData ++ pushed)%list
  end.

Definition execute (items : list Item) (continueOnFail : bool) : M (list INodeExecutionData) :=
  execute_from continueOnFail 0 items [].

End GeminiCli.

(* ================================================================== *)
(** ** Properties *)
(* ================================================================== *)

Import Js Host GeminiCli.
Local Open Scope host_scope.

(** *** Strings *)

Lemma append_cons (x : ascii) (a b : string) : String x a +:+ b = String x (a +:+ b).
Proof. reflexivity. Qed.

Lemma string_app_assoc (a b c : string) : (a +:+ b) +:+ c = a +:+ (b +:+ c).
Proof. induction a as [|x a IH]; [done|]. by rewrite !append_cons, IH. Qed.

(** *** [JSON.parse] reads back what [JSON.stringify] writes *)

Section JsonNumbers.

(** What may follow a number: not a digit, not the start of a fraction or
    an exponent. *)
Definition number_end (rest : string) : Prop :=
  match rest with
  | EmptyString => True
  | String c _ => digit_val c = None ∧ starts_fraction rest = false
  end.

Lemma append_nil_l (s : string) : EmptyString +:+ s = s.
Proof. reflexivity. Qed.

Lemma parse_digits_uint d : ∀ acc rest,
  number_end rest →
  parse_digits (Zpos acc) (NilEmpty.string_of_uint d +:+ rest)
  = (Zpos (Pos.of_uint_acc d acc), rest).
Proof.
  induction d as [|d IH|d IH|d IH|d IH|d IH|d IH|d IH|d IH|d IH|d IH]; intros acc rest Hrest;
    simpl NilEmpty.string_of_uint; rewrite ?append_cons, ?append_nil_l.
  - destruct rest as [|c r]; [done|]. destruct Hrest as [Hc _]. simpl. by rewrite Hc.
  - simpl. rewrite <- (IH _ _ Hrest). f_equal. lia.
  - simpl. rewrite <- (IH _ _ Hrest). f_equal. lia.
  - simpl. rewrite <- (IH _ _ Hrest). f_equal. lia.
  - simpl. rewrite <- (IH _ _ Hrest). f_equal. lia.
  - simpl. rewrite <- (IH _ _ Hrest). f_equal. lia.
  - simpl. rewrite <- (IH _ _ Hrest). f_equal. lia.
  - simpl. rewrite <- (IH _ _ Hrest). f_equal. lia.
  - simpl. rewrite <- (IH _ _ Hrest). f_equal. lia.
  - simpl. rewrite <- (IH _ _ Hrest). f_equal. lia.
  - simpl. rewrite <- (IH _ _ Hrest). f_equal. lia.
Qed.

Lemma to_uint_is_normal p : Decimal.unorm (Pos.to_uint p) = Pos.to_uint p.
Proof.
  rewrite <- (Unsigned.to_of (Pos.to_uint p)), Unsigned.of_to. reflexivity.
Qed.

Lemma to_uint_no_leading_zero p d : Pos.to_uint p ≠ Decimal.D0 d.
Proof.
  intros H. pose proof (to_uint_is_normal p) as Hn. rewrite H in Hn.
  rewrite unorm_D0 in Hn.
  destruct (Decimal.uint_eq_dec d Decimal.Nil) as [-> | Hd].
  - apply (Unsigned.to_uint_nonzero p). by rewrite H.
  - pose proof (nb_digits_unorm d Hd) as Hle. rewrite Hn in Hle. simpl in Hle. lia.
Qed.

Lemma number_end_starts_fraction rest : number_end rest → starts_fraction rest = false.
Proof. destruct rest; [done|]. by intros [_ H]. Qed.

Ltac eval_digit_val :=
  match goal with
  | |- context [digit_val ?c] =>
      let v := eval vm_compute in (digit_val c) in change (digit_val c) with v
  end.

Ltac leading_digit k :=
  match goal with
  | Hrest : number_end ?rest, Hfr : starts_fraction ?rest = false,
    Hof : Pos.of_uint _ = N.pos _ |- _ =>
      simpl NilZero.string_of_uint; rewrite append_cons; unfold parse_nat_lit;
      eval_digit_val; cbv beta iota;
      rewrite (parse_digits_uint _ k rest Hrest), Hfr;
      simpl in Hof; by injection Hof as ->
  end.

Lemma parse_nat_lit_pos p rest :
  number_end rest →
  parse_nat_lit (NilZero.string_of_uint (Pos.to_uint p) +:+ rest) = Some (Zpos p, rest).
Proof.
  intros Hrest. pose proof (Unsigned.of_to p) as Hof.
  pose proof (number_end_starts_fraction _ Hrest) as Hfr.
  destruct (Pos.to_uint p) as [|d|d|d|d|d|d|d|d|d|d] eqn:E.
  - by destruct (Unsigned.to_uint_nonnil p).
  - by destruct (to_uint_no_leading_zero p d).
  - leading_digit 1%positive.
  - leading_digit 2%positive.
  - leading_digit 3%positive.
  - leading_digit 4%positive.
  - leading_digit 5%positive.
  - leading_digit 6%positive.
  - leading_digit 7%positive.
  - leading_digit 8%positive.
  - leading_digit 9%positive.
Qed.

(** A value that starts with a digit is a number. *)
Lemma parse_value_digit fuel c r d :
  digit_val c = Some d →
  parse_value (S fuel) (String c r)
  = match parse_nat_lit (String c r) with
    | Some (n, rest) => Some (JNum n, rest)
    | None => None
    end.
Proof.
  destruct c as [[] [] [] [] [] [] [] []]; intros H; cbv in H; try discriminate H; reflexivity.
Qed.

Lemma string_of_pos_digit p rest :
  ∃ c r d, NilZero.string_of_uint (Pos.to_uint p) +:+ rest = String c r ∧ digit_val c = Some d.
Proof.
  destruct (Pos.to_uint p) as [|u|u|u|u|u|u|u|u|u|u] eqn:E;
    [by destruct (Unsigned.to_uint_nonnil p)|..];
    simpl NilZero.string_of_uint; rewrite append_cons; by eexists _, _, _.
Qed.

Lemma parse_value_number n fuel rest :
  number_end rest →
  parse_value (S fuel) (string_of_Z n +:+ rest) = Some (JNum n, rest).
Proof.
  intros Hrest. unfold string_of_Z. destruct n as [|p|p]; simpl Z.to_int.
  - simpl NilZero.string_of_int. rewrite append_cons, append_nil_l.
    rewrite (parse_value_digit _ _ _ 0) by done.
    unfold parse_nat_lit. eval_digit_val. cbv iota.
    by rewrite (number_end_starts_fraction _ Hrest).
  - simpl NilZero.string_of_int.
    destruct (string_of_pos_digit p rest) as (c & r & d & Heq & Hd).
    pose proof (parse_nat_lit_pos p rest Hrest) as Hp.
    rewrite Heq in *. rewrite (parse_value_digit _ _ _ d Hd). by rewrite Hp.
  - simpl NilZero.string_of_int. rewrite append_cons.
    change (parse_value (S fuel) (String "-" ?r))
      with (match parse_nat_lit r with
            | Some (n, rest) => Some (JNum (- n), rest)
            | None => None
            end).
    by rewrite (parse_nat_lit_pos p rest Hrest).
Qed.

End JsonNumbers.

Section JsonStrings.

Lemma parse_string_body_escape_char c t :
  parse_string_body (escape_char c t)
  = match parse_string_body t with
    | Some (u, rest) => Some (String c u, rest)
    | None => None
    end.
Proof. destruct c as [[] [] [] [] [] [] [] []]; reflexivity. Qed.

Lemma escape_char_app c a b : escape_char c a +:+ b = escape_char c (a +:+ b).
Proof. destruct c as [[] [] [] [] [] [] [] []]; reflexivity. Qed.

Lemma parse_string_body_escape s rest :
  parse_string_body (escape s +:+ String dquote rest) = Some (s, rest).
Proof.
  induction s as [|c s IH].
  - reflexivity.
  - simpl escape. by rewrite escape_char_app, parse_string_body_escape_char, IH.
Qed.

Lemma quote_app s rest : quote s +:+ rest = String dquote (escape s +:+ String dquote rest).
Proof. unfold quote. by rewrite append_cons, string_app_assoc. Qed.

Lemma parse_value_string s fuel rest :
  parse_value (S fuel) (quote s +:+ rest) = Some (JStr s, rest).
Proof.
  rewrite quote_app.
  change (parse_value (S fuel) (String dquote ?r))
    with (match parse_string_body r with
          | Some (t, rest) => Some (JStr t, rest)
          | None => None
          end).
  by rewrite parse_string_body_escape.
Qed.

End JsonStrings.

Section JsonText.

(** An induction principle that reaches the values inside arrays and objects. *)
Definition json_nested_ind (P : json → Prop)
    (Hnull : P JNull) (Hbool : ∀ b, P (JBool b)) (Hnum : ∀ n, P (JNum n))
    (Hstr : ∀ s, P (JStr s))
    (Harr : ∀ l, Forall P l → P (JArr l))
    (Hobj : ∀ ms, Forall (fun kv => P kv.2) ms → P (JObj ms)) : ∀ v, P v :=
  fix go (v : json) : P v :=
    match v with
    | JNull => Hnull
    | JBool b => Hbool b
    | JNum n => Hnum n
    | JStr s => Hstr s
    | JArr l =>
        Harr l ((fix all (l : list json) : Forall P l :=
                   match l return Forall P l with
                   | [] => @List.Forall_nil _ P
                   | x :: r => @List.Forall_cons _ P x r (go x) (all r)
                   end) l)
    | JObj ms =>
        Hobj ms ((fix all (ms : list (string * json)) : Forall (fun kv => P kv.2) ms :=
                    match ms return Forall (fun kv => P kv.2) ms with
                    | [] => @List.Forall_nil _ (fun kv => P kv.2)
                    | kv :: r => @List.Forall_cons _ (fun kv => P kv.2) kv r (go kv.2) (all r)
                    end) ms)
    end.

(** No object has two members of the same name. *)
Fixpoint distinct_keys (v : json) : Prop :=
  match v with
  | JArr l => fold_right (fun x Q => distinct_keys x ∧ Q) True l
  | JObj ms => NoDup (map fst ms) ∧ fold_right (fun kv Q => distinct_keys kv.2 ∧ Q) True ms
  | _ => True
  end.

(** Fuel that is enough to read a value back. *)
Fixpoint cost (v : json) : nat :=
  match v with
  | JArr l => S (list_sum (map (fun x => S (cost x)) l))
  | JObj ms => S (list_sum (map (fun kv => S (cost kv.2)) ms))
  | _ => 1
  end.

(** White space only. *)
Fixpoint blank (s : string) : Prop :=
  match s with
  | EmptyString => True
  | String c r => is_json_ws c = true ∧ blank r
  end.

Lemma blank_app a b : blank a → blank b → blank (a +:+ b).
Proof.
  induction a as [|c a IH]; [done|]. rewrite append_cons. simpl.
  intros [Hc Ha] Hb. split; [done | by apply IH].
Qed.

Lemma skip_ws_blank b s : blank b → skip_ws (b +:+ s) = skip_ws s.
Proof.
  induction b as [|c b IH]; [done|]. rewrite append_cons. simpl.
  intros [-> Hb]. by apply IH.
Qed.

Lemma blank_newline : blank newline.
Proof. by split. Qed.

Lemma blank_inner indent : blank indent → blank (indent +:+ "  ").
Proof. intros H. apply blank_app; [done|]. by repeat split. Qed.

Lemma parse_value_blank fuel b s : blank b → parse_value fuel (b +:+ s) = parse_value fuel s.
Proof. intros Hb. destruct fuel; [done|]. simpl. by rewrite (skip_ws_blank _ _ Hb). Qed.

Lemma parse_items_blank fuel b s acc :
  blank b → parse_items fuel (b +:+ s) acc = parse_items fuel s acc.
Proof. intros Hb. destruct fuel; [done|]. simpl. by rewrite (parse_value_blank _ _ _ Hb). Qed.

Lemma parse_members_blank fuel b s acc :
  blank b → parse_members fuel (b +:+ s) acc = parse_members fuel s acc.
Proof. intros Hb. destruct fuel; [done|]. simpl. by rewrite (skip_ws_blank _ _ Hb). Qed.

(** The text of an array after its first item, and of an object after its
    first member, with what follows the value. *)
Fixpoint items_tail (inner indent : string) (xs : list json) (rest : string) : string :=
  match xs with
  | [] => newline +:+ indent +:+ "]" +:+ rest
  | y :: ys =>
      "," +:+ newline +:+ inner +:+ stringify_at inner y +:+ items_tail inner indent ys rest
  end.

Fixpoint members_tail (inner indent : string) (ms : list (string * json)) (rest : string)
  : string :=
  match ms with
  | [] => newline +:+ indent +:+ "}" +:+ rest
  | kv :: r =>
      "," +:+ newline +:+ inner +:+ quote kv.1 +:+ ": " +:+ stringify_at inner kv.2
      +:+ members_tail inner indent r rest
  end.

Lemma join_cons2 sep a b l : join sep (a :: b :: l) = a +:+ sep +:+ join sep (b :: l).
Proof. reflexivity. Qed.

Lemma join_items inner indent rest xs : ∀ x,
  join ("," +:+ newline) (map (fun y => inner +:+ stringify_at inner y) (x :: xs))
  +:+ newline +:+ indent +:+ "]" +:+ rest
  = inner +:+ stringify_at inner x +:+ items_tail inner indent xs rest.
Proof.
  induction xs as [|y ys IH]; intros x.
  - simpl. by rewrite string_app_assoc.
  - cbn [map]. rewrite join_cons2, !string_app_assoc.
    pose proof (IH y) as IHy. cbn [map] in IHy. rewrite IHy. reflexivity.
Qed.

Lemma join_members inner indent rest ms : ∀ kv,
  join ("," +:+ newline)
       (map (fun kv => inner +:+ quote kv.1 +:+ ": " +:+ stringify_at inner kv.2) (kv :: ms))
  +:+ newline +:+ indent +:+ "}" +:+ rest
  = inner +:+ quote kv.1 +:+ ": " +:+ stringify_at inner kv.2
    +:+ members_tail inner indent ms rest.
Proof.
  induction ms as [|y ys IH]; intros x.
  - simpl. by rewrite !string_app_assoc.
  - cbn [map]. rewrite join_cons2, !string_app_assoc.
    pose proof (IH y) as IHy. cbn [map] in IHy. rewrite IHy. reflexivity.
Qed.

Lemma stringify_array indent x xs rest :
  stringify_at indent (JArr (x :: xs)) +:+ rest
  = "[" +:+ newline +:+ (indent +:+ "  ") +:+ stringify_at (indent +:+ "  ") x
    +:+ items_tail (indent +:+ "  ") indent xs rest.
Proof.
  change (stringify_at indent (JArr (x :: xs)))
    with ("[" +:+ newline
          +:+ join ("," +:+ newline)
                (map (fun y => (indent +:+ "  ") +:+ stringify_at (indent +:+ "  ") y) (x :: xs))
          +:+ newline +:+ indent +:+ "]").
  rewrite !string_app_assoc. rewrite join_items. by rewrite !string_app_assoc.
Qed.

Lemma stringify_object indent kv ms rest :
  stringify_at indent (JObj (kv :: ms)) +:+ rest
  = "{" +:+ newline +:+ (indent +:+ "  ") +:+ quote kv.1 +:+ ": "
    +:+ stringify_at (indent +:+ "  ") kv.2
    +:+ members_tail (indent +:+ "  ") indent ms rest.
Proof.
  change (stringify_at indent (JObj (kv :: ms)))
    with ("{" +:+ newline
          +:+ join ("," +:+ newline)
                (map (fun kv => (indent +:+ "  ") +:+ quote kv.1 +:+ ": "
                                +:+ stringify_at (indent +:+ "  ") kv.2) (kv :: ms))
          +:+ newline +:+ indent +:+ "}").
  rewrite !string_app_assoc. rewrite join_members. by rewrite !string_app_assoc.
Qed.

Lemma skip_ws_start c r : is_json_ws c = false → skip_ws (String c r) = String c r.
Proof. intros H. simpl. by rewrite H. Qed.

Lemma starts_with_same c r : starts_with c (String c r) = Some r.
Proof. unfold starts_with. by rewrite Ascii.eqb_refl. Qed.

Lemma starts_with_other c d r : d ≠ c → starts_with c (String d r) = None.
Proof. intros H. unfold starts_with. by rewrite (proj2 (Ascii.eqb_neq _ _) H). Qed.

(** The first character of a printed value: no white space and no closing
    bracket or brace. *)
Definition value_start (s : string) : Prop :=
  ∃ c r, s = String c r ∧ is_json_ws c = false ∧ c ≠ "]"%char ∧ c ≠ "}"%char.

Lemma digit_value_start c r d : digit_val c = Some d → value_start (String c r).
Proof.
  intros H. exists c, r. split; [done|].
  destruct c as [[] [] [] [] [] [] [] []]; cbv in H; try discriminate H; by split_and!.
Qed.

Lemma stringify_start v indent rest : value_start (stringify_at indent v +:+ rest).
Proof.
  destruct v as [|[]|[|p|p]|t|[|x xs]|[|kv ms]].
  - by eexists _, _.
  - by eexists _, _.
  - by eexists _, _.
  - by eexists _, _.
  - simpl stringify_at. unfold string_of_Z. simpl Z.to_int. simpl NilZero.string_of_int.
    destruct (string_of_pos_digit p rest) as (c & r & d & -> & Hd).
    by eapply digit_value_start.
  - by eexists _, _.
  - simpl stringify_at. rewrite quote_app. by eexists _, _.
  - by eexists _, _.
  - rewrite stringify_array. by eexists _, _.
  - by eexists _, _.
  - rewrite stringify_object. by eexists _, _.
Qed.

Lemma value_start_skip s : value_start s → skip_ws s = s.
Proof. intros (c & r & -> & Hc & _). by apply skip_ws_start. Qed.

Lemma value_start_not_close_bracket s : value_start s → starts_with "]" s = None.
Proof. intros (c & r & -> & _ & Hc & _). by apply starts_with_other. Qed.

Lemma value_start_not_close_brace s : value_start s → starts_with "}" s = None.
Proof. intros (c & r & -> & _ & _ & Hc). by apply starts_with_other. Qed.

Lemma number_end_items_tail inner indent xs rest : number_end (items_tail inner indent xs rest).
Proof. destruct xs; by split. Qed.

Lemma number_end_members_tail inner indent ms rest :
  number_end (members_tail inner indent ms rest).
Proof. destruct ms; by split. Qed.

Lemma parse_value_open_bracket f r :
  parse_value (S f) (String "[" r)
  = match starts_with "]" (skip_ws r) with
    | Some r' => Some (JArr [], r')
    | None => parse_items f (skip_ws r) []
    end.
Proof. reflexivity. Qed.

Lemma parse_value_open_brace f r :
  parse_value (S f) (String "{" r)
  = match starts_with "}" (skip_ws r) with
    | Some r' => Some (JObj [], r')
    | None => parse_members f (skip_ws r) []
    end.
Proof. reflexivity. Qed.

Lemma parse_items_S f s acc :
  parse_items (S f) s acc
  = match parse_value f s with
    | Some (v, r) =>
        match starts_with "," (skip_ws r) with
        | Some r' => parse_items f r' (v :: acc)
        | None =>
            match starts_with "]" (skip_ws r) with
            | Some r' => Some (JArr (rev (v :: acc)), r')
            | None => None
            end
        end
    | None => None
    end.
Proof. reflexivity. Qed.

Lemma parse_members_S f s acc :
  parse_members (S f) s acc
  = match starts_with dquote (skip_ws s) with
    | Some r =>
        match parse_string_body r with
        | Some (k, r1) =>
            match starts_with ":" (skip_ws r1) with
            | Some r2 =>
                match parse_value f r2 with
                | Some (v, r3) =>
                    match starts_with "," (skip_ws r3) with
                    | Some r4 => parse_members f r4 (obj_set k v acc)
                    | None =>
                        match starts_with "}" (skip_ws r3) with
                        | Some r4 => Some (JObj (obj_set k v acc), r4)
                        | None => None
                        end
                    end
                | None => None
                end
            | None => None
            end
        | None => None
        end
    | None => None
    end.
Proof. reflexivity. Qed.

(** A value reads back, whatever the indentation and the fuel above its cost. *)
Definition reads_back (v : json) : Prop :=
  ∀ indent rest fuel,
    blank indent → number_end rest → (cost v ≤ fuel)%nat →
    parse_value fuel (stringify_at indent v +:+ rest) = Some (v, rest).

Definition items_cost (xs : list json) : nat := list_sum (map (fun x => S (cost x)) xs).

Definition members_cost (ms : list (string * json)) : nat :=
  list_sum (map (fun kv => S (cost kv.2)) ms).

Lemma parse_items_tail inner indent rest :
  blank inner → blank indent →
  ∀ xs x acc fuel,
    Forall reads_back (x :: xs) →
    (items_cost (x :: xs) ≤ fuel)%nat →
    parse_items fuel (stringify_at inner x +:+ items_tail inner indent xs rest) acc
    = Some (JArr (rev acc ++ x :: xs), rest).
Proof.
  intros Hinner Hindent. induction xs as [|y ys IH]; intros x acc fuel HF Hfuel.
  - apply Forall_cons in HF as [Hx _]. unfold items_cost in Hfuel. simpl in Hfuel.
    destruct fuel as [|f]; [lia|].
    rewrite parse_items_S, (Hx inner _ f Hinner (number_end_items_tail _ _ _ _)) by lia.
    cbn [items_tail].
    rewrite (skip_ws_blank _ _ blank_newline), (skip_ws_blank _ _ Hindent).
    rewrite append_cons, append_nil_l, skip_ws_start by done.
    rewrite starts_with_other by done. by rewrite starts_with_same.
  - apply Forall_cons in HF as [Hx HF]. unfold items_cost in Hfuel. simpl in Hfuel.
    destruct fuel as [|f]; [lia|].
    rewrite parse_items_S, (Hx inner _ f Hinner (number_end_items_tail _ _ _ _)) by lia.
    cbn [items_tail]. rewrite append_cons, append_nil_l, skip_ws_start by done.
    rewrite starts_with_same.
    rewrite (parse_items_blank _ _ _ _ blank_newline), (parse_items_blank _ _ _ _ Hinner).
    rewrite (IH y (x :: acc) f HF).
    + simpl. by rewrite <- app_assoc.
    + unfold items_cost. simpl. lia.
Qed.

Lemma obj_set_fresh k v acc : k ∉ map fst acc → obj_set k v acc = (acc ++ [(k, v)])%list.
Proof.
  induction acc as [|[k' v'] acc IH]; [done|]. simpl. intros Hk.
  apply not_elem_of_cons in Hk as [Hne Hk].
  rewrite (proj2 (String.eqb_neq _ _)) by done. by rewrite IH.
Qed.

Lemma parse_members_tail inner indent rest :
  blank inner → blank indent →
  ∀ ms kv acc fuel,
    Forall (fun kv => reads_back kv.2) (kv :: ms) →
    NoDup (map fst (acc ++ kv :: ms)) →
    (members_cost (kv :: ms) ≤ fuel)%nat →
    parse_members fuel
      (quote kv.1 +:+ ": " +:+ stringify_at inner kv.2 +:+ members_tail inner indent ms rest) acc
    = Some (JObj (acc ++ kv :: ms), rest).
Proof.
  intros Hinner Hindent. induction ms as [|y ys IH]; intros [k v] acc fuel HF Hnd Hfuel.
  - apply Forall_cons in HF as [Hx _]. unfold members_cost in Hfuel. simpl in Hfuel.
    cbn [fst snd] in *.
    destruct fuel as [|f]; [lia|].
    rewrite parse_members_S, quote_app, skip_ws_start, starts_with_same by done.
    rewrite parse_string_body_escape. rewrite append_cons, skip_ws_start, starts_with_same by done.
    rewrite (parse_value_blank f " ") by done.
    rewrite (Hx inner _ f Hinner (number_end_members_tail _ _ _ _)) by lia.
    cbn [members_tail].
    rewrite (skip_ws_blank _ _ blank_newline), (skip_ws_blank _ _ Hindent).
    rewrite append_cons, append_nil_l, skip_ws_start by done.
    rewrite starts_with_other by done. rewrite starts_with_same.
    rewrite obj_set_fresh; [done|].
    rewrite map_app in Hnd. apply NoDup_app in Hnd as (_ & Hnd & _).
    intros Hin. apply (Hnd k Hin). simpl. by left.
  - apply Forall_cons in HF as [Hx HF]. unfold members_cost in Hfuel. simpl in Hfuel.
    cbn [fst snd] in *.
    destruct fuel as [|f]; [lia|].
    rewrite parse_members_S, quote_app, skip_ws_start, starts_with_same by done.
    rewrite parse_string_body_escape. rewrite append_cons, skip_ws_start, starts_with_same by done.
    rewrite (parse_value_blank f " ") by done.
    rewrite (Hx inner _ f Hinner (number_end_members_tail _ _ _ _)) by lia.
    cbn [members_tail]. rewrite append_cons, append_nil_l, skip_ws_start by done.
    rewrite starts_with_same.
    rewrite (parse_members_blank _ _ _ _ blank_newline), (parse_members_blank _ _ _ _ Hinner).
    assert (k ∉ map fst acc) as Hfresh.
    { rewrite map_app in Hnd. apply NoDup_app in Hnd as (_ & Hnd & _).
      intros Hin. apply (Hnd k Hin). simpl. by left. }
    rewrite (obj_set_fresh _ _ _ Hfresh).
    rewrite (IH y (acc ++ [(k, v)])%list f HF).
    + by rewrite <- app_assoc.
    + by rewrite <- app_assoc.
    + unfold members_cost. simpl. lia.
Qed.

Lemma distinct_keys_items l :
  fold_right (fun x Q => distinct_keys x ∧ Q) True l → Forall distinct_keys l.
Proof. induction l as [|x l IH]; simpl; [constructor|]. intros [Hx Hl]. constructor; auto. Qed.

Lemma distinct_keys_members (ms : list (string * json)) :
  fold_right (fun kv Q => distinct_keys kv.2 ∧ Q) True ms →
  Forall (fun kv => distinct_keys kv.2) ms.
Proof. induction ms as [|x l IH]; simpl; [constructor|]. intros [Hx Hl]. constructor; auto. Qed.

Theorem parse_value_stringify v : distinct_keys v → reads_back v.
Proof.
  induction v as [|b|n|t|l IH|ms IH] using json_nested_ind;
    intros Hkeys indent rest fuel Hindent Hrest Hfuel;
    (destruct fuel as [|f]; [simpl in Hfuel; lia|]).
  - reflexivity.
  - by destruct b.
  - by apply parse_value_number.
  - by apply parse_value_string.
  - destruct l as [|x xs].
    + reflexivity.
    + rewrite stringify_array, append_cons, append_nil_l, parse_value_open_bracket.
      assert (blank (indent +:+ "  ")) as Hinner by (by apply blank_inner).
      rewrite (skip_ws_blank _ _ blank_newline), (skip_ws_blank _ _ Hinner).
      rewrite (value_start_skip _ (stringify_start _ _ _)).
      rewrite (value_start_not_close_bracket _ (stringify_start _ _ _)).
      apply (parse_items_tail _ _ _ Hinner Hindent xs x []).
      * apply (distinct_keys_items (x :: xs)) in Hkeys.
        rewrite Forall_forall in IH. rewrite Forall_forall in Hkeys.
        apply Forall_forall. intros y Hy. apply (IH y Hy). by apply Hkeys.
      * simpl in Hfuel. unfold items_cost. simpl. lia.
  - destruct ms as [|kv ms].
    + reflexivity.
    + rewrite stringify_object, append_cons, append_nil_l, parse_value_open_brace.
      assert (blank (indent +:+ "  ")) as Hinner by (by apply blank_inner).
      rewrite (skip_ws_blank _ _ blank_newline), (skip_ws_blank _ _ Hinner).
      rewrite quote_app, skip_ws_start by done.
      rewrite starts_with_other by done.
      rewrite <- quote_app.
      assert (NoDup (map fst (kv :: ms))
              ∧ Forall (fun kv => distinct_keys kv.2) (kv :: ms)) as [Hnd Hk].
      { destruct Hkeys as [H1 H2]. split; [exact H1|].
        by apply (distinct_keys_members (kv :: ms)). }
      clear Hkeys. rename Hk into Hkeys.
      apply (parse_members_tail _ _ _ Hinner Hindent ms kv []).
      * rewrite Forall_forall in IH. rewrite Forall_forall in Hkeys.
        apply Forall_forall. intros y Hy. apply (IH y Hy). by apply Hkeys.
      * exact Hnd.
      * simpl in Hfuel. unfold members_cost. simpl. lia.
Qed.

Lemma length_append (a b : string) :
  String.length (a +:+ b) = (String.length a + String.length b)%nat.
Proof. induction a as [|c a IH]; [done|]. rewrite append_cons. simpl. by rewrite IH. Qed.

Lemma append_nil_r (s : string) : s +:+ EmptyString = s.
Proof. induction s as [|c s IH]; [done|]. by rewrite append_cons, IH. Qed.

Lemma stringify_not_empty v indent : (1 ≤ String.length (stringify_at indent v))%nat.
Proof.
  destruct (stringify_start v indent EmptyString) as (c & r & H & _).
  rewrite append_nil_r in H. rewrite H. simpl. lia.
Qed.

Definition fits (v : json) : Prop :=
  ∀ indent, (cost v ≤ String.length (stringify_at indent v))%nat.

Lemma items_tail_length inner indent rest xs :
  Forall fits xs → (items_cost xs ≤ String.length (items_tail inner indent xs rest))%nat.
Proof.
  unfold items_cost. induction 1 as [|y ys Hy _ IH]; simpl; [lia|].
  rewrite !length_append. specialize (Hy inner). simpl. lia.
Qed.

Lemma members_tail_length inner indent rest ms :
  Forall (fun kv => fits kv.2) ms →
  (members_cost ms ≤ String.length (members_tail inner indent ms rest))%nat.
Proof.
  unfold members_cost. induction 1 as [|y ys Hy _ IH]; simpl; [lia|].
  rewrite !length_append. specialize (Hy inner). simpl. lia.
Qed.

Lemma cost_fits v : fits v.
Proof.
  induction v as [|b|n|t|l IH|ms IH] using json_nested_ind; intros indent;
    try apply stringify_not_empty.
  - destruct l as [|x xs]; [apply stringify_not_empty|].
    rewrite <- (append_nil_r (stringify_at indent (JArr (x :: xs)))), stringify_array.
    apply Forall_cons in IH as [Hx IH].
    pose proof (items_tail_length (indent +:+ "  ") indent EmptyString xs IH) as Ht.
    specialize (Hx (indent +:+ "  ")).
    rewrite !length_append. unfold items_cost in Ht. simpl. lia.
  - destruct ms as [|kv ms]; [apply stringify_not_empty|].
    rewrite <- (append_nil_r (stringify_at indent (JObj (kv :: ms)))), stringify_object.
    apply Forall_cons in IH as [Hx IH].
    pose proof (members_tail_length (indent +:+ "  ") indent EmptyString ms IH) as Ht.
    specialize (Hx (indent +:+ "  ")).
    rewrite !length_append. unfold members_cost in Ht. simpl. lia.
Qed.

(** [JSON.parse(JSON.stringify(v, null, 2))] is [v]. *)
Theorem JSON_parse_stringify v : distinct_keys v → JSON_parse (JSON_stringify v) = Some v.
Proof.
  intros Hkeys. unfold JSON_parse, JSON_stringify.
  pose proof (parse_value_stringify v Hkeys EmptyString EmptyString
                (2 * String.length (stringify_at EmptyString v) + 2)%nat) as H.
  rewrite append_nil_r in H. rewrite H; [done..|].
  pose proof (cost_fits v EmptyString). lia.
Qed.

End JsonText.

(** *** Plans as JSON: decoding what was encoded *)

Section Codec.

Lemma StepStatus_of_name_name s : StepStatus_of_name (StepStatus_name s) = Some s.
Proof. by destruct s. Qed.

Lemma PlanStatus_of_name_name s : PlanStatus_of_name (PlanStatus_name s) = Some s.
Proof. by destruct s. Qed.

Lemma SecurityMode_of_name_name s : SecurityMode_of_name (SecurityMode_name s) = Some s.
Proof. by destruct s. Qed.

Lemma as_strings_to_json l : mapM as_string (map JStr l) = Some l.
Proof. induction l as [|x l IH]; [done|]. simpl. by rewrite IH. Qed.

Lemma ToolsConfig_of_to_json t : ToolsConfig_of_json (ToolsConfig_to_json t) = Some t.
Proof.
  destruct t as [[e|] [m|] [c|]]; unfold ToolsConfig_of_json, ToolsConfig_to_json, optional;
    simpl; rewrite ?as_strings_to_json, ?SecurityMode_of_name_name; done.
Qed.

Lemma PlanConfiguration_of_to_json c :
  PlanConfiguration_of_json (PlanConfiguration_to_json c) = Some c.
Proof.
  destruct c as [[m|] [p|] [t|]];
    unfold PlanConfiguration_of_json, PlanConfiguration_to_json, optional;
    simpl; rewrite ?ToolsConfig_of_to_json; done.
Qed.

Lemma ExecutionStep_of_to_json s : ExecutionStep_of_json (ExecutionStep_to_json s) = Some s.
Proof.
  destruct s as [i d [c|] [f|] [e|] [st|]];
    unfold ExecutionStep_of_json, ExecutionStep_to_json, required, optional;
    simpl; rewrite ?as_strings_to_json, ?StepStatus_of_name_name; done.
Qed.

Lemma as_steps_to_json l :
  mapM ExecutionStep_of_json (map ExecutionStep_to_json l) = Some l.
Proof.
  induction l as [|x l IH]; [done|].
  simpl. rewrite ExecutionStep_of_to_json. simpl. by rewrite IH.
Qed.

Lemma ExecutionPlan_of_to_json p : ExecutionPlan_of_json (ExecutionPlan_to_json p) = Some p.
Proof.
  destruct p as [i t d s c m st [o|] [cfg|]];
    unfold ExecutionPlan_of_json, ExecutionPlan_to_json, required, optional;
    simpl; rewrite ?as_steps_to_json, ?PlanStatus_of_name_name, ?PlanConfiguration_of_to_json;
    simpl; rewrite ?PlanStatus_of_name_name; done.
Qed.

End Codec.

(** *** Running a bind *)

Lemma bind_eq {A B} (m : M A) (k : A → M B) (w : world) :
  bind m k w
  = match m w with
    | (Ok a, w') => k a w'
    | (Throw e, w') => (Throw e, w')
    | (Untyped, w') => (Untyped, w')
    end.
Proof. reflexivity. Qed.

Lemma bind_ok {A B} (m : M A) (k : A → M B) (w w' : world) (a : A) :
  m w = (Ok a, w') → bind m k w = k a w'.
Proof. intros H. by rewrite bind_eq, H. Qed.

Lemma validateProjectPath_total projectPath w :
  ∃ v, validateProjectPath projectPath w = (Ok v, w).
Proof.
  unfold validateProjectPath. rewrite !bind_eq. unfold process_cwd, get_world.
  rewrite !bind_eq. simpl.
  destruct (path_resolve (cwd w) projectPath) as [|c rest]; [by eexists|].
  destruct (fs w !! (c :: rest)) as [[|content]|]; by eexists.
Qed.

(** *** The file system *)

Section FileSystem.

Implicit Types (p q : path) (m : gmap path node).

Lemma ancestors_and_self_spec p q :
  q ∈ ancestors_and_self p ↔ q ≠ [] ∧ q `prefix_of` p.
Proof.
  revert q. induction p as [|c r IH]; intros q; simpl.
  - split.
    + intros H. inversion H.
    + intros [Hne Hp]. apply prefix_nil_inv in Hp. contradiction.
  - rewrite elem_of_cons, list_elem_of_fmap. split.
    + intros [-> | (q' & -> & Hq')].
      * split; [discriminate|]. by apply prefix_cons, prefix_nil.
      * apply IH in Hq' as [_ Hp]. split; [discriminate|]. by apply prefix_cons.
    + intros [Hne Hp]. destruct q as [|d q']; [contradiction|].
      apply prefix_cons_inv_1 in Hp as Hd. subst d.
      apply prefix_cons_inv_2 in Hp.
      destruct q' as [|e q''].
      * by left.
      * right. exists (e :: q''). split; [done|]. apply IH. split; [discriminate | done].
Qed.

(** The map after [mkdir -p]. *)
Definition mkdirs p m : gmap path node :=
  foldl (fun acc q => <[q := Dir]> acc) m (ancestors_and_self p).

Lemma foldl_insert_Dir_lookup (l : list path) m q :
  foldl (fun acc r => <[r := Dir]> acc) m l !! q
  = if bool_decide (q ∈ l) then Some Dir else m !! q.
Proof.
  revert m. induction l as [|a l IH]; intros m; simpl.
  - done.
  - rewrite IH. case_bool_decide as H1; case_bool_decide as H2; try done.
    + exfalso. apply H2. by right.
    + apply elem_of_cons in H2 as [-> | ?]; [|contradiction]. by rewrite lookup_insert_eq.
    + rewrite lookup_insert_ne; [done|]. intros ->. apply H2. by left.
Qed.

Lemma mkdirs_lookup p m q :
  mkdirs p m !! q = if bool_decide (q ≠ [] ∧ q `prefix_of` p) then Some Dir else m !! q.
Proof.
  unfold mkdirs. rewrite foldl_insert_Dir_lookup.
  pose proof (ancestors_and_self_spec p q) as H.
  repeat case_bool_decide; tauto.
Qed.

(** Nothing but directories on the way to [p]: [mkdir -p p] succeeds. *)
Definition no_file_on p m : Prop :=
  ∀ q, q ≠ [] → q `prefix_of` p → is_file (m !! q) = false.

Lemma no_file_on_existsb p m :
  no_file_on p m → existsb (fun q => is_file (m !! q)) (ancestors_and_self p) = false.
Proof.
  intros H. apply not_true_is_false. intros Hex.
  apply existsb_exists in Hex as (q & Hin & Hq).
  apply list_elem_of_In, ancestors_and_self_spec in Hin as [Hne Hp].
  rewrite (H q Hne Hp) in Hq. discriminate.
Qed.

Lemma existsb_no_file_on p m :
  existsb (fun q => is_file (m !! q)) (ancestors_and_self p) = false → no_file_on p m.
Proof.
  intros H q Hne Hp. apply not_true_is_false. intros Hq.
  assert (existsb (fun q => is_file (m !! q)) (ancestors_and_self p) = true) as Hex.
  { apply existsb_exists. exists q. split; [|done].
    apply list_elem_of_In, ancestors_and_self_spec. done. }
  congruence.
Qed.

Lemma no_file_on_prefix p p' m : p' `prefix_of` p → no_file_on p m → no_file_on p' m.
Proof. intros Hpp H q Hne Hq. apply H; [done|]. by etrans. Qed.

Lemma fs_mkdir_ok p w :
  no_file_on p (fs w) → fs_mkdir p w = (Ok tt, with_fs (mkdirs p (fs w)) w).
Proof. intros H. unfold fs_mkdir. by rewrite (no_file_on_existsb _ _ H). Qed.

Lemma removelast_path_join p c : removelast (path_join p c) = p.
Proof. unfold path_join. apply removelast_last. Qed.

Lemma path_join_not_nil p c : path_join p c ≠ [].
Proof. unfold path_join. destruct p; discriminate. Qed.

Lemma fs_writeFile_ok p c content w :
  is_dir (fs w !! p) = true →
  is_dir (fs w !! path_join p c) = false →
  fs_writeFile (path_join p c) content w
  = (Ok tt, with_fs (<[path_join p c := File content]> (fs w)) w).
Proof.
  intros Hp Hc. unfold fs_writeFile. cbv zeta. rewrite removelast_path_join, Hc.
  assert (match p with [] => true | _ :: _ => is_dir (fs w !! p) end = true) as ->
    by (destruct p; done).
  done.
Qed.

Lemma path_join_not_prefix p c : ¬ path_join p c `prefix_of` p.
Proof.
  intros H. apply prefix_length in H. unfold path_join in H.
  rewrite length_app in H. simpl in H. lia.
Qed.

End FileSystem.

(** *** The plan store *)

Section PlanStore.

Implicit Types (wd p q : path) (m : gmap path node) (w : world) (plan : ExecutionPlan).

(** The plans directory can be made and holds no directory where a plan
    file goes. *)
Definition plans_ready wd m : Prop :=
  no_file_on (plansDirectory wd) m
  ∧ ∀ c, is_dir (m !! path_join (plansDirectory wd) c) = false.

(** The file of plan [planId] holds exactly the text of [plan]. *)
Definition stored wd (planId : string) plan m : Prop :=
  m !! planPath (plansDirectory wd) planId
  = Some (File (JSON_stringify (ExecutionPlan_to_json plan))).

(** The same, as a test that runs on a given map. *)
Definition plans_ready_b wd m : bool :=
  negb (existsb (fun q => is_file (m !! q)) (ancestors_and_self (plansDirectory wd)))
  && forallb (fun e => negb (is_dir (Some e.2)
                             && bool_decide (removelast e.1 = plansDirectory wd ∧ e.1 ≠ [])))
             (map_to_list m).

Lemma plans_ready_b_true wd m : plans_ready_b wd m = true → plans_ready wd m.
Proof.
  unfold plans_ready_b. intros [Hf Hd]%andb_prop. split.
  - apply existsb_no_file_on. by apply negb_true_iff.
  - intros c. destruct (m !! path_join (plansDirectory wd) c) as [[|content]|] eqn:E; try done.
    exfalso. apply elem_of_map_to_list, list_elem_of_In in E.
    rewrite forallb_forall in Hd. specialize (Hd _ E). simpl in Hd.
    rewrite bool_decide_eq_true_2 in Hd; [discriminate|].
    split; [apply removelast_path_join | apply path_join_not_nil].
Qed.

Lemma plans_ready_mkdirs wd p m :
  p `prefix_of` plansDirectory wd → plans_ready wd m → plans_ready wd (mkdirs p m).
Proof.
  intros Hp [Hf Hd]. split.
  - intros q Hne Hq. rewrite mkdirs_lookup. case_bool_decide; [done|]. by apply Hf.
  - intros c. rewrite mkdirs_lookup. case_bool_decide as H; [|apply Hd].
    destruct H as [_ H]. exfalso.
    apply (path_join_not_prefix (plansDirectory wd) c). by etrans.
Qed.

Lemma plans_ready_insert_file wd q content m :
  ¬ q `prefix_of` plansDirectory wd →
  plans_ready wd m → plans_ready wd (<[q := File content]> m).
Proof.
  intros Hq [Hf Hd]. split.
  - intros r Hne Hr. rewrite lookup_insert_ne; [by apply Hf|]. by intros ->.
  - intros c. destruct (decide (q = path_join (plansDirectory wd) c)) as [->|Hne].
    + by rewrite lookup_insert_eq.
    + rewrite lookup_insert_ne; [apply Hd | done].
Qed.

Lemma plans_ready_filter wd (P : path * node → Prop) `{!∀ x, Decision (P x)} m :
  plans_ready wd m → plans_ready wd (filter P m).
Proof.
  intros [Hf Hd].
  assert (∀ q, filter P m !! q = None ∨ filter P m !! q = m !! q) as Hl.
  { intros q. destruct (filter P m !! q) as [x|] eqn:E; [right | by left].
    apply map_lookup_filter_Some in E as [E _]. by rewrite E. }
  split.
  - intros q Hne Hq. destruct (Hl q) as [-> | ->]; [done | by apply Hf].
  - intros c. destruct (Hl (path_join (plansDirectory wd) c)) as [-> | ->]; [done | apply Hd].
Qed.

Lemma plansDirectory_not_nil wd : plansDirectory wd ≠ [].
Proof. apply path_join_not_nil. Qed.

(** [savePlan] succeeds on a ready store and writes one file. *)
Definition saved wd plan m : gmap path node :=
  <[planPath (plansDirectory wd) (id plan) := File (JSON_stringify (ExecutionPlan_to_json plan))]>
    (mkdirs (plansDirectory wd) m).

Lemma savePlan_ok plan wd w :
  plans_ready wd (fs w) →
  savePlan plan wd w = (Ok tt, with_fs (saved wd plan (fs w)) w).
Proof.
  intros [Hf Hd]. unfold savePlan, ensurePlansDirectory, bind, try_catch, ret.
  rewrite (fs_mkdir_ok _ _ Hf). unfold planPath.
  rewrite fs_writeFile_ok.
  - done.
  - simpl. rewrite mkdirs_lookup, bool_decide_eq_true_2; [done|].
    split; [apply plansDirectory_not_nil | done].
  - simpl. rewrite mkdirs_lookup. case_bool_decide as H; [|apply Hd].
    destruct H as [_ H]. by apply path_join_not_prefix in H.
Qed.

Lemma plans_ready_saved wd plan m : plans_ready wd m → plans_ready wd (saved wd plan m).
Proof.
  intros H. unfold saved. apply plans_ready_insert_file.
  - apply path_join_not_prefix.
  - by apply plans_ready_mkdirs.
Qed.

Lemma stored_saved wd plan m : stored wd (id plan) plan (saved wd plan m).
Proof. unfold stored, saved. apply lookup_insert_eq. Qed.

(** [loadPlan] reads and never writes. *)
Lemma loadPlan_world planId wd w : (loadPlan planId wd w).2 = w.
Proof.
  unfold loadPlan, try_catch, bind, fs_readFile, lift, JSON_parse_or_throw, ret, throw, untyped.
  repeat (case_match; simplify_eq/=; try done).
Qed.

End PlanStore.

(** *** Saving and loading a plan *)

Section RoundTrip.

Ltac distinct := refine (bool_decide_unpack _ _); vm_compute; exact I.

Lemma distinct_keys_strings l : distinct_keys (strings_to_json l).
Proof. unfold strings_to_json. induction l as [|x l IH]; simpl; [done | by split]. Qed.

Lemma distinct_keys_tools t : distinct_keys (ToolsConfig_to_json t).
Proof.
  destruct t as [[e|] [m|] [c|]]; (split; [distinct|]); simpl;
    split_and?; try done; apply (distinct_keys_strings e).
Qed.

Lemma distinct_keys_configuration c : distinct_keys (PlanConfiguration_to_json c).
Proof.
  destruct c as [[m|] [p|] [t|]]; (split; [distinct|]); simpl;
    split_and?; try done; apply distinct_keys_tools.
Qed.

Lemma distinct_keys_step s : distinct_keys (ExecutionStep_to_json s).
Proof.
  destruct s as [i d [c|] [f|] [e|] [st|]]; (split; [distinct|]); simpl;
    split_and?; try done; apply (distinct_keys_strings f).
Qed.

Lemma distinct_keys_steps l :
  fold_right (fun x Q => distinct_keys x ∧ Q) True (map ExecutionStep_to_json l).
Proof.
  induction l as [|s l IH]; simpl; [done|]. split; [apply distinct_keys_step | exact IH].
Qed.

Lemma distinct_keys_plan p : distinct_keys (ExecutionPlan_to_json p).
Proof.
  destruct p as [i t d s c m st [o|] [cfg|]]; (split; [distinct|]); simpl;
    split_and?; try done;
    try apply distinct_keys_steps; apply distinct_keys_configuration.
Qed.

(** The text of a plan reads back as the plan. *)
Lemma plan_text_reads_back plan :
  JSON_parse (JSON_stringify (ExecutionPlan_to_json plan)) = Some (ExecutionPlan_to_json plan)
  ∧ ExecutionPlan_of_json (ExecutionPlan_to_json plan) = Some plan.
Proof.
  split; [apply JSON_parse_stringify, distinct_keys_plan | apply ExecutionPlan_of_to_json].
Qed.

Lemma loadPlan_stored planId wd plan w :
  stored wd planId plan (fs w) → loadPlan planId wd w = (Ok (Some plan), w).
Proof.
  intros Hstored. unfold stored in Hstored.
  destruct (plan_text_reads_back plan) as [Htext Hplan].
  unfold loadPlan, try_catch. rewrite bind_eq. unfold fs_readFile. rewrite Hstored.
  rewrite bind_eq. unfold lift, JSON_parse_or_throw. rewrite Htext.
  unfold ExecutionPlan_to_json at 1. rewrite Hplan. done.
Qed.

Lemma loadPlan_absent planId wd w :
  fs w !! planPath (plansDirectory wd) planId = None →
  no_file_on (plansDirectory wd) (fs w) →
  loadPlan planId wd w = (Ok None, w).
Proof.
  intros Hnone Hdirs.
  unfold loadPlan, try_catch. rewrite bind_eq. unfold fs_readFile. rewrite Hnone.
  unfold planPath. rewrite removelast_path_join, (no_file_on_existsb _ _ Hdirs).
  reflexivity.
Qed.

End RoundTrip.

(** *** Worlds and plans used by the examples *)

Module Sample.

Definition tools : ToolsConfig :=
  {| enabledTools := None; securityMode := Some safe; checkpointing := Some false |}.

Definition options : Options :=
  {| cwd_option := None; apiKey := None; useVertexAI := None;
     model := Some "gemini-2.5-pro"; systemPrompt := None; timeout := Some 300;
     debug := Some false; toolsConfig := Some tools; mcpServers := None |}.

Definition step (n : string) (st : StepStatus) : ExecutionStep :=
  {| step_id := "step_" +:+ n; step_description := "Do part " +:+ n; command := None;
     files := None; estimated_duration := Some 300; step_status := Some st |}.

Definition plan (st : PlanStatus) (steps : list ExecutionStep) : ExecutionPlan :=
  {| id := "plan_1"; title := "Add validation"; description := "Validate the signup form";
     steps := steps; created_at := 1700000000000; modified_at := 1700000000000;
     status := st; original_prompt := Some "Add input validation to the signup form";
     configuration := None |}.

(** A child that prints [reply] and exits with [exit_code] after a second. *)
Definition says (reply : string) (exit_code : Z) : process :=
  Exits [{| from := Stdout; text := reply; at_ms := 10 |}] (Some exit_code) 1000.

(** A project directory [/proj] that holds the plans [plans]. *)
Definition world_with (plans : list ExecutionPlan) (children : nat → list string → process) : world :=
  {| fs := foldr (fun p m => saved ["proj"] p m) {[ ["proj"] := Dir ]} plans;
     now := 1700000005000;
     cwd := ["proj"];
     toISOString := fun _ => "2023-11-14T22:13:20.000Z";
     random36 := "0.k3j9x2abc";
     gemini := children;
     spawned := [];
     gemini_version := Some "0.1.0" |}.

End Sample.

(** *** Guards of [executePlan] *)

Definition wd_of (options : Options) (w : world) : path :=
  match cwd_option options with
  | Some d => d
  | None => cwd w
  end.

Lemma workingDirectory_of_eq options w :
  workingDirectory_of options w = (Ok (wd_of options w), w).
Proof. unfold workingDirectory_of, wd_of. by destruct (cwd_option options). Qed.

Lemma loadPlan_eta planId wd w : loadPlan planId wd w = ((loadPlan planId wd w).1, w).
Proof. rewrite <- (loadPlan_world planId wd w) at 3. by destruct (loadPlan planId wd w). Qed.

Definition not_found_message (planId : string) : string :=
  "Plan with ID " +:+ planId +:+ " not found".

Definition not_approved_message (st : PlanStatus) : string :=
  "Plan must be approved before execution. Current status: " +:+ PlanStatus_name st.

(** C5: [executePlan] on a plan id whose stored plan is missing or is not
    in status [approved] throws a caller error, and the world it leaves is the
    world it found: nothing was spawned, nothing was written.  The two
    errors differ. *)
Theorem executePlan_rejected_untouched planId options w loaded :
  (loadPlan planId (wd_of options w) w).1 = Ok loaded →
  (∀ plan, loaded = Some plan → status plan ≠ approved) →
  executePlan planId options w
  = (Throw (ApplicationError
              match loaded with
              | Some plan => not_approved_message (status plan)
              | None => not_found_message planId
              end), w)
  ∧ ∀ st, not_approved_message st ≠ not_found_message planId.
Proof.
  intros Hload Hst. split.
  - unfold executePlan, bind. rewrite workingDirectory_of_eq, loadPlan_eta, Hload.
    destruct loaded as [plan|]; [|done].
    rewrite bool_decide_eq_false_2; [done|]. by apply Hst.
  - intros st. unfold not_approved_message, not_found_message. simpl. discriminate.
Qed.

Lemma executePlan_rejected_untouched_witness :
  let w := Sample.world_with [Sample.plan draft [Sample.step "1" pending]] (fun _ _ => FailsToStart "none") in
  executePlan "plan_1" Sample.options w
  = (Throw (ApplicationError "Plan must be approved before execution. Current status: draft"), w)
  ∧ executePlan "plan_2" Sample.options w
    = (Throw (ApplicationError "Plan with ID plan_2 not found"), w).
Proof.
  intros w. split.
  - refine (proj1 (executePlan_rejected_untouched "plan_1" Sample.options w
             (Some (Sample.plan draft [Sample.step "1" pending])) _ _)).
    + vm_compute. reflexivity.
    + intros plan [= <-]. discriminate.
  - refine (proj1 (executePlan_rejected_untouched "plan_2" Sample.options w None _ _)).
    + vm_compute. reflexivity.
    + intros plan [=].
Defined.

(** *** approve_plan *)

Module Approve.

Definition parameters (planId : string) : Parameters :=
  {| operation := "approve_plan"; parameter_model := "gemini-2.5-pro";
     parameter_timeout := 300; projectPath := EmptyString;
     additionalOptions := {| additional_apiKey := None; additional_useVertexAI := None;
                             additional_systemPrompt := None; additional_debug := Some false |};
     parameter_toolsConfig := Some Sample.tools; parameter_mcpServers := None;
     parameter_prompt := EmptyString; parameter_planId := planId;
     editInstructions := EmptyString |}.

Definition finished_plan : ExecutionPlan :=
  Sample.plan completed [Sample.step "1" step_completed].

Definition world : world :=
  Sample.world_with [finished_plan] (fun _ _ => FailsToStart "none").

End Approve.

(** C1, as stated, fails: a plan whose stored status is [completed] is
    approved without complaint, and its file now says [approved]. *)
Lemma approve_accepts_completed_plan :
  (loadPlan "plan_1" ["proj"] Approve.world).1 = Ok (Some Approve.finished_plan)
  ∧ (execute_item (Approve.parameters "plan_1") Approve.world).1
    = Ok (Plan (set_status approved 1700000005000 Approve.finished_plan))
  ∧ (loadPlan "plan_1" ["proj"] (execute_item (Approve.parameters "plan_1") Approve.world).2).1
    = Ok (Some (set_status approved 1700000005000 Approve.finished_plan)).
Proof. vm_compute. repeat split; reflexivity. Qed.

(** C1, amended: [approve_plan] looks at no status.  On a ready store it
    turns every stored plan, whatever its status, into the same plan with
    status [approved] and a new [modified_at], and writes it back under the
    plan's id; only a missing plan is rejected, and then the world is left
    as it was found. *)
Theorem approve_plan_any_status p prompt planId instructions resolved w loaded :
  operation p = "approve_plan" →
  (loadPlan planId (wd_of (operationOptions p resolved) w) w).1 = Ok loaded →
  plans_ready (wd_of (operationOptions p resolved) w) (fs w) →
  run_operation p prompt planId instructions resolved w
  = match loaded with
    | Some plan =>
        (Ok (Plan (set_status approved (now w) plan)),
         with_fs (saved (wd_of (operationOptions p resolved) w)
                        (set_status approved (now w) plan) (fs w)) w)
    | None => (Throw (NodeOperationError (not_found_message planId)), w)
    end
  ∧ ∀ plan, loaded = Some plan →
      status (set_status approved (now w) plan) = approved
      ∧ steps (set_status approved (now w) plan) = steps plan
      ∧ loadPlan (id plan) (wd_of (operationOptions p resolved) w)
                 (with_fs (saved (wd_of (operationOptions p resolved) w)
                                 (set_status approved (now w) plan) (fs w)) w)
        = (Ok (Some (set_status approved (now w) plan)),
           with_fs (saved (wd_of (operationOptions p resolved) w)
                          (set_status approved (now w) plan) (fs w)) w).
Proof.
  intros Hop Hload Hready. split.
  - unfold run_operation. rewrite Hop. simpl. unfold bind at 1.
    rewrite workingDirectory_of_eq. unfold bind at 1. rewrite loadPlan_eta, Hload.
    destruct loaded as [plan|]; [|done].
    unfold bind, Date_now, ret. by rewrite savePlan_ok.
  - intros plan _. repeat split. apply loadPlan_stored.
    apply (stored_saved _ (set_status approved (now w) plan)).
Qed.

Lemma approve_plan_any_status_witness :
  run_operation (Approve.parameters "plan_1") EmptyString "plan_1" EmptyString None Approve.world
  = (Ok (Plan (set_status approved 1700000005000 Approve.finished_plan)),
     with_fs (saved ["proj"] (set_status approved 1700000005000 Approve.finished_plan)
                    (fs Approve.world)) Approve.world).
Proof.
  refine (proj1 (approve_plan_any_status (Approve.parameters "plan_1") EmptyString "plan_1"
                   EmptyString None Approve.world (Some Approve.finished_plan) _ _ _)).
  - reflexivity.
  - vm_compute. reflexivity.
  - apply plans_ready_b_true. vm_compute. reflexivity.
Defined.

(** *** What one run of the agent leaves behind *)

Section RunGeminiCLI.

Implicit Types (wd p q : path) (m : gmap path node) (w : world).

(** [w'] is [w] after some file operations that respect the plan store of
    [wd], some time, and some spawned children. *)
Record evolves wd (w w' : world) : Prop := {
  evolves_cwd : cwd w' = cwd w;
  evolves_gemini : gemini w' = gemini w;
  evolves_ready : plans_ready wd (fs w) → plans_ready wd (fs w');
  evolves_spawned : ∃ l, spawned w' = (spawned w ++ l)%list;
}.

Lemma evolves_refl wd w : evolves wd w w.
Proof. split; try done. exists []. by rewrite app_nil_r. Qed.

Lemma evolves_trans wd w1 w2 w3 : evolves wd w1 w2 → evolves wd w2 w3 → evolves wd w1 w3.
Proof.
  intros [c1 g1 r1 [l1 s1]] [c2 g2 r2 [l2 s2]]. split.
  - congruence.
  - congruence.
  - auto.
  - exists (l1 ++ l2)%list. by rewrite s2, s1, app_assoc.
Qed.

Lemma evolves_with_fs wd w m :
  (plans_ready wd (fs w) → plans_ready wd m) → evolves wd w (with_fs m w).
Proof. intros H. split; simpl; try done. exists []. by rewrite app_nil_r. Qed.

Lemma evolves_with_now wd w t : evolves wd w (with_now t w).
Proof. split; simpl; try done. exists []. by rewrite app_nil_r. Qed.

Lemma evolves_with_spawned wd w l : evolves wd w (with_spawned (spawned w ++ l)%list w).
Proof. split; simpl; try done. by exists l. Qed.

Definition configDirectory wd : path := path_join wd ".gemini".

Lemma configDirectory_prefix wd : configDirectory wd `prefix_of` plansDirectory wd.
Proof. unfold plansDirectory, configDirectory, path_join. by apply prefix_app_r. Qed.

Lemma settingsPath_not_prefix wd :
  ¬ path_join (configDirectory wd) "settings.json" `prefix_of` plansDirectory wd.
Proof.
  unfold plansDirectory, configDirectory, path_join. intros [k Hk].
  rewrite <- !app_assoc in Hk. apply app_inv_head in Hk. simpl in Hk. discriminate.
Qed.

Lemma cleanupGeminiConfig_eq p w :
  cleanupGeminiConfig p w = (Ok tt, with_fs (filter (fun e => ¬ p `prefix_of` e.1) (fs w)) w).
Proof. done. Qed.

Lemma removed_lookup p m q :
  p `prefix_of` q → filter (fun e : path * node => ¬ p `prefix_of` e.1) m !! q = None.
Proof.
  intros Hp. apply map_lookup_filter_None. right. intros x _ Hx. by apply Hx.
Qed.

(** [createGeminiConfig]: its three ways to end. *)
Lemma createGeminiConfig_cases servers wd w :
  (∃ e, createGeminiConfig servers wd w = (Throw e, w))
  ∨ (∃ e, createGeminiConfig servers wd w
          = (Throw e, with_fs (mkdirs (configDirectory wd) (fs w)) w))
  ∨ (∃ content,
       createGeminiConfig servers wd w
       = (Ok {| configDir := configDirectory wd;
                settingsPath := path_join (configDirectory wd) "settings.json" |},
          with_fs (<[path_join (configDirectory wd) "settings.json" := File content]>
                     (mkdirs (configDirectory wd) (fs w))) w)).
Proof.
  unfold createGeminiConfig, bind, try_catch, throw, ret, fs_mkdir.
  fold (configDirectory wd).
  destruct (existsb _ _); [left; eauto|].
  unfold fs_writeFile. cbv zeta. simpl fs.
  destruct (negb _); [right; left; eauto|].
  destruct (is_dir _); [right; left; eauto|].
  right; right. eauto.
Qed.

Lemma createGeminiConfig_evolves servers wd w r w' :
  createGeminiConfig servers wd w = (r, w') → evolves wd w w' ∧ r ≠ Untyped.
Proof.
  intros H.
  destruct (createGeminiConfig_cases servers wd w) as [[e He] | [[e He] | [c He]]];
    rewrite He in H; simplify_eq; (split; [|done]).
  - apply evolves_refl.
  - apply evolves_with_fs. apply plans_ready_mkdirs, configDirectory_prefix.
  - apply evolves_with_fs. intros Hr. apply plans_ready_insert_file.
    + apply settingsPath_not_prefix.
    + by apply plans_ready_mkdirs; [apply configDirectory_prefix|].
Qed.

(** After the configuration step: spawn, wait, clean up. *)
Definition after_config (prompt : string) (options : Options) (startTime : Z)
    (configDir : option path) : M GeminiResponse :=
  let args := command_args prompt options in
  let! geminiProcess := spawn args in
  let cleanup :=
    match configDir with
    | Some d => cleanupGeminiConfig d
    | None => ret tt
    end in
  match geminiProcess with
  | FailsToStart reason =>
      cleanup ;;
      throw (ApplicationError ("Failed to start Gemini CLI: " +:+ reason))
  | Exits output exit_code after_ms =>
      if timeout_seconds options * 1000 <=? after_ms then
        elapse (timeout_seconds options * 1000) ;;
        cleanup ;;
        throw (ApplicationError ("Gemini CLI timed out after "
                                 +:+ string_of_Z (timeout_seconds options) +:+ " seconds"))
      else
        elapse after_ms ;;
        let! endTime := Date_now in
        let duration := endTime - startTime in
        cleanup ;;
        let messages :=
          {| type := user; content := finalPrompt prompt options; timestamp := startTime |}
          :: map (message_of_chunk startTime) output in
        ret {| messages := messages;
               result_text := trim (fullResponse output);
               success := bool_decide (exit_code = Some 0);
               duration_ms := duration;
               error := if bool_decide (exit_code = Some 0) then None
                        else Some ("Gemini CLI exited with code " +:+ exit_code_string exit_code) |}
  end.

Lemma runGeminiCLI_unfold prompt options w :
  runGeminiCLI prompt options w
  = match mcpServers options with
    | Some (_ :: _) =>
        match createGeminiConfig (mcpServers options) (wd_of options w) w with
        | (Ok c, w1) => after_config prompt options (now w) (Some (configDir c)) w1
        | (Throw e, w1) => (Throw e, w1)
        | (Untyped, w1) => (Untyped, w1)
        end
    | _ => after_config prompt options (now w) None w
    end.
Proof.
  unfold runGeminiCLI, bind at 1, Date_now. unfold bind at 1.
  rewrite workingDirectory_of_eq. unfold bind at 1.
  destruct (mcpServers options) as [[|s l]|]; try done.
  unfold bind at 1. destruct (createGeminiConfig _ _ _) as [[c| |] w1]; done.
Qed.

(** The run after a successful configuration step always spawns exactly
    one child and ends with the configuration directory removed. *)
Lemma after_config_spec wd prompt options startTime configDir w :
  (configDir = None ∨ configDir = Some (configDirectory wd)) →
  ∃ r w', after_config prompt options startTime configDir w = (r, w')
    ∧ r ≠ Untyped
    ∧ evolves wd w w'
    ∧ spawned w' = (spawned w ++ [command_args prompt options])%list
    ∧ (configDir = Some (configDirectory wd) →
       ∀ q, configDirectory wd `prefix_of` q → fs w' !! q = None).
Proof.
  intros Hc. unfold after_config, bind at 1, spawn.
  set (w1 := with_spawned _ w).
  assert (evolves wd w w1) as E1 by apply evolves_with_spawned.
  assert (∀ w2, evolves wd w1 w2 → spawned w2 = spawned w1 →
            ∃ w', (match configDir with
                     | Some d => cleanupGeminiConfig d
                     | None => ret tt
                     end) w2 = (Ok tt, w')
              ∧ evolves wd w w'
              ∧ spawned w' = (spawned w ++ [command_args prompt options])%list
              ∧ (configDir = Some (configDirectory wd) →
                 ∀ q, configDirectory wd `prefix_of` q → fs w' !! q = None)) as Hclean.
  { intros w2 E2 S2. destruct Hc as [-> | ->].
    - exists w2. split_and!; try done. by eapply evolves_trans.
    - exists (with_fs (filter (fun e => ¬ configDirectory wd `prefix_of` e.1) (fs w2)) w2).
      split_and!; try done.
      + eapply evolves_trans; [exact E1|]. eapply evolves_trans; [exact E2|].
        apply evolves_with_fs. apply plans_ready_filter.
      + intros _ q Hq. simpl. by apply removed_lookup. }
  destruct (gemini w (length (spawned w)) (command_args prompt options))
    as [output exit_code after_ms | reason].
  - destruct (timeout_seconds options * 1000 <=? after_ms).
    + destruct (Hclean (with_now (now w1 + timeout_seconds options * 1000) w1))
        as (w' & Hr & E & S & F); [apply evolves_with_now | done |].
      unfold bind, elapse. rewrite Hr. eexists _, w'. split_and!; eauto.
    + destruct (Hclean (with_now (now w1 + after_ms) w1))
        as (w' & Hr & E & S & F); [apply evolves_with_now | done |].
      unfold bind, elapse, Date_now. rewrite Hr. eexists _, w'. split_and!; eauto.
  - destruct (Hclean w1) as (w' & Hr & E & S & F); [apply evolves_refl | done |].
    unfold bind. rewrite Hr. eexists _, w'. split_and!; eauto.
Qed.

Lemma runGeminiCLI_spec prompt options w :
  ∃ r w', runGeminiCLI prompt options w = (r, w')
    ∧ r ≠ Untyped
    ∧ evolves (wd_of options w) w w'
    ∧ (spawned w' = spawned w
       ∨ spawned w' = (spawned w ++ [command_args prompt options])%list)
    ∧ (spawned w' ≠ spawned w →
       ∀ s servers, mcpServers options = Some (s :: servers) →
       ∀ q, configDirectory (wd_of options w) `prefix_of` q → fs w' !! q = None)
    ∧ (∀ response, r = Ok response →
       spawned w' = (spawned w ++ [command_args prompt options])%list).
Proof.
  rewrite runGeminiCLI_unfold.
  destruct (mcpServers options) as [[|s l]|] eqn:Hm.
  - destruct (after_config_spec (wd_of options w) prompt options (now w) None w)
      as (r & w' & -> & Hr & E & S & F); [by left|].
    exists r, w'. split_and!; eauto. intros _ ? ? [=].
  - destruct (createGeminiConfig (Some (s :: l)) (wd_of options w) w) as [r1 w1] eqn:Hc.
    destruct (createGeminiConfig_evolves _ _ _ _ _ Hc) as [E1 Hr1].
    destruct (createGeminiConfig_cases (Some (s :: l)) (wd_of options w) w)
      as [[e He] | [[e He] | [c He]]]; rewrite He in Hc; simplify_eq.
    + eexists (Throw e), _. split_and!; eauto; [intros H; by destruct H | intros ? [=]].
    + eexists (Throw e), _. split_and!; eauto; [simpl; intros H; by destruct H | intros ? [=]].
    + simpl.
      destruct (after_config_spec (wd_of options w) prompt options (now w)
                  (Some (configDirectory (wd_of options w)))
                  (with_fs (<[path_join (configDirectory (wd_of options w)) "settings.json"
                              := File c]> (mkdirs (configDirectory (wd_of options w)) (fs w))) w))
        as (r & w' & -> & Hr & E & S & F); [by right|].
      exists r, w'. split_and!; eauto using evolves_trans.
  - destruct (after_config_spec (wd_of options w) prompt options (now w) None w)
      as (r & w' & -> & Hr & E & S & F); [by left|].
    exists r, w'. split_and!; eauto. intros _ ? ? [=].
Qed.

End RunGeminiCLI.

(** *** The configuration directory and the plans below it *)

Module Mcp.

Definition server : McpServer :=
  {| name := "files"; connectionType := connection_command;
     server_command := Some "npx"; args := Some "-y  server-filesystem /tmp";
     httpUrl := None; headers := None; env := Some "TOKEN=a=b"; server_cwd := None;
     server_timeout := 0; trust := false; includeTools := Some "read, write,";
     excludeTools := None |}.

Definition options : Options :=
  {| cwd_option := None; apiKey := None; useVertexAI := None;
     model := Some "gemini-2.5-pro"; systemPrompt := None; timeout := Some 300;
     debug := Some false; toolsConfig := Some Sample.tools; mcpServers := Some [server] |}.

Definition world : world :=
  Sample.world_with [Sample.plan draft [Sample.step "1" pending]] (fun _ _ => Sample.says "done" 0).

End Mcp.

Example serverConfig_ex :
  serverConfig Mcp.server
  = JObj [("timeout", JNum 30000); ("trust", JBool false); ("command", JStr "npx");
          ("args", JArr [JStr "-y"; JStr "server-filesystem"; JStr "/tmp"]);
          ("env", JObj [("TOKEN", JStr "a=b")]);
          ("includeTools", JArr [JStr "read"; JStr "write"])].
Proof. vm_compute. reflexivity. Qed.

(** C2: when MCP servers are configured and the agent has been spawned,
    then however the run ends (exit code zero or not, failure to start,
    time-out) nothing is left at or below [<workingDirectory>/.gemini]; in
    particular no plan file is left in [<workingDirectory>/.gemini/plans]. *)
Theorem cleanup_removes_stored_plans prompt options w s servers r w' :
  mcpServers options = Some (s :: servers) →
  runGeminiCLI prompt options w = (r, w') →
  spawned w' ≠ spawned w →
  (∀ q, path_join (wd_of options w) ".gemini" `prefix_of` q → fs w' !! q = None)
  ∧ ∀ planId, fs w' !! planPath (plansDirectory (wd_of options w)) planId = None.
Proof.
  intros Hm Hrun Hsp.
  destruct (runGeminiCLI_spec prompt options w) as (r0 & w0 & H0 & _ & _ & _ & Hgone).
  rewrite Hrun in H0. simplify_eq.
  assert (∀ q, path_join (wd_of options w) ".gemini" `prefix_of` q → fs w0 !! q = None) as H.
  { intros q Hq. by eapply Hgone. }
  split; [done|]. intros planId. apply H.
  unfold planPath, plansDirectory, path_join.
  exists ["plans"; planId +:+ ".json"]. by rewrite <- !app_assoc.
Qed.

Lemma cleanup_removes_stored_plans_witness :
  stored ["proj"] "plan_1" (Sample.plan draft [Sample.step "1" pending]) (fs Mcp.world)
  ∧ fs (runGeminiCLI "Say hello" Mcp.options Mcp.world).2
       !! planPath (plansDirectory ["proj"]) "plan_1" = None.
Proof.
  split.
  - vm_compute. reflexivity.
  - refine (proj2 (cleanup_removes_stored_plans "Say hello" Mcp.options Mcp.world
                     Mcp.server [] (runGeminiCLI "Say hello" Mcp.options Mcp.world).1
                     (runGeminiCLI "Say hello" Mcp.options Mcp.world).2 _ _ _) "plan_1").
    + reflexivity.
    + by destruct (runGeminiCLI _ _ _).
    + vm_compute. discriminate.
Defined.

(** *** The argument vector of a plain query *)

Module Query.

Definition parameters (operation : string) : Parameters :=
  {| operation := operation; parameter_model := "gemini-2.5-pro";
     parameter_timeout := 300; projectPath := EmptyString;
     additionalOptions := {| additional_apiKey := None; additional_useVertexAI := None;
                             additional_systemPrompt := None; additional_debug := Some false |};
     parameter_toolsConfig :=
       Some {| enabledTools := None; securityMode := Some yolo; checkpointing := Some true |};
     parameter_mcpServers := None;
     parameter_prompt := "Fix the bug"; parameter_planId := EmptyString;
     editInstructions := EmptyString |}.

Definition world : world := Sample.world_with [] (fun _ _ => Sample.says "done" 0).

End Query.

(** The argument vector C10 describes: the instruction last, no [-p], no
    security-mode flag, no checkpointing flag. *)
Definition plain_argv (instruction : string) (args : list string) : Prop :=
  last args = Some instruction
  ∧ ("-p" ∉ args) ∧ ("--yolo" ∉ args) ∧ ("--sandbox" ∉ args) ∧ ("-c" ∉ args).

(** C10, as stated, fails: a query with security mode [yolo] and
    checkpointing enabled spawns the agent with [--yolo], [-c] and [-p]. *)
Lemma query_passes_plan_flags :
  spawned (execute_item (Query.parameters "query") Query.world).2
  = [["--model"; "gemini-2.5-pro"; "--yolo"; "-c"; "-p"; "Fix the bug"]]
  ∧ ¬ plain_argv "Fix the bug" ["--model"; "gemini-2.5-pro"; "--yolo"; "-c"; "-p"; "Fix the bug"].
Proof.
  split.
  - vm_compute. reflexivity.
  - intros (_ & H & _). apply H. set_solver.
Qed.

Lemma command_args_shape prompt options :
  ∃ flags,
    command_args prompt options = (flags ++ ["-p"; finalPrompt prompt options])%list
    ∧ (toolsConfig options ≫= securityMode = Some yolo → "--yolo" ∈ flags)
    ∧ (toolsConfig options ≫= securityMode = Some sandbox → "--sandbox" ∈ flags)
    ∧ (toolsConfig options ≫= checkpointing = Some true → "-c" ∈ flags)
    ∧ (debug options = Some true → "--debug" ∈ flags).
Proof.
  unfold command_args. eexists. split.
  - rewrite !app_assoc. reflexivity.
  - split_and!; intros ->; set_solver.
Qed.

Lemma execute_item_query_spawns p w :
  operation p = "query" ∨ operation p = "continue" →
  spawned (execute_item p w).2 = spawned w
  ∨ spawned (execute_item p w).2
    = (spawned w ++ [command_args (parameter_prompt p) (operationOptions p None)])%list.
Proof.
  intros Hop. unfold execute_item.
  assert (one_of ["query"; "continue"; "generate_plan"] (operation p) = true) as ->
    by (destruct Hop as [-> | ->]; reflexivity).
  assert (one_of ["edit_plan"; "approve_plan"; "execute_plan"] (operation p) = false) as ->
    by (destruct Hop as [-> | ->]; reflexivity).
  rewrite andb_true_l, andb_false_l.
  destruct (String.eqb (trim (parameter_prompt p)) EmptyString); [by left|].
  rewrite bind_eq. unfold checkGeminiCLI_isAvailable.
  destruct (gemini_version w); [|by left]. cbv beta iota.
  change (negb true) with false. cbv iota.
  assert (∀ resolved,
            spawned (run_operation p (parameter_prompt p) EmptyString
                       (if String.eqb (operation p) "edit_plan"
                        then editInstructions p else EmptyString) resolved w).2 = spawned w
            ∨ spawned (run_operation p (parameter_prompt p) EmptyString
                         (if String.eqb (operation p) "edit_plan"
                          then editInstructions p else EmptyString) resolved w).2
              = (spawned w ++ [command_args (parameter_prompt p) (operationOptions p None)])%list)
    as Hrun.
  { intros resolved. unfold run_operation.
    assert (String.eqb (operation p) "query" || String.eqb (operation p) "continue" = true) as ->
      by (destruct Hop as [-> | ->]; reflexivity).
    rewrite bind_eq.
    destruct (runGeminiCLI_spec (parameter_prompt p) (operationOptions p resolved) w)
      as (r & w' & -> & _ & _ & Hs & _).
    destruct r; simpl; exact Hs. }
  rewrite bind_eq.
  destruct (negb (String.eqb (trim (projectPath p)) EmptyString)); [|apply Hrun].
  rewrite bind_eq.
  destruct (validateProjectPath_total (trim (projectPath p)) w) as [[resolvedPath|problem] ->].
  - apply Hrun.
  - by left.
Qed.

(** C10, amended: a query or continue operation spawns the agent at most
    once, and then with the argument vector every other invocation gets:
    optional flags, then [-p], then the instruction (prefixed by the system
    prompt, if any) as the last argument; the flags carry [--yolo] or
    [--sandbox] when the node's security mode says so and [-c] when
    checkpointing is enabled. *)
Theorem query_argv_ends_with_p_and_instruction p w :
  operation p = "query" ∨ operation p = "continue" →
  (spawned (execute_item p w).2 = spawned w
   ∨ spawned (execute_item p w).2
     = (spawned w ++ [command_args (parameter_prompt p) (operationOptions p None)])%list)
  ∧ ∃ flags,
      command_args (parameter_prompt p) (operationOptions p None)
      = (flags ++ ["-p"; finalPrompt (parameter_prompt p) (operationOptions p None)])%list
      ∧ (parameter_toolsConfig p ≫= securityMode = Some yolo → "--yolo" ∈ flags)
      ∧ (parameter_toolsConfig p ≫= securityMode = Some sandbox → "--sandbox" ∈ flags)
      ∧ (parameter_toolsConfig p ≫= checkpointing = Some true → "-c" ∈ flags).
Proof.
  intros Hop. split; [by apply execute_item_query_spawns|].
  destruct (command_args_shape (parameter_prompt p) (operationOptions p None))
    as (flags & H1 & H2 & H3 & H4 & _).
  exists flags. done.
Qed.

Lemma query_argv_ends_with_p_and_instruction_witness :
  ∃ flags,
    command_args "Fix the bug" (operationOptions (Query.parameters "query") None)
    = (flags ++ ["-p"; "Fix the bug"])%list
    ∧ "--yolo" ∈ flags ∧ "-c" ∈ flags.
Proof.
  destruct (proj2 (query_argv_ends_with_p_and_instruction (Query.parameters "query") Query.world
                     (or_introl eq_refl))) as (flags & H1 & H2 & _ & H4).
  exists flags. split_and!; [exact H1 | by apply H2 | by apply H4].
Defined.

(** *** Cutting the JSON object out of a reply *)

Section Extraction.

Lemma from_open_brace_app before rest :
  includes "{" before = false →
  from_open_brace (before +:+ String "{" rest) = Some (String "{" rest).
Proof.
  induction before as [|c before IH]; simpl; [done|].
  intros H. apply orb_false_elim in H as [Hc Hb].
  rewrite Hc. by apply IH.
Qed.

Lemma to_last_close_brace_none after :
  includes "}" after = false → to_last_close_brace after = None.
Proof.
  induction after as [|c after IH]; simpl; [done|].
  intros H. apply orb_false_elim in H as [Hc Hb].
  by rewrite (IH Hb), Hc.
Qed.

Lemma to_last_close_brace_app inner after :
  includes "}" after = false →
  to_last_close_brace (inner +:+ String "}" after) = Some (inner +:+ "}").
Proof.
  intros H. induction inner as [|c inner IH]; simpl.
  - by rewrite (to_last_close_brace_none _ H).
  - by rewrite IH.
Qed.

(** The match runs from the first opening brace to the last closing one. *)
Lemma match_json_braces_spans before inner after :
  includes "{" before = false →
  includes "}" after = false →
  match_json_braces (before +:+ String "{" (inner +:+ "}") +:+ after)
  = Some (String "{" (inner +:+ "}")).
Proof.
  intros Hb Ha. unfold match_json_braces.
  change (String "{" (inner +:+ "}") +:+ after) with (String "{" ((inner +:+ "}") +:+ after)).
  rewrite (from_open_brace_app _ _ Hb).
  rewrite (string_app_assoc inner). simpl.
  by rewrite (to_last_close_brace_app _ _ Ha).
Qed.

End Extraction.

(** The reading of C7: the first brace-delimited object of a text is the
    text from its first opening brace up to the closing brace that
    balances it. *)
Fixpoint balanced_prefix (depth : nat) (s : string) : option string :=
  match s with
  | EmptyString => None
  | String c r =>
      if Ascii.eqb c "{" then String c <$> balanced_prefix (S depth) r
      else if Ascii.eqb c "}" then
        match depth with
        | 0%nat => None
        | 1%nat => Some (String c EmptyString)
        | S d => String c <$> balanced_prefix d r
        end
      else String c <$> balanced_prefix depth r
  end.

Definition first_brace_delimited_object (reply : string) : option string :=
  from_open_brace reply ≫= balanced_prefix 0.

Module Reply.

Definition object : string := jq "{'title':'T','description':'D','steps':[{'id':'a'}]}".

Definition with_braces_after : string :=
  "Here is the plan: " +:+ object +:+ " Use {curly braces} freely.".

Definition world : world := Sample.world_with [] (fun _ _ => Sample.says with_braces_after 0).

End Reply.

(** C7, as stated, fails: with braces in the prose after the object, the
    text given to [JSON.parse] is not the first brace-delimited object but
    runs on to the last closing brace of the reply; the parse fails and so
    does the plan generation. *)
Lemma braces_after_object_break_extraction :
  first_brace_delimited_object Reply.with_braces_after = Some Reply.object
  ∧ JSON_parse Reply.object
    = Some (JObj [("title", JStr "T"); ("description", JStr "D");
                  ("steps", JArr [JObj [("id", JStr "a")]])])
  ∧ match_json_braces Reply.with_braces_after
    = Some (Reply.object +:+ " Use {curly braces}")
  ∧ JSON_parse (Reply.object +:+ " Use {curly braces}") = None
  ∧ (generatePlanWithGemini "Plan it" Sample.options Reply.world).1
    = Throw (ApplicationError
               "Plan generation failed: Failed to parse plan structure: Unexpected token in JSON").
Proof. vm_compute. repeat split; reflexivity. Qed.

(** C7, amended: the text given to [JSON.parse] runs from the first opening
    brace of the reply to its last closing brace.  So a reply that is one
    valid JSON object surrounded by prose is parsed into that object when
    the prose before it has no opening brace and the prose after it has no
    closing brace. *)
Theorem extraction_spans_first_to_last_brace before inner after what v :
  includes "{" before = false →
  includes "}" after = false →
  JSON_parse (String "{" (inner +:+ "}")) = Some v →
  match_json_braces (before +:+ String "{" (inner +:+ "}") +:+ after)
  = Some (String "{" (inner +:+ "}"))
  ∧ extract_planData (before +:+ String "{" (inner +:+ "}") +:+ after) what = Ok v.
Proof.
  intros Hb Ha Hv.
  pose proof (match_json_braces_spans before inner after Hb Ha) as Hm.
  split; [done|].
  unfold extract_planData, result_catch. rewrite Hm.
  unfold JSON_parse_or_throw. by rewrite Hv.
Qed.

Lemma extraction_spans_first_to_last_brace_witness :
  extract_planData ("Sure. {" +:+ jq "'title':'T','steps':[]" +:+ "}" +:+ " Done {as asked.")
                   "Failed to parse plan structure: "
  = Ok (JObj [("title", JStr "T"); ("steps", JArr [])]).
Proof.
  refine (proj2 (extraction_spans_first_to_last_brace "Sure. " (jq "'title':'T','steps':[]")
                   " Done {as asked." "Failed to parse plan structure: "
                   (JObj [("title", JStr "T"); ("steps", JArr [])]) _ _ _)).
  - reflexivity.
  - reflexivity.
  - vm_compute. reflexivity.
Defined.

(** *** The step loop of [executePlan] *)

Section StepLoop.

Implicit Types (wd : path) (w : world) (plan : ExecutionPlan) (step : ExecutionStep).

(** [plan] with other steps. *)
Definition set_steps (l : list ExecutionStep) plan : ExecutionPlan :=
  {| id := id plan; title := title plan; description := description plan;
     steps := l; created_at := created_at plan; modified_at := modified_at plan;
     status := status plan; original_prompt := original_prompt plan;
     configuration := configuration plan |}.

Lemma alter_middle {A} (f : A → A) (before : list A) (x : A) (rest : list A) :
  alter f (length before) (before ++ x :: rest)%list = (before ++ f x :: rest)%list.
Proof. induction before as [|b before IH]; [done|]. simpl. f_equal. exact IH. Qed.

Lemma set_step_status_middle st before step rest plan :
  set_step_status (length before) st (set_steps (before ++ step :: rest)%list plan)
  = set_steps (before ++ with_step_status st step :: rest)%list plan.
Proof. unfold set_step_status, set_steps. simpl. by rewrite alter_middle. Qed.

Lemma with_step_status_twice st st' step :
  with_step_status st (with_step_status st' step) = with_step_status st step.
Proof. done. Qed.

Lemma wd_of_evolves wd options w w' : evolves wd w w' → wd_of options w' = wd_of options w.
Proof. intros [Hc _ _ _]. unfold wd_of. by rewrite Hc. Qed.

Lemma evolves_saved wd plan w : evolves wd w (with_fs (saved wd plan (fs w)) w).
Proof. apply evolves_with_fs, plans_ready_saved. Qed.

Definition step_args (options : Options) step : list string :=
  command_args (executionPrompt step) options.

(** How the loop leaves the steps it was given: the steps of [finished]
    are completed; when the loop broke off, the next step is failed; the
    steps after that are as they were. *)
Definition steps_after (finished rest : list ExecutionStep) (ok : bool) : list ExecutionStep :=
  (map (with_step_status step_completed) finished
   ++ match ok, rest with
      | false, step :: rest' => with_step_status step_failed step :: rest'
      | _, _ => rest
      end)%list.

Lemma execute_steps_spec wd options todo :
  ∀ plan before results w,
    wd_of options w = wd →
    plans_ready wd (fs w) →
    ∃ finished rest good bad ok attempted w',
      execute_steps wd options (set_steps (before ++ todo)%list plan) results (length before) todo w
      = (Ok (Done (set_steps (before ++ steps_after finished rest ok)%list plan,
                   (results ++ good ++ bad)%list, ok)), w')
      ∧ todo = (finished ++ rest)%list
      ∧ (if ok then rest = [] ∧ bad = [] else rest ≠ [])
      ∧ length good = length finished
      ∧ Forall (fun r => success r = true) good
      ∧ Forall (fun r => success r = false) bad
      ∧ evolves wd w w'
      ∧ plans_ready wd (fs w')
      ∧ spawned w' = (spawned w ++ map (step_args options) attempted)%list
      ∧ finished `prefix_of` attempted
      ∧ attempted `prefix_of` todo
      ∧ (length attempted ≤ length finished + (if ok then 0 else 1))%nat.
Proof.
  induction todo as [|step todo IH]; intros plan before results w Hwd Hready.
  - exists [], [], [], [], true, [], w. simpl. unfold ret, steps_after. simpl.
    rewrite !app_nil_r. split_and!; try done. apply evolves_refl.
  - simpl execute_steps. unfold in_try at 1.
    rewrite set_step_status_middle.
    rewrite (savePlan_ok _ _ _ Hready).
    set (plan1 := set_steps (before ++ with_step_status in_progress step :: todo)%list plan).
    set (w1 := with_fs (saved wd plan1 (fs w)) w).
    assert (evolves wd w w1) as E1 by apply evolves_saved.
    assert (plans_ready wd (fs w1)) as R1 by (by apply plans_ready_saved).
    assert (wd_of options w1 = wd) as Hwd1 by (by rewrite (wd_of_evolves _ _ _ _ E1)).
    rewrite bind_eq. unfold attempt.
    destruct (runGeminiCLI_spec (executionPrompt step) options w1)
      as (r & w2 & Hrun & Hr & E2 & Hs & _ & Hok).
    rewrite Hrun. rewrite Hwd1 in E2.
    assert (plans_ready wd (fs w2)) as R2 by (by apply E2).
    assert (evolves wd w w2) as E02 by (by eapply evolves_trans).
    destruct r as [stepResult|e|]; [|clear Hok|done].
    + specialize (Hok _ eq_refl). cbv beta iota.
      destruct (success stepResult) eqn:Hsuccess.
      * unfold in_try at 1. unfold plan1. rewrite set_step_status_middle.
        rewrite with_step_status_twice.
        rewrite (savePlan_ok _ _ _ R2).
        set (plan2 := set_steps (before ++ with_step_status step_completed step :: todo)%list plan).
        set (w3 := with_fs (saved wd plan2 (fs w2)) w2).
        assert (evolves wd w2 w3) as E3 by apply evolves_saved.
        assert (plans_ready wd (fs w3)) as R3 by (by apply plans_ready_saved).
        assert (wd_of options w3 = wd) as Hwd3.
        { rewrite (wd_of_evolves _ _ _ _ E3), (wd_of_evolves _ _ _ _ E2). done. }
        destruct (IH plan (before ++ [with_step_status step_completed step])%list
                     (results ++ [stepResult])%list w3 Hwd3 R3)
          as (finished & rest & good & bad & ok & attempted & w' & Hex & Htodo & Hrest & Hlen
              & Hgood & Hbad & E & R & Hsp & Hpre1 & Hpre2 & Hatt).
        rewrite length_app in Hex. simpl in Hex. rewrite Nat.add_1_r in Hex.
        unfold plan2. rewrite <- app_assoc in Hex. simpl in Hex. rewrite Hex.
        exists (step :: finished), rest, (stepResult :: good), bad, ok, (step :: attempted), w'.
        split_and!; try done.
        -- unfold steps_after. simpl. by rewrite <- !app_assoc.
        -- simpl. by rewrite Htodo.
        -- simpl. by rewrite Hlen.
        -- by constructor.
        -- eapply evolves_trans; [exact E02|]. eapply evolves_trans; [exact E3|]. exact E.
        -- rewrite Hsp. simpl. rewrite Hok. simpl. by rewrite <- !app_assoc.
        -- by apply prefix_cons.
        -- by apply prefix_cons.
        -- simpl. lia.
      * unfold ret. unfold plan1. rewrite set_step_status_middle, with_step_status_twice.
        exists [], (step :: todo), [], [stepResult], false, [step], w2.
        split_and!; try done.
        -- by repeat constructor.
        -- apply prefix_nil.
        -- by apply prefix_cons, prefix_nil.
    + cbv beta iota. unfold ret. unfold plan1.
      rewrite set_step_status_middle, with_step_status_twice.
      destruct Hs as [Hs | Hs].
      * exists [], (step :: todo), [], [], false, [], w2.
        split_and!; try done.
        -- simpl. by rewrite !app_nil_r.
        -- simpl. by rewrite app_nil_r.
        -- apply prefix_nil.
        -- simpl. lia.
      * exists [], (step :: todo), [], [], false, [step], w2.
        split_and!; try done.
        -- simpl. by rewrite !app_nil_r.
        -- apply prefix_nil.
        -- by apply prefix_cons, prefix_nil.
Qed.

End StepLoop.

(** *** [executePlan] on an approved plan *)

Section ExecutePlan.

Implicit Types (wd : path) (w : world) (plan : ExecutionPlan).

Lemma set_steps_same plan : set_steps (steps plan) plan = plan.
Proof. by destruct plan. Qed.

(** The plan [executePlan] returns and stores: the steps as the loop left
    them, the status by [allStepsSuccessful]. *)
Definition executed (finished rest : list ExecutionStep) (ok : bool) (t : Z) plan
  : ExecutionPlan :=
  set_status (if ok then completed else failed) t
             (set_steps (steps_after finished rest ok) plan).

Lemma executePlan_spec planId options w plan :
  (loadPlan planId (wd_of options w) w).1 = Ok (Some plan) →
  status plan = approved →
  plans_ready (wd_of options w) (fs w) →
  ∃ finished rest good bad ok attempted w',
    executePlan planId options w
    = (Ok (executed finished rest ok (now w') plan, (good ++ bad)%list), w')
    ∧ stored (wd_of options w) (id plan) (executed finished rest ok (now w') plan) (fs w')
    ∧ steps plan = (finished ++ rest)%list
    ∧ (if ok then rest = [] ∧ bad = [] else rest ≠ [])
    ∧ length good = length finished
    ∧ Forall (fun r => success r = true) good
    ∧ Forall (fun r => success r = false) bad
    ∧ spawned w' = (spawned w ++ map (step_args options) attempted)%list
    ∧ finished `prefix_of` attempted
    ∧ attempted `prefix_of` steps plan
    ∧ (length attempted ≤ length finished + (if ok then 0 else 1))%nat.
Proof.
  intros Hload Hst Hready. set (wd := wd_of options w) in *.
  unfold executePlan. rewrite bind_eq, workingDirectory_of_eq. fold wd.
  rewrite bind_eq, loadPlan_eta, Hload. cbv beta iota.
  rewrite bool_decide_eq_true_2 by done. change (negb true) with false. cbv iota.
  rewrite bind_eq. unfold Date_now. cbv beta iota.
  rewrite bind_eq, (savePlan_ok _ _ _ Hready). cbv beta iota.
  set (plan0 := set_status executing (now w) plan).
  set (w0 := with_fs (saved wd plan0 (fs w)) w).
  assert (evolves wd w w0) as E0 by apply evolves_saved.
  assert (plans_ready wd (fs w0)) as R0 by (by apply plans_ready_saved).
  assert (wd_of options w0 = wd) as Hwd0 by (by rewrite (wd_of_evolves _ _ _ _ E0)).
  destruct (execute_steps_spec wd options (steps plan0) plan0 [] [] w0 Hwd0 R0)
    as (finished & rest & good & bad & ok & attempted & w1 & Hex & Htodo & Hrest & Hlen
        & Hgood & Hbad & E1 & R1 & Hsp & Hpre1 & Hpre2 & Hatt).
  change (execute_steps wd options (set_steps ([] ++ steps plan0)%list plan0) []
            (length ([] : list ExecutionStep)) (steps plan0) w0)
    with (execute_steps wd options plan0 [] 0 (steps plan0) w0) in Hex.
  change (([] ++ ?l)%list) with l in Hex.
  rewrite bind_eq, bind_eq, Hex. cbv beta iota.
  rewrite bind_eq. cbv beta iota. unfold in_try.
  rewrite (savePlan_ok _ _ _ R1). unfold ret. cbv beta iota.
  set (final := set_status (if ok then completed else failed) (now w1)
                           (set_steps (steps_after finished rest ok) plan0)).
  assert (final = executed finished rest ok (now w1) plan) as Hfinal by done.
  exists finished, rest, good, bad, ok, attempted, (with_fs (saved wd final (fs w1)) w1).
  simpl now. rewrite <- Hfinal.
  split_and!; try done.
  apply (stored_saved wd final).
Qed.

End ExecutePlan.

Module Execution.

(** Three pending steps, approved; the second child exits with code 1. *)
Definition plan : ExecutionPlan :=
  Sample.plan approved
    [Sample.step "1" pending; Sample.step "2" pending; Sample.step "3" pending].

Definition world : world :=
  Sample.world_with [plan] (fun n _ => Sample.says "ok" (if (n =? 1)%nat then 1 else 0)).

End Execution.

(** The example of the specification: step 2 of 3 exits with code 1. *)
Example executePlan_second_step_fails :
  ∃ final results w',
    executePlan "plan_1" Sample.options Execution.world = (Ok (final, results), w')
    ∧ status final = failed
    ∧ map step_status (steps final) = [Some step_completed; Some step_failed; Some pending]
    ∧ map success results = [true; false]
    ∧ length (spawned w') = 2%nat
    ∧ (loadPlan "plan_1" ["proj"] w').1 = Ok (Some final).
Proof. eexists _, _, _. vm_compute. repeat split; reflexivity. Qed.

Lemma statuses_completed (l : list ExecutionStep) :
  map step_status (map (with_step_status step_completed) l)
  = replicate (length l) (Some step_completed).
Proof. induction l as [|s l IH]; simpl; [done | by rewrite IH]. Qed.

Lemma statuses_pending (l : list ExecutionStep) :
  Forall (fun s => step_status s = Some pending) l →
  map step_status l = replicate (length l) (Some pending).
Proof. induction 1 as [|s l Hs _ IH]; simpl; [done | by rewrite Hs, IH]. Qed.



(** C4: when all steps of the approved plan are pending, the step statuses
    after [executePlan] are [k] times completed, then one failed if the loop
    stopped, then pending to the end; and the children spawned during the
    call are those of the first [n] steps, in array order, where [n] is [k]
    or, if the loop stopped, at most [k + 1]: no step after the failed one
    is attempted. *)
Theorem executePlan_statuses_prefix planId options w plan :
  (loadPlan planId (wd_of options w) w).1 = Ok (Some plan) →
  status plan = approved →
  plans_ready (wd_of options w) (fs w) →
  Forall (fun s => step_status s = Some pending) (steps plan) →
  ∃ final results w' (k n : nat) (stopped : bool),
    executePlan planId options w = (Ok (final, results), w')
    ∧ map step_status (steps final)
      = (replicate k (Some step_completed)
         ++ (if stopped then [Some step_failed] else [])
         ++ replicate (length (steps plan) - k - (if stopped then 1 else 0)) (Some pending))%list
    ∧ (k + (if stopped then 1 else 0) ≤ length (steps plan))%nat
    ∧ spawned w' = (spawned w ++ map (step_args options) (take n (steps plan)))%list
    ∧ (k ≤ n ≤ k + (if stopped then 1 else 0))%nat.
Proof.
  intros Hload Hst Hready Hpending.
  destruct (executePlan_spec planId options w plan Hload Hst Hready)
    as (finished & rest & good & bad & ok & attempted & w' & Hex & _ & Hsteps & Hrest
        & _ & _ & _ & Hsp & Hpre1 & Hpre2 & Hatt).
  exists (executed finished rest ok (now w') plan), (good ++ bad)%list, w',
         (length finished), (length attempted), (negb ok).
  rewrite Hsteps in Hpending. apply Forall_app in Hpending as [_ Hrestp].
  assert (attempted = take (length attempted) (steps plan)) as Htake.
  { destruct Hpre2 as [tail ->]. by rewrite take_app_length. }
  split_and!.
  - done.
  - simpl. unfold steps_after. rewrite map_app, statuses_completed, Hsteps, length_app.
    f_equal. destruct ok; simpl.
    + rewrite (statuses_pending _ Hrestp). f_equal. lia.
    + destruct rest as [|s rest]; [done|]. simpl.
      apply Forall_cons in Hrestp as [_ Hrestp].
      rewrite (statuses_pending _ Hrestp). do 2 f_equal. lia.
  - rewrite Hsteps, length_app. destruct ok; simpl; [lia|].
    destruct rest; [done|]. simpl. lia.
  - by rewrite <- Htake.
  - by apply prefix_length.
  - destruct ok; simpl in *; lia.
Qed.

Lemma executePlan_statuses_prefix_witness :
  ∃ final results w' (k n : nat) (stopped : bool),
    executePlan "plan_1" Sample.options Execution.world = (Ok (final, results), w')
    ∧ map step_status (steps final)
      = (replicate k (Some step_completed)
         ++ (if stopped then [Some step_failed] else [])
         ++ replicate (length (steps Execution.plan) - k - (if stopped then 1 else 0))
                      (Some pending))%list
    ∧ (k + (if stopped then 1 else 0) ≤ length (steps Execution.plan))%nat
    ∧ spawned w'
      = (spawned Execution.world
         ++ map (step_args Sample.options) (take n (steps Execution.plan)))%list
    ∧ (k ≤ n ≤ k + (if stopped then 1 else 0))%nat.
Proof.
  refine (executePlan_statuses_prefix "plan_1" Sample.options Execution.world
            Execution.plan _ _ _ _).
  - vm_compute. reflexivity.
  - reflexivity.
  - apply plans_ready_b_true. vm_compute. reflexivity.
  - repeat constructor.
Defined.

(** *** Editing a plan *)

Section Edit.

Implicit Types (wd : path) (w : world) (plan : ExecutionPlan).

Lemma try_catch_rethrow_ok {A} (m : M A) (f : Host.error → Host.error) w (a : A) w' :
  try_catch m (fun e => throw (f e)) w = (Ok a, w') → m w = (Ok a, w').
Proof. unfold try_catch, throw. destruct (m w) as [[?|?|] ?]; intros; by simplify_eq. Qed.

Lemma savePlan_inv plan wd w w' :
  savePlan plan wd w = (Ok tt, w') → w' = with_fs (saved wd plan (fs w)) w.
Proof.
  unfold savePlan, ensurePlansDirectory. rewrite bind_eq.
  unfold try_catch at 1. rewrite bind_eq. unfold fs_mkdir.
  destruct (existsb _ _); [discriminate|]. cbv beta iota.
  unfold try_catch, fs_writeFile, ret. cbv zeta.
  destruct (negb _); [discriminate|].
  destruct (is_dir _); [discriminate|].
  intros [= <-]. done.
Qed.

Lemma missing_required_fields_false planData :
  missing_required_fields planData = false →
  truthy (prop "title" planData) = true
  ∧ truthy (prop "description" planData) = true
  ∧ ∃ l, prop "steps" planData = Some (JArr l).
Proof.
  unfold missing_required_fields.
  intros [[Ht Hd]%orb_false_elim Hs]%orb_false_elim.
  apply negb_false_iff in Ht, Hd, Hs. split_and!; try done.
  destruct (prop "steps" planData) as [[]|]; try discriminate. by eexists.
Qed.

Lemma string_or_truthy value fallback t :
  truthy value = true → string_or value fallback = Ok t → value = Some (JStr t).
Proof.
  unfold string_or. intros ->. destruct value as [[]|]; try discriminate. by intros [= ->].
Qed.

Lemma validatedSteps_from_pending l : ∀ index vs,
  validatedSteps_from index l = Ok vs →
  Forall (fun s => step_status s = Some pending) vs.
Proof.
  induction l as [|step l IH]; intros index vs; simpl.
  - intros [= <-]. constructor.
  - destruct (validatedStep index step) as [v| |] eqn:Hv; try discriminate. simpl.
    destruct (validatedSteps_from (S index) l) as [vs'| |] eqn:Hvs; try discriminate. simpl.
    intros [= <-]. constructor; [|by eapply IH].
    assert (validatedFields index step = Ok v) as Hf by (by destruct step).
    unfold validatedFields in Hf.
    repeat (match type of Hf with
            | result_bind ?r _ = _ => destruct r; simpl in Hf; try discriminate
            end).
    by injection Hf as <-.
Qed.

End Edit.

(** Take the first [let!] of a run [H] that ended in [Ok]. *)
Ltac run_bind H :=
  rewrite bind_eq in H;
  match type of H with
  | match ?c with _ => _ end = _ =>
      let E := fresh "Hrun" in
      destruct c as [[?|?|] ?] eqn:E; [|discriminate H..]
  end.

Module Editing.

Definition reply : string :=
  jq "{'title':'Validate','description':'Both sides','steps':[{'id':'s1','description':'Client checks','status':'completed'},{'description':'Server checks','estimated_duration':'soon'}]}".

Definition finished_plan : ExecutionPlan :=
  Sample.plan failed [Sample.step "1" step_completed; Sample.step "2" step_failed].

Definition world : world :=
  Sample.world_with [finished_plan] (fun _ _ => Sample.says reply 0).

End Editing.



(** *** Generating a plan *)

Section Generate.

Implicit Types (w : world) (planData step : json).

(** The defaults of one validated step, for the step at position [index]
    (counted from 0) of the reply. *)
Definition step_defaults (index : nat) step (s : ExecutionStep) : Prop :=
  step_status s = Some pending
  ∧ (prop "id" step = None → step_id s = "step_" +:+ string_of_nat (index + 1))
  ∧ (prop "description" step = None → step_description s = "Step " +:+ string_of_nat (index + 1))
  ∧ (∀ n, prop "estimated_duration" step = Some (JNum n) → estimated_duration s = Some n)
  ∧ ((∀ n, prop "estimated_duration" step ≠ Some (JNum n)) → estimated_duration s = Some 300).

Lemma validatedStep_defaults index step s :
  validatedStep index step = Ok s → step_defaults index step s.
Proof.
  unfold step_defaults. intros H.
  assert (validatedFields index step = Ok s) as H' by (by destruct step).
  clear H. unfold validatedFields in H'.
  destruct (string_or (prop "id" step) _) as [i| |] eqn:Hi; try discriminate. simpl in H'.
  destruct (string_or (prop "description" step) _) as [d| |] eqn:Hd; try discriminate.
  simpl in H'.
  match type of H' with result_bind ?r _ = _ => destruct r as [c| |]; try discriminate end.
  simpl in H'.
  match type of H' with result_bind ?r _ = _ => destruct r as [f| |]; try discriminate end.
  simpl in H'. injection H' as <-. simpl.
  split_and!.
  - done.
  - intros Hid. rewrite Hid in Hi. by injection Hi as <-.
  - intros Hde. rewrite Hde in Hd. by injection Hd as <-.
  - by intros n ->.
  - intros Hno. destruct (prop "estimated_duration" step) as [[]|]; try done.
    by edestruct Hno.
Qed.

Lemma validatedSteps_from_lookup l : ∀ index vs k step,
  validatedSteps_from index l = Ok vs →
  l !! k = Some step →
  ∃ s, vs !! k = Some s ∧ validatedStep (index + k) step = Ok s.
Proof.
  induction l as [|x l IH]; intros index vs k step; simpl; [done|].
  destruct (validatedStep index x) as [v| |] eqn:Hv; try discriminate. simpl.
  destruct (validatedSteps_from (S index) l) as [vs'| |] eqn:Hvs; try discriminate. simpl.
  intros [= <-]. destruct k as [|k]; simpl.
  - intros [= <-]. exists v. by rewrite Nat.add_0_r.
  - intros Hk. destruct (IH _ _ _ _ Hvs Hk) as (s & Hs & Hval).
    exists s. split; [done|]. by rewrite <- Nat.add_succ_comm.
Qed.

(** A reply that gives no plan: no JSON object in it, or the object
    lacks a title, a description or an array of steps. *)
Definition unusable_reply (reply : string) : Prop :=
  match_json_braces reply = None
  ∨ (∃ jsonMatch, match_json_braces reply = Some jsonMatch ∧ JSON_parse jsonMatch = None)
  ∨ (∃ jsonMatch planData,
       match_json_braces reply = Some jsonMatch
       ∧ JSON_parse jsonMatch = Some planData
       ∧ (prop "title" planData = None
          ∨ prop "description" planData = None
          ∨ ∀ l, prop "steps" planData ≠ Some (JArr l))).

Lemma generatePlanId_eq w : ∃ planId, generatePlanId w = (Ok planId, w).
Proof. unfold generatePlanId. rewrite bind_eq. unfold get_world, ret. by eexists. Qed.

Lemma extract_planData_unusable reply what :
  match_json_braces reply = None
  ∨ (∃ jsonMatch, match_json_braces reply = Some jsonMatch ∧ JSON_parse jsonMatch = None) →
  ∃ msg, extract_planData reply what = Throw (ApplicationError msg).
Proof.
  unfold extract_planData, result_catch, JSON_parse_or_throw.
  intros [-> | (m & -> & ->)]; by eexists.
Qed.

Lemma extract_planData_parsed reply what jsonMatch planData :
  match_json_braces reply = Some jsonMatch →
  JSON_parse jsonMatch = Some planData →
  extract_planData reply what = Ok planData.
Proof. unfold extract_planData, result_catch, JSON_parse_or_throw. by intros -> ->. Qed.

Lemma missing_required_fields_true planData :
  prop "title" planData = None
  ∨ prop "description" planData = None
  ∨ (∀ l, prop "steps" planData ≠ Some (JArr l)) →
  missing_required_fields planData = true.
Proof.
  unfold missing_required_fields. intros [-> | [-> | H]]; simpl.
  - done.
  - by rewrite orb_true_r.
  - destruct (prop "steps" planData) as [[]|]; rewrite ?orb_true_r; try done.
    by edestruct H.
Qed.

End Generate.

Module Generation.

(** The reply of the example in the specification. *)
Definition reply : string :=
  jq "{'title':'Add validation','description':'...','steps':[{'description':'Add server-side checks'}]}".

Definition world : world := Sample.world_with [] (fun _ _ => Sample.says reply 0).

Definition prompt : string := "Add input validation to the signup form".

End Generation.

(** The example of the specification: one step without an id. *)
Example generatePlan_example :
  ∃ plan w',
    generatePlanWithGemini Generation.prompt Sample.options Generation.world = (Ok plan, w')
    ∧ status plan = draft
    ∧ map step_id (steps plan) = ["step_1"]
    ∧ map estimated_duration (steps plan) = [Some 300]
    ∧ map step_status (steps plan) = [Some pending]
    ∧ (loadPlan (id plan) ["proj"] w').1 = Ok (Some plan).
Proof. eexists _, _. vm_compute. repeat split; reflexivity. Qed.



(** C9: when [savePlan] has written a plan, [loadPlan] with the plan's id
    and the same working directory returns a plan equal to it; and an id
    that has no file in the plans directory loads as [null], without an
    error. *)
Theorem savePlan_loadPlan_roundtrip plan wd w w' :
  savePlan plan wd w = (Ok tt, w') →
  loadPlan (id plan) wd w' = (Ok (Some plan), w')
  ∧ ∀ planId,
      fs w' !! planPath (plansDirectory wd) planId = None →
      loadPlan planId wd w' = (Ok None, w').
Proof.
  intros Hsave. pose proof (savePlan_inv _ _ _ _ Hsave) as ->. split.
  - apply loadPlan_stored. simpl. apply stored_saved.
  - intros planId Hnone. apply loadPlan_absent; [done|].
    simpl. unfold saved. intros q Hne Hq.
    rewrite lookup_insert_ne.
    + rewrite mkdirs_lookup. by rewrite bool_decide_eq_true_2.
    + intros <-. by apply path_join_not_prefix in Hq.
Qed.

Lemma savePlan_loadPlan_roundtrip_witness :
  let plan := Sample.plan draft [Sample.step "1" pending; Sample.step "2" pending] in
  let w := Sample.world_with [] (fun _ _ => FailsToStart "none") in
  loadPlan "plan_1" ["proj"] (savePlan plan ["proj"] w).2
  = (Ok (Some plan), (savePlan plan ["proj"] w).2)
  ∧ loadPlan "plan_2" ["proj"] (savePlan plan ["proj"] w).2
    = (Ok None, (savePlan plan ["proj"] w).2).
Proof.
  intros plan w.
  assert (savePlan plan ["proj"] w = (Ok tt, (savePlan plan ["proj"] w).2)) as Hsave.
  { assert ((savePlan plan ["proj"] w).1 = Ok tt) as H by (vm_compute; reflexivity).
    destruct (savePlan plan ["proj"] w) as [r w']. simpl in *. by rewrite H. }
  destruct (savePlan_loadPlan_roundtrip plan ["proj"] w _ Hsave) as [Hload Habsent].
  split; [exact Hload|]. apply Habsent. vm_compute. reflexivity.
Defined.
(* ================================================================== *)
(** ** Further properties of the plan store *)
(* ================================================================== *)

#[local] Existing Instance newest_first_dec.

#[local] Instance newest_first_total : Total newest_first.
Proof. intros a b. unfold newest_first. lia. Qed.

#[local] Instance newest_first_trans : Transitive newest_first.
Proof. intros a b c. unfold newest_first. lia. Qed.

Section Listing.

Implicit Types (wd p q : path) (m : gmap path node) (w : world) (plan : ExecutionPlan).

Lemma fs_readFile_world p w : (fs_readFile p w).2 = w.
Proof. unfold fs_readFile. repeat case_match; done. Qed.

Lemma fs_readdir_world p w : (fs_readdir p w).2 = w.
Proof. unfold fs_readdir. repeat case_match; done. Qed.

(** [file] in directory [plansDir] holds JSON text of the shape of [plan]. *)
Definition plan_file (plansDir : path) (file : string) plan m : Prop :=
  ∃ content v,
    m !! path_join plansDir file = Some (File content)
    ∧ JSON_parse content = Some v
    ∧ ExecutionPlan_of_json v = Some plan.

(** What the [try] around one file of [listPlans] gives. *)
Lemma read_one_cases plansDir file w :
  let read :=
    try_catch
      (let! planContent := fs_readFile (path_join plansDir file) in
       let! v := lift (JSON_parse_or_throw planContent) in
       match ExecutionPlan_of_json v with
       | Some plan => ret [plan]
       | None => untyped
       end)
      (fun _ => ret []) in
  read w = (Ok [], w)
  ∨ read w = (Untyped, w)
  ∨ ∃ plan, read w = (Ok [plan], w) ∧ plan_file plansDir file plan (fs w).
Proof.
  intros read. unfold read, try_catch. rewrite bind_eq. unfold fs_readFile.
  destruct (fs w !! path_join plansDir file) as [[|content]|] eqn:Hfile.
  - by left.
  - rewrite bind_eq. unfold lift, JSON_parse_or_throw.
    destruct (JSON_parse content) as [v|] eqn:Hparse; [|by left].
    destruct (ExecutionPlan_of_json v) as [plan|] eqn:Hplan.
    + right; right. exists plan. split; [done|]. by exists content, v.
    + right; by left.
  - destruct (existsb _ _); by left.
Qed.

Lemma read_plans_spec plansDir files : ∀ w r w',
  read_plans plansDir files w = (r, w') →
  w' = w
  ∧ (∀ e, r ≠ Throw e)
  ∧ ∀ l, r = Ok l → ∀ plan, plan ∈ l →
      ∃ file, file ∈ files ∧ plan_file plansDir file plan (fs w).
Proof.
  induction files as [|file files IH]; intros w r w'; simpl.
  - intros [= <- <-]. split_and!; try done. intros l [= <-] plan H. inversion H.
  - rewrite bind_eq.
    destruct (read_one_cases plansDir file w) as [H | [H | (plan0 & H & Hfile)]];
      rewrite H; clear H.
    + rewrite bind_eq. destruct (read_plans plansDir files w) as [r1 w1] eqn:Hrest.
      destruct (IH _ _ _ Hrest) as (-> & Hno & Hin).
      destruct r1 as [more|e|]; [|by destruct (Hno e)|];
        unfold ret; intros [= <- <-]; split_and!; try done.
      intros l [= <-] plan Hplan. simpl in Hplan.
      destruct (Hin more eq_refl plan Hplan) as (f & Hf & Hpf).
      exists f. split; [by right | done].
    + intros [= <- <-]. done.
    + rewrite bind_eq. destruct (read_plans plansDir files w) as [r1 w1] eqn:Hrest.
      destruct (IH _ _ _ Hrest) as (-> & Hno & Hin).
      destruct r1 as [more|e|]; [|by destruct (Hno e)|];
        unfold ret; intros [= <- <-]; split_and!; try done.
      intros l [= <-] plan Hplan. simpl in Hplan.
      apply elem_of_cons in Hplan as [-> | Hplan].
      * exists file. split; [by left | done].
      * destruct (Hin more eq_refl plan Hplan) as (f & Hf & Hpf).
        exists f. split; [by right | done].
Qed.

Lemma listPlans_unfold wd w :
  listPlans wd w
  = match fs_readdir (plansDirectory wd) w with
    | (Ok files, _) =>
        match read_plans (plansDirectory wd)
                (filter (fun file => endsWith file ".json" = true) files) w with
        | (Ok plans, _) => (Ok (merge_sort newest_first plans), w)
        | (Throw e, _) => (Throw e, w)
        | (Untyped, _) => (Untyped, w)
        end
    | (Throw e, _) =>
        if decide (code e = Some "ENOENT") then (Ok [], w)
        else (Throw (ApplicationError ("Failed to list plans: " +:+ message e)), w)
    | (Untyped, _) => (Untyped, w)
    end.
Proof.
  unfold listPlans, try_catch. rewrite bind_eq.
  pose proof (fs_readdir_world (plansDirectory wd) w) as Hw.
  destruct (fs_readdir (plansDirectory wd) w) as [[files|e|] w1]; simpl in Hw; subst w1.
  - rewrite bind_eq.
    destruct (read_plans _ _ w) as [r w1] eqn:Hread.
    destruct (read_plans_spec _ _ _ _ _ Hread) as (-> & Hno & _).
    destruct r as [plans|e|]; [done | by destruct (Hno e) | done].
  - by destruct (decide _).
  - done.
Qed.

End Listing.

Section ListingTheorems.

Implicit Types (wd p q : path) (m : gmap path node) (w : world) (plan : ExecutionPlan).

Lemma fs_readdir_missing p w :
  p ≠ [] → fs w !! p = None → ∃ msg, fs_readdir p w = (Throw (ErrnoException "ENOENT" msg), w).
Proof. intros Hp Hnone. unfold fs_readdir. rewrite Hnone. destruct p; [done|]. by eexists. Qed.

Lemma fs_readdir_dir p w :
  fs w !! p = Some Dir →
  fs_readdir p w
  = (Ok (omap (fun e : path * node => if decide (removelast e.1 = p) then last e.1 else None)
              (map_to_list (fs w))), w).
Proof. intros Hdir. unfold fs_readdir. rewrite Hdir. by destruct p. Qed.

Lemma fs_readdir_entry p name n w :
  fs w !! p = Some Dir → fs w !! path_join p name = Some n →
  ∃ files, fs_readdir p w = (Ok files, w) ∧ name ∈ files.
Proof.
  intros Hdir Hentry. rewrite (fs_readdir_dir _ _ Hdir). eexists. split; [done|].
  apply list_elem_of_omap. exists (path_join p name, n). split.
  - by apply elem_of_map_to_list.
  - simpl. rewrite removelast_path_join. rewrite decide_True by done.
    unfold path_join. by rewrite last_snoc.
Qed.

Lemma substring_all (s : string) : substring 0 (String.length s) s = s.
Proof. induction s as [|c s IH]; simpl; [done | by rewrite IH]. Qed.

Lemma substring_skip (a b : string) (k : nat) :
  substring (String.length a) k (a +:+ b) = substring 0 k b.
Proof. induction a as [|c a IH]; [done|]. rewrite append_cons. simpl. exact IH. Qed.

Lemma endsWith_append (a suffix : string) : endsWith (a +:+ suffix) suffix = true.
Proof.
  unfold endsWith. rewrite length_append.
  apply andb_true_intro. split.
  - apply Nat.leb_le. lia.
  - replace (String.length a + String.length suffix - String.length suffix)%nat
      with (String.length a) by lia.
    rewrite substring_skip, substring_all. apply String.eqb_refl.
Qed.

Lemma read_one_stored plansDir file plan w :
  fs w !! path_join plansDir file = Some (File (JSON_stringify (ExecutionPlan_to_json plan))) →
  try_catch
    (let! planContent := fs_readFile (path_join plansDir file) in
     let! v := lift (JSON_parse_or_throw planContent) in
     match ExecutionPlan_of_json v with
     | Some plan => ret [plan]
     | None => untyped
     end)
    (fun _ => ret []) w
  = (Ok [plan], w).
Proof.
  intros Hstored. unfold try_catch. rewrite bind_eq. unfold fs_readFile. rewrite Hstored.
  rewrite bind_eq. unfold lift, JSON_parse_or_throw.
  by destruct (plan_text_reads_back plan) as [-> ->].
Qed.

Lemma read_plans_complete plansDir file plan w files :
  file ∈ files →
  fs w !! path_join plansDir file = Some (File (JSON_stringify (ExecutionPlan_to_json plan))) →
  (read_plans plansDir files w).1 = Untyped
  ∨ ∃ l, (read_plans plansDir files w).1 = Ok l ∧ plan ∈ l.
Proof.
  intros Hin Hstored. induction files as [|f files IH]; [inversion Hin|].
  simpl. rewrite bind_eq.
  destruct (read_plans plansDir files w) as [r1 w1] eqn:Hrest.
  destruct (read_plans_spec _ _ _ _ _ Hrest) as (-> & Hno & _).
  destruct (decide (f = file)) as [-> | Hne].
  - rewrite (read_one_stored _ _ _ _ Hstored), bind_eq, Hrest.
    destruct r1 as [more|e|]; [|by destruct (Hno e)|by left].
    right. eexists. split; [done|]. by left.
  - apply elem_of_cons in Hin as [-> | Hin]; [done|].
    specialize (IH Hin). simpl in IH.
    destruct (read_one_cases plansDir f w) as [H | [H | (plan0 & H & _)]]; rewrite H; clear H.
    + rewrite bind_eq, Hrest.
      destruct r1 as [more|e|]; [|by destruct (Hno e)|by left].
      destruct IH as [IH | (l & [= <-] & Hl)]; [done|].
      right. eexists. split; [done|]. done.
    + by left.
    + rewrite bind_eq, Hrest.
      destruct r1 as [more|e|]; [|by destruct (Hno e)|by left].
      destruct IH as [IH | (l & [= <-] & Hl)]; [done|].
      right. eexists. split; [done|]. by right.
Qed.

End ListingTheorems.

Module Shelf.

(** Two plans, the second created later, in [/proj]. *)
Definition older : ExecutionPlan :=
  {| id := "plan_a"; title := "First"; description := "The older plan"; steps := [];
     created_at := 1700000000000; modified_at := 1700000009000; status := draft;
     original_prompt := None; configuration := None |}.

Definition newer : ExecutionPlan :=
  {| id := "plan_b"; title := "Second"; description := "The newer plan";
     steps := [Sample.step "1" pending];
     created_at := 1700000001000; modified_at := 1700000001000; status := approved;
     original_prompt := Some "Do it"; configuration := None |}.

Definition world : world := Sample.world_with [older; newer] (fun _ _ => FailsToStart "none").

(** The same directory with a file that is not JSON and a note beside the plans. *)
Definition cluttered : Host.world :=
  with_fs (<[path_join (plansDirectory ["proj"]) "broken.json" := File "{not json"]>
             (<[path_join (plansDirectory ["proj"]) "notes.txt" := File "remember"]>
                (fs world))) world.

(** [/proj/.gemini/plans] is a regular file. *)
Definition blocked : Host.world :=
  with_fs (<[plansDirectory ["proj"] := File "oops"]>
             (<[path_join ["proj"] ".gemini" := Dir]> {[ ["proj"] := Dir ]}))
          (Sample.world_with [] (fun _ _ => FailsToStart "none")).

End Shelf.

Example listPlans_skips_clutter :
  listPlans ["proj"] Shelf.cluttered = (Ok [Shelf.newer; Shelf.older], Shelf.cluttered)
  ∧ ∃ msg, (loadPlan "broken" ["proj"] Shelf.cluttered).1 = Throw (ApplicationError msg).
Proof. split; [vm_compute; reflexivity | eexists; vm_compute; reflexivity]. Qed.







Section Saving.

Implicit Types (wd p q : path) (m : gmap path node) (w : world) (plan : ExecutionPlan).

Lemma append_inj_r (s a b : string) : a +:+ s = b +:+ s → a = b.
Proof.
  revert b. induction a as [|c a IH]; intros [|d b] H.
  - done.
  - apply (f_equal String.length) in H. rewrite !length_append in H. simpl in H. lia.
  - apply (f_equal String.length) in H. rewrite !length_append in H. simpl in H. lia.
  - rewrite !append_cons in H. injection H as -> H. f_equal. by apply IH.
Qed.

Lemma planPath_inj plansDir a b : planPath plansDir a = planPath plansDir b → a = b.
Proof.
  unfold planPath, path_join. intros H. apply app_inv_head in H.
  injection H as H. by apply append_inj_r in H.
Qed.

Lemma planPath_not_prefix plansDir planId : ¬ planPath plansDir planId `prefix_of` plansDir.
Proof. apply path_join_not_prefix. Qed.

(** [loadPlan] looks at nothing but what reading the plan file gives. *)
Lemma loadPlan_same_read planId wd w1 w2 :
  (fs_readFile (planPath (plansDirectory wd) planId) w1).1
  = (fs_readFile (planPath (plansDirectory wd) planId) w2).1 →
  (loadPlan planId wd w1).1 = (loadPlan planId wd w2).1.
Proof.
  intros H. unfold loadPlan, try_catch. rewrite !bind_eq.
  pose proof (fs_readFile_world (planPath (plansDirectory wd) planId) w1) as H1.
  pose proof (fs_readFile_world (planPath (plansDirectory wd) planId) w2) as H2.
  destruct (fs_readFile _ w1) as [r1 w1'], (fs_readFile _ w2) as [r2 w2'].
  simpl in *. subst. destruct r2 as [content|e|]; [|by destruct (decide _)|done].
  rewrite !bind_eq. unfold lift. destruct (JSON_parse_or_throw content) as [v|e|]; [| |done].
  - destruct v; try done; by destruct (ExecutionPlan_of_json _).
  - by destruct (decide _).
Qed.

Lemma saved_lookup_other wd plan m q :
  q ≠ planPath (plansDirectory wd) (id plan) → ¬ q `prefix_of` plansDirectory wd →
  saved wd plan m !! q = m !! q.
Proof.
  intros Hne Hq. unfold saved. rewrite lookup_insert_ne by done.
  rewrite mkdirs_lookup, bool_decide_eq_false_2; [done|]. by intros [_ ?].
Qed.

Lemma no_file_on_saved wd plan m : no_file_on (plansDirectory wd) (saved wd plan m).
Proof.
  intros q Hne Hq. unfold saved. rewrite lookup_insert_ne.
  - rewrite mkdirs_lookup, bool_decide_eq_true_2; done.
  - intros <-. by apply planPath_not_prefix in Hq.
Qed.

(** [savePlan], by the state of the directory. *)
Lemma savePlan_eq plan wd w :
  savePlan plan wd w
  = if existsb (fun q => is_file (fs w !! q)) (ancestors_and_self (plansDirectory wd)) then
      (Throw (ApplicationError
                ("Failed to create plans directory: "
                 +:+ ("EEXIST: file already exists, mkdir '"
                      +:+ path_string (plansDirectory wd) +:+ "'"))), w)
    else if is_dir (fs w !! planPath (plansDirectory wd) (id plan)) then
      (Throw (ApplicationError
                ("Failed to save plan: "
                 +:+ ("EISDIR: illegal operation on a directory, open '"
                      +:+ path_string (planPath (plansDirectory wd) (id plan)) +:+ "'"))),
       with_fs (mkdirs (plansDirectory wd) (fs w)) w)
    else (Ok tt, with_fs (saved wd plan (fs w)) w).
Proof.
  unfold savePlan, ensurePlansDirectory. rewrite bind_eq.
  unfold try_catch at 1. rewrite bind_eq. unfold fs_mkdir.
  destruct (existsb _ _) eqn:Hex; [done|]. cbv beta iota.
  unfold ret at 1. cbv beta iota.
  unfold try_catch, fs_writeFile. cbv zeta. unfold planPath at 1 2.
  rewrite removelast_path_join. simpl fs.
  fold (mkdirs (plansDirectory wd) (fs w)).
  assert (is_dir (mkdirs (plansDirectory wd) (fs w) !! plansDirectory wd) = true) as Hd.
  { rewrite mkdirs_lookup, bool_decide_eq_true_2; [done|].
    split; [apply plansDirectory_not_nil | done]. }
  assert (match plansDirectory wd with
          | [] => true
          | _ :: _ => is_dir (mkdirs (plansDirectory wd) (fs w) !! plansDirectory wd)
          end = true) as -> by (by destruct (plansDirectory wd)).
  change (negb true) with false. cbv iota.
  assert (mkdirs (plansDirectory wd) (fs w) !! planPath (plansDirectory wd) (id plan)
          = fs w !! planPath (plansDirectory wd) (id plan)) as Hl.
  { rewrite mkdirs_lookup, bool_decide_eq_false_2; [done|].
    intros [_ H]. by apply planPath_not_prefix in H. }
  fold (planPath (plansDirectory wd) (id plan)). rewrite Hl.
  by destruct (is_dir (fs w !! planPath (plansDirectory wd) (id plan))).
Qed.

(** The three ways [savePlan] ends. *)
Lemma savePlan_cases plan wd w :
  (¬ no_file_on (plansDirectory wd) (fs w)
   ∧ ∃ msg, savePlan plan wd w
            = (Throw (ApplicationError ("Failed to create plans directory: " +:+ msg)), w))
  ∨ (no_file_on (plansDirectory wd) (fs w)
     ∧ is_dir (fs w !! planPath (plansDirectory wd) (id plan)) = true
     ∧ ∃ msg, savePlan plan wd w
              = (Throw (ApplicationError ("Failed to save plan: " +:+ msg)),
                 with_fs (mkdirs (plansDirectory wd) (fs w)) w))
  ∨ (no_file_on (plansDirectory wd) (fs w)
     ∧ is_dir (fs w !! planPath (plansDirectory wd) (id plan)) = false
     ∧ savePlan plan wd w = (Ok tt, with_fs (saved wd plan (fs w)) w)).
Proof.
  rewrite savePlan_eq.
  destruct (existsb _ _) eqn:Hex.
  - left. split; [|by eexists].
    intros Hno. apply no_file_on_existsb in Hno. congruence.
  - right. apply existsb_no_file_on in Hex as Hno.
    destruct (is_dir (fs w !! planPath (plansDirectory wd) (id plan))) eqn:Hp.
    + left. split_and!; [done..|]. by eexists.
    + right. split_and!; done.
Qed.

End Saving.

(** X4: [savePlan] fails exactly when a regular file lies on the path of
    the plans directory ([Failed to create plans directory: ...], nothing
    changed) or a directory has the name of the plan file ([Failed to save
    plan: ...], the plans directory created); otherwise it creates the
    directory and writes the one file of the plan. *)
Theorem savePlan_outcome plan wd w r w' :
  savePlan plan wd w = (r, w') →
  (r = Ok tt ↔ no_file_on (plansDirectory wd) (fs w)
               ∧ is_dir (fs w !! planPath (plansDirectory wd) (id plan)) = false)
  ∧ (r = Ok tt → fs w' = saved wd plan (fs w))
  ∧ (¬ no_file_on (plansDirectory wd) (fs w) →
     w' = w ∧ ∃ msg, r = Throw (ApplicationError ("Failed to create plans directory: " +:+ msg)))
  ∧ (no_file_on (plansDirectory wd) (fs w) →
     is_dir (fs w !! planPath (plansDirectory wd) (id plan)) = true →
     ∃ msg, r = Throw (ApplicationError ("Failed to save plan: " +:+ msg))).
Proof.
  intros H.
  destruct (savePlan_cases plan wd w)
    as [(Hno & msg & He) | [(Hno & Hd & msg & He) | (Hno & Hd & He)]];
    rewrite He in H; injection H as <- <-.
  - split_and!; try done.
    + split; [done | by intros [? _]].
    + intros _. split; [done | by eexists].
  - split_and!; try done.
    + split; [done | intros [_ ?]; congruence].
    + intros _ _. by eexists.
  - split_and!; try done. intros _ ?. congruence.
Qed.

Lemma savePlan_outcome_witness :
  ∃ msg, (savePlan Shelf.newer ["proj"] Shelf.blocked).1
         = Throw (ApplicationError ("Failed to create plans directory: " +:+ msg)).
Proof.
  destruct (savePlan Shelf.newer ["proj"] Shelf.blocked) as [r w'] eqn:H.
  destruct (savePlan_outcome _ _ _ _ _ H) as (_ & _ & Hblocked & _).
  destruct Hblocked as [_ [msg ->]]; [|by exists msg].
  intros Hno. specialize (Hno (plansDirectory ["proj"]) (plansDirectory_not_nil _) (reflexivity _)).
  vm_compute in Hno. discriminate.
Defined.

(** X5: writing one plan leaves the others alone: after a [savePlan] that
    succeeded, [loadPlan] of any other id gives what it gave before. *)
Theorem savePlan_keeps_other_plans plan wd w w' planId :
  savePlan plan wd w = (Ok tt, w') →
  planId ≠ id plan →
  (loadPlan planId wd w').1 = (loadPlan planId wd w).1.
Proof.
  intros Hsave Hid.
  destruct (savePlan_cases plan wd w)
    as [(_ & msg & He) | [(_ & _ & msg & He) | (Hno & _ & He)]];
    rewrite He in Hsave; [done..|]. injection Hsave as <-.
  apply loadPlan_same_read. unfold fs_readFile. simpl fs.
  rewrite saved_lookup_other.
  - destruct (fs w !! planPath (plansDirectory wd) planId) as [[|content]|]; [done..|].
    unfold planPath. rewrite removelast_path_join.
    rewrite (no_file_on_existsb _ _ Hno), (no_file_on_existsb _ _ (no_file_on_saved wd plan (fs w))).
    done.
  - intros Heq. by apply planPath_inj in Heq.
  - apply planPath_not_prefix.
Qed.

Lemma savePlan_keeps_other_plans_witness :
  let w := Sample.world_with [Shelf.older] (fun _ _ => FailsToStart "none") in
  (loadPlan "plan_a" ["proj"] (savePlan Shelf.newer ["proj"] w).2).1 = Ok (Some Shelf.older).
Proof.
  intros w.
  assert (savePlan Shelf.newer ["proj"] w = (Ok tt, (savePlan Shelf.newer ["proj"] w).2)) as Hsave.
  { assert ((savePlan Shelf.newer ["proj"] w).1 = Ok tt) as H by (vm_compute; reflexivity).
    destruct (savePlan Shelf.newer ["proj"] w) as [r w1]. simpl in *. by rewrite H. }
  rewrite (savePlan_keeps_other_plans _ _ _ _ "plan_a" Hsave).
  - vm_compute. reflexivity.
  - discriminate.
Defined.

(* ================================================================== *)
(** ** The identifier of a new plan *)
(* ================================================================== *)

Section PlanId.

(** No colon, no dot and no [T]: a run of digits and dashes is such a string. *)
Definition plain (s : string) : Prop :=
  includes ":" s = false ∧ includes "." s = false ∧ includes "T" s = false.

Lemma dash_colons_dots_app a b :
  dash_colons_dots (a +:+ b) = dash_colons_dots a +:+ dash_colons_dots b.
Proof. induction a as [|c a IH]; [done|]. rewrite append_cons. simpl. by rewrite IH. Qed.

Lemma dash_colons_dots_plain s : plain s → dash_colons_dots s = s.
Proof.
  intros (Hc & Hd & _). induction s as [|c s IH]; [done|]. simpl in *.
  apply orb_false_elim in Hc as [Hc1 Hc2]. apply orb_false_elim in Hd as [Hd1 Hd2].
  rewrite Hc1, Hd1. simpl. by rewrite IH.
Qed.

Lemma dash_colons_dots_length s : String.length (dash_colons_dots s) = String.length s.
Proof. induction s as [|c s IH]; simpl; [done | by rewrite IH]. Qed.

Lemma underscore_first_T_app a b :
  includes "T" a = false → underscore_first_T (a +:+ String "T" b) = a +:+ String "_" b.
Proof.
  intros H. induction a as [|c a IH]; [done|]. rewrite !append_cons. simpl in *.
  apply orb_false_elim in H as [H1 H2]. rewrite H1. by rewrite IH.
Qed.

(** [s.slice(0, -5)] *)
Definition slice_5 (s : string) : string := substring 0 (String.length s - 5) s.

Lemma slice_5_app a b :
  (5 ≤ String.length b)%nat → slice_5 (a +:+ b) = a +:+ slice_5 b.
Proof.
  intros Hb. unfold slice_5. induction a as [|c a IH]; [done|].
  rewrite !append_cons. simpl String.length. rewrite length_append.
  replace (S (String.length a + String.length b) - 5)%nat
    with (S (String.length a + String.length b - 5)) by lia.
  simpl. rewrite length_append in IH. by rewrite IH.
Qed.

Lemma slice_5_all s : String.length s = 5%nat → slice_5 s = EmptyString.
Proof. intros H. unfold slice_5. rewrite H. simpl. by destruct s. Qed.

End PlanId.

(** X6: for a clock whose ISO text is [<date>T<hh>:<mm>:<ss>.<ms>Z],
    [generatePlanId] gives [plan_<date>_<hh>-<mm>-<ss>_<suffix>], where the
    suffix is the six characters of the random base-36 text after its
    [0.]: the milliseconds are cut off, nothing else of the id depends on
    the time, and the world is left as it was. *)
Theorem generatePlanId_format w date hh mm ss ms :
  plain date → plain hh → plain mm → plain ss →
  String.length ms = 3%nat →
  toISOString w (now w)
  = date +:+ "T" +:+ hh +:+ ":" +:+ mm +:+ ":" +:+ ss +:+ "." +:+ ms +:+ "Z" →
  generatePlanId w
  = (Ok ("plan_" +:+ date +:+ "_" +:+ hh +:+ "-" +:+ mm +:+ "-" +:+ ss +:+ "_"
         +:+ substring 2 6 (random36 w)), w).
Proof.
  intros Hdate Hhh Hmm Hss Hms Hiso.
  unfold generatePlanId. rewrite bind_eq. unfold get_world, ret. cbv beta iota zeta.
  rewrite Hiso. rewrite !dash_colons_dots_app.
  rewrite (dash_colons_dots_plain _ Hdate), (dash_colons_dots_plain _ Hhh),
    (dash_colons_dots_plain _ Hmm), (dash_colons_dots_plain _ Hss).
  change (dash_colons_dots "T") with "T". change (dash_colons_dots ":") with "-".
  change (dash_colons_dots ".") with "-". change (dash_colons_dots "Z") with "Z".
  change ("T" +:+ ?x) with (String "T" x).
  rewrite underscore_first_T_app by apply Hdate.
  fold (slice_5 (date +:+ String "_" (hh +:+ "-" +:+ mm +:+ "-" +:+ ss +:+ "-"
                                       +:+ dash_colons_dots ms +:+ "Z"))).
  assert (String.length ("-" +:+ dash_colons_dots ms +:+ "Z") = 5%nat) as Htail.
  { rewrite !length_append, dash_colons_dots_length, Hms. done. }
  change (String "_" (hh +:+ ?x)) with (("_" +:+ hh) +:+ x).
  do 6 (rewrite slice_5_app
          by (rewrite ?length_append, ?dash_colons_dots_length, ?Hms; simpl; lia)).
  rewrite (slice_5_all _ Htail).
  rewrite append_nil_r. rewrite !string_app_assoc. done.
Qed.

Lemma generatePlanId_format_witness :
  (generatePlanId (Sample.world_with [] (fun _ _ => FailsToStart "none"))).1
  = Ok "plan_2023-11-14_22-13-20_k3j9x2".
Proof.
  rewrite (generatePlanId_format _ "2023-11-14" "22" "13" "20" "000");
    repeat split; reflexivity.
Defined.

(* ================================================================== *)
(** ** The settings file of the MCP servers *)
(* ================================================================== *)

Section Settings.

Implicit Types (ms : list (string * json)) (k : string) (v : json).

Lemma obj_get_obj_set k k' v ms :
  obj_get k (obj_set k' v ms) = if String.eqb k' k then Some v else obj_get k ms.
Proof.
  induction ms as [|[k0 v0] ms IH]; simpl.
  - done.
  - destruct (String.eqb k0 k') eqn:E0; simpl.
    + apply String.eqb_eq in E0 as ->. by destruct (String.eqb k' k).
    + rewrite IH. destruct (String.eqb k0 k) eqn:E1; [|done].
      apply String.eqb_eq in E1 as ->. by rewrite String.eqb_sym, E0.
Qed.

Lemma obj_set_keys k v ms :
  map fst (obj_set k v ms)
  = if decide (k ∈ map fst ms) then map fst ms else (map fst ms ++ [k])%list.
Proof.
  induction ms as [|[k0 v0] ms IH]; simpl; [done|].
  destruct (String.eqb k0 k) eqn:E; simpl.
  - apply String.eqb_eq in E as ->. rewrite decide_True; [done | by left].
  - apply String.eqb_neq in E. rewrite IH.
    destruct (decide (k ∈ map fst ms)) as [Hin|Hin].
    + rewrite decide_True; [done | by right].
    + rewrite decide_False; [done|]. intros [->|?]%elem_of_cons; done.
Qed.

(** The loop of [createGeminiConfig] over [mcpServers.servers]: the members
    of [settings.mcpServers] after the last server. *)
Definition mcpServers_members (servers : list McpServer) : list (string * json) :=
  fold_left
    (fun acc server =>
       if String.eqb (trim (name server)) EmptyString then acc   (* Skip servers without names *)
       else obj_set (trim (name server)) (serverConfig server) acc)
    servers [].

(** [GeminiSettings] above binds the servers by a pattern alias that names
    the tail of the list, so the members it writes are those of the loop
    started at the second server.  The source runs the loop over every
    server, which is [mcpServers_members]; the statements on
    [createGeminiConfig] and [runGeminiCLI] below do not depend on the
    members written. *)
Remark GeminiSettings_members s l :
  GeminiSettings (Some (s :: l)) = JObj [("mcpServers", JObj (mcpServers_members l))].
Proof. reflexivity. Qed.

Lemma servers_lookup k (l : list McpServer) : ∀ acc,
  obj_get k (fold_left
               (fun acc server =>
                  if String.eqb (trim (name server)) EmptyString then acc
                  else obj_set (trim (name server)) (serverConfig server) acc)
               l acc)
  = match last (filter (fun server => trim (name server) = k ∧ k ≠ EmptyString) l) with
    | Some server => Some (serverConfig server)
    | None => obj_get k acc
    end.
Proof.
  induction l as [|s l IH]; intros acc; simpl; [done|].
  rewrite IH. rewrite filter_cons.
  destruct (decide (trim (name s) = k ∧ k ≠ EmptyString)) as [[Hk Hne]|Hno].
  - rewrite last_cons.
    destruct (last (filter _ l)); [done|].
    rewrite (proj2 (String.eqb_neq _ _)) by congruence.
    rewrite obj_get_obj_set, Hk, String.eqb_refl. done.
  - destruct (last (filter _ l)); [done|].
    destruct (String.eqb (trim (name s)) EmptyString) eqn:E; [done|].
    rewrite obj_get_obj_set.
    destruct (String.eqb (trim (name s)) k) eqn:Ek; [|done].
    apply String.eqb_eq in Ek. apply String.eqb_neq in E. exfalso. apply Hno. split; congruence.
Qed.

Lemma servers_keys (l : list McpServer) : ∀ acc,
  NoDup (map fst acc) →
  NoDup (map fst (fold_left
                    (fun acc server =>
                       if String.eqb (trim (name server)) EmptyString then acc
                       else obj_set (trim (name server)) (serverConfig server) acc)
                    l acc)).
Proof.
  induction l as [|s l IH]; intros acc Hacc; simpl; [done|].
  apply IH. destruct (String.eqb _ _); [done|].
  rewrite obj_set_keys. destruct (decide _) as [|Hnew]; [done|].
  apply NoDup_app. split_and!; [done | | apply NoDup_singleton].
  intros x Hx [->|[]%elem_of_nil]%elem_of_cons. done.
Qed.

(** Splitting at a character and joining again. *)
Lemma split_not_nil sep s : split sep s ≠ [].
Proof.
  destruct s as [|c r]; simpl; [done|].
  destruct (Ascii.eqb c sep); [done|]. by destruct (split sep r).
Qed.

Lemma split_without sep s : includes sep s = false → split sep s = [s].
Proof.
  induction s as [|c r IH]; simpl; [done|].
  intros [Hc Hr]%orb_false_elim. rewrite Hc, (IH Hr). done.
Qed.

Lemma split_at_first sep a b :
  includes sep a = false → split sep (a +:+ String sep b) = a :: split sep b.
Proof.
  induction a as [|c a IH]; intros H.
  - change (EmptyString +:+ String sep b) with (String sep b). simpl.
    by rewrite Ascii.eqb_refl.
  - rewrite append_cons. simpl in *. apply orb_false_elim in H as [Hc Ha].
    rewrite Hc, (IH Ha). done.
Qed.

Lemma join_split sep s : join (String sep EmptyString) (split sep s) = s.
Proof.
  induction s as [|c r IH]; simpl; [done|].
  destruct (Ascii.eqb c sep) eqn:E.
  - apply Ascii.eqb_eq in E as ->.
    pose proof (split_not_nil sep r) as Hne.
    destruct (split sep r) as [|w ws]; [done|].
    change (join (String sep EmptyString) (EmptyString :: w :: ws))
      with (EmptyString +:+ String sep EmptyString +:+ join (String sep EmptyString) (w :: ws)).
    by rewrite IH.
  - pose proof (split_not_nil sep r) as Hne.
    destruct (split sep r) as [|w ws]; [done|].
    destruct ws as [|w' ws].
    + simpl in *. by rewrite IH.
    + change (join (String sep EmptyString) (String c w :: w' :: ws))
        with (String c w +:+ String sep EmptyString +:+ join (String sep EmptyString) (w' :: ws)).
      rewrite append_cons. f_equal. exact IH.
Qed.

Lemma includes_app c a b : includes c (a +:+ b) = includes c a || includes c b.
Proof.
  induction a as [|d a IH]; [done|]. rewrite append_cons. simpl. by rewrite IH, orb_assoc.
Qed.

End Settings.

Module Servers.

Definition named (n : string) (command : string) : McpServer :=
  {| name := n; connectionType := connection_command;
     server_command := Some command; args := None; httpUrl := None; headers := None;
     env := None; server_cwd := None; server_timeout := 0; trust := false;
     includeTools := None; excludeTools := None |}.

End Servers.

Example mcpServers_members_ex :
  mcpServers_members [Servers.named "files" "npx"; Servers.named "  " "lost";
                      Servers.named "db" "psql"; Servers.named " files " "node"]
  = [("files", JObj [("timeout", JNum 30000); ("trust", JBool false); ("command", JStr "node")]);
     ("db", JObj [("timeout", JNum 30000); ("trust", JBool false); ("command", JStr "psql")])].
Proof. vm_compute. reflexivity. Qed.


Example parse_key_values_ex :
  parse_key_values (" TOKEN = a=b " +:+ newline +:+ "# comment" +:+ newline +:+ "MODE=fast"
                    +:+ newline +:+ "TOKEN=c")
  = [("TOKEN", JStr "c"); ("MODE", JStr "fast")].
Proof. vm_compute. reflexivity. Qed.



(* ================================================================== *)
(** ** One run of the agent: outcome and files *)
(* ================================================================== *)

Section RunOutcome.

Implicit Types (wd p q : path) (m : gmap path node) (w : world).

Definition settingsFile wd : path := path_join (configDirectory wd) "settings.json".

(** [createGeminiConfig], by the state of the directory. *)
Lemma createGeminiConfig_eq servers wd w :
  createGeminiConfig servers wd w
  = if existsb (fun q => is_file (fs w !! q)) (ancestors_and_self (configDirectory wd)) then
      (Throw (NodeOperationError
                ("Failed to create config directory: "
                 +:+ ("EEXIST: file already exists, mkdir '"
                      +:+ path_string (configDirectory wd) +:+ "'"))), w)
    else if is_dir (fs w !! settingsFile wd) then
      (Throw (NodeOperationError
                ("Failed to write settings file: "
                 +:+ ("EISDIR: illegal operation on a directory, open '"
                      +:+ path_string (settingsFile wd) +:+ "'"))),
       with_fs (mkdirs (configDirectory wd) (fs w)) w)
    else
      (Ok {| configDir := configDirectory wd; settingsPath := settingsFile wd |},
       with_fs (<[settingsFile wd := File (JSON_stringify (GeminiSettings servers))]>
                  (mkdirs (configDirectory wd) (fs w))) w).
Proof.
  unfold createGeminiConfig. fold (configDirectory wd). fold (settingsFile wd).
  rewrite bind_eq. unfold try_catch at 1. unfold fs_mkdir.
  destruct (existsb _ _) eqn:Hex; [done|]. cbv beta iota.
  rewrite bind_eq. unfold try_catch, fs_writeFile. cbv zeta.
  unfold settingsFile at 1 2. rewrite removelast_path_join. simpl fs.
  fold (mkdirs (configDirectory wd) (fs w)). fold (settingsFile wd).
  assert (is_dir (mkdirs (configDirectory wd) (fs w) !! configDirectory wd) = true) as Hd.
  { rewrite mkdirs_lookup, bool_decide_eq_true_2; [done|].
    split; [apply path_join_not_nil | done]. }
  assert (match configDirectory wd with
          | [] => true
          | _ :: _ => is_dir (mkdirs (configDirectory wd) (fs w) !! configDirectory wd)
          end = true) as -> by (by destruct (configDirectory wd)).
  change (negb true) with false. cbv iota.
  assert (mkdirs (configDirectory wd) (fs w) !! settingsFile wd = fs w !! settingsFile wd) as ->.
  { rewrite mkdirs_lookup, bool_decide_eq_false_2; [done|].
    intros [_ H]. by apply path_join_not_prefix in H. }
  by destruct (is_dir (fs w !! settingsFile wd)).
Qed.

(** The world after [cleanupGeminiConfig], when there is something to clean. *)
Definition cleaned (configDir : option path) w : world :=
  match configDir with
  | Some d => with_fs (filter (fun e : path * node => ¬ d `prefix_of` e.1) (fs w)) w
  | None => w
  end.

Definition resolved (prompt : string) (options : Options) (startTime endTime : Z)
    (output : list chunk) (exit_code : option Z) : GeminiResponse :=
  {| messages :=
       {| type := user; content := finalPrompt prompt options; timestamp := startTime |}
       :: map (message_of_chunk startTime) output;
     result_text := trim (fullResponse output);
     success := bool_decide (exit_code = Some 0);
     duration_ms := endTime - startTime;
     error := if bool_decide (exit_code = Some 0) then None
              else Some ("Gemini CLI exited with code " +:+ exit_code_string exit_code) |}.

Lemma after_config_eq prompt options startTime configDir w :
  after_config prompt options startTime configDir w
  = let w1 := with_spawned (spawned w ++ [command_args prompt options])%list w in
    match gemini w (length (spawned w)) (command_args prompt options) with
    | FailsToStart reason =>
        (Throw (ApplicationError ("Failed to start Gemini CLI: " +:+ reason)),
         cleaned configDir w1)
    | Exits output exit_code after_ms =>
        if timeout_seconds options * 1000 <=? after_ms then
          (Throw (ApplicationError ("Gemini CLI timed out after "
                                    +:+ string_of_Z (timeout_seconds options) +:+ " seconds")),
           cleaned configDir (with_now (now w + timeout_seconds options * 1000) w1))
        else
          (Ok (resolved prompt options startTime (now w + after_ms) output exit_code),
           cleaned configDir (with_now (now w + after_ms) w1))
    end.
Proof.
  unfold after_config. rewrite bind_eq. unfold spawn. cbv beta iota zeta.
  destruct (gemini w _ _) as [output exit_code after_ms | reason].
  - destruct (_ <=? _); destruct configDir; reflexivity.
  - destruct configDir; reflexivity.
Qed.

(** The regular files outside [d] are the same in [m] and [m']. *)
Definition same_files_outside (d : path) m m' : Prop :=
  ∀ q content, ¬ d `prefix_of` q →
    m' !! q = Some (File content) ↔ m !! q = Some (File content).

Lemma same_files_outside_refl d m : same_files_outside d m m.
Proof. by intros q content _. Qed.

Lemma same_files_outside_trans d m1 m2 m3 :
  same_files_outside d m1 m2 → same_files_outside d m2 m3 → same_files_outside d m1 m3.
Proof. intros H12 H23 q content Hq. rewrite (H23 q content Hq). by apply H12. Qed.

Lemma same_files_outside_mkdirs d m :
  no_file_on d m → same_files_outside d m (mkdirs d m).
Proof.
  intros Hno q content Hq. rewrite mkdirs_lookup. case_bool_decide as H; [|done].
  destruct H as [Hne Hpre]. specialize (Hno q Hne Hpre).
  split; [done|]. intros Hfile. by rewrite Hfile in Hno.
Qed.

Lemma same_files_outside_insert d m q n :
  d `prefix_of` q → same_files_outside d m (<[q := n]> m).
Proof.
  intros Hd r content Hr. rewrite lookup_insert_ne; [done|]. by intros <-.
Qed.

Lemma same_files_outside_filter d m :
  same_files_outside d m (filter (fun e : path * node => ¬ d `prefix_of` e.1) m).
Proof.
  intros q content Hq. rewrite map_lookup_filter_Some. simpl. tauto.
Qed.

Lemma same_files_outside_cleaned wd configDir w :
  configDir = None ∨ configDir = Some (configDirectory wd) →
  same_files_outside (configDirectory wd) (fs w) (fs (cleaned configDir w)).
Proof.
  intros [-> | ->]; simpl; [apply same_files_outside_refl | apply same_files_outside_filter].
Qed.

Lemma after_config_files wd prompt options startTime configDir w r w' :
  configDir = None ∨ configDir = Some (configDirectory wd) →
  after_config prompt options startTime configDir w = (r, w') →
  same_files_outside (configDirectory wd) (fs w) (fs w')
  ∧ (configDir = None → fs w' = fs w).
Proof.
  intros Hc. rewrite after_config_eq. cbv zeta.
  destruct (gemini w _ _) as [output exit_code after_ms | reason];
    [destruct (_ <=? _)|]; intros [= <- <-];
    (split; [|by intros ->]);
    match goal with
    | |- same_files_outside _ _ (fs (cleaned _ ?w0)) =>
        exact (same_files_outside_cleaned wd configDir w0 Hc)
    end.
Qed.

End RunOutcome.

Section RunCases.

Implicit Types (wd p q : path) (m : gmap path node) (w : world).

(** The world in which the child is spawned when the settings were written. *)
Definition configured (options : Options) w : world :=
  with_fs (<[settingsFile (wd_of options w)
             := File (JSON_stringify (GeminiSettings (mcpServers options)))]>
             (mkdirs (configDirectory (wd_of options w)) (fs w))) w.

Lemma runGeminiCLI_eq prompt options w :
  runGeminiCLI prompt options w
  = match mcpServers options with
    | Some (_ :: _) =>
        if existsb (fun q => is_file (fs w !! q))
                   (ancestors_and_self (configDirectory (wd_of options w))) then
          (Throw (NodeOperationError
                    ("Failed to create config directory: "
                     +:+ ("EEXIST: file already exists, mkdir '"
                          +:+ path_string (configDirectory (wd_of options w)) +:+ "'"))), w)
        else if is_dir (fs w !! settingsFile (wd_of options w)) then
          (Throw (NodeOperationError
                    ("Failed to write settings file: "
                     +:+ ("EISDIR: illegal operation on a directory, open '"
                          +:+ path_string (settingsFile (wd_of options w)) +:+ "'"))),
           with_fs (mkdirs (configDirectory (wd_of options w)) (fs w)) w)
        else after_config prompt options (now w) (Some (configDirectory (wd_of options w)))
                          (configured options w)
    | _ => after_config prompt options (now w) None w
    end.
Proof.
  rewrite runGeminiCLI_unfold.
  destruct (mcpServers options) as [[|s l]|] eqn:Hm; try done.
  rewrite createGeminiConfig_eq. unfold configured. rewrite Hm.
  destruct (existsb _ _); [done|]. by destruct (is_dir _).
Qed.

Lemma spawned_grows (l : list (list string)) (a : list string) : (l ++ [a])%list ≠ l.
Proof.
  intros H. apply (f_equal length) in H. rewrite length_app in H. simpl in H. lia.
Qed.

Lemma runGeminiCLI_files prompt options w r w' :
  runGeminiCLI prompt options w = (r, w') →
  (∀ q content, ¬ configDirectory (wd_of options w) `prefix_of` q →
     fs w' !! q = Some (File content) ↔ fs w !! q = Some (File content))
  ∧ (mcpServers options = None ∨ mcpServers options = Some [] → fs w' = fs w).
Proof.
  rewrite runGeminiCLI_eq. intros H.
  set (d := configDirectory (wd_of options w)) in *.
  assert (∀ configDir, configDir = None →
            after_config prompt options (now w) configDir w = (r, w') →
            same_files_outside d (fs w) (fs w') ∧ fs w' = fs w) as Hnone.
  { intros configDir -> Ha.
    destruct (after_config_files (wd_of options w) _ _ _ _ _ _ _ (or_introl eq_refl) Ha)
      as [Hs Hf]. split; [exact Hs | by apply Hf]. }
  destruct (mcpServers options) as [[|s l]|] eqn:Hm.
  - destruct (Hnone None eq_refl H) as [Hs Hf]. split; [exact Hs | done].
  - split; [|by intros [[=]|[=]]].
    destruct (existsb _ _) eqn:Hex.
    + injection H as <- <-. apply same_files_outside_refl.
    + apply existsb_no_file_on in Hex.
      destruct (is_dir _).
      * injection H as <- <-. by apply same_files_outside_mkdirs.
      * destruct (after_config_files (wd_of options w) _ _ _ _ _ _ _ (or_intror eq_refl) H)
          as [Hs _].
        eapply same_files_outside_trans; [|exact Hs]. simpl.
        eapply same_files_outside_trans; [by apply same_files_outside_mkdirs|].
        apply same_files_outside_insert. unfold settingsFile, path_join. by apply prefix_app_r.
  - destruct (Hnone None eq_refl H) as [Hs Hf]. split; [exact Hs | done].
Qed.

End RunCases.

Module Run.

(** The child prints two chunks and a warning, then exits with code 2. *)
Definition child : process :=
  Exits [{| from := Stdout; text := " Work"; at_ms := 10 |};
         {| from := Stderr; text := "warn"; at_ms := 20 |};
         {| from := Stdout; text := "ing. "; at_ms := 30 |}] (Some 2) 1500.

Definition world : world := Sample.world_with [] (fun _ _ => child).

(** [.gemini] is a regular file. *)
Definition blocked : Host.world :=
  with_fs (<[path_join ["proj"] ".gemini" := File "x"]> {[ ["proj"] := Dir ]}) world.

End Run.



(** X10: a run that spawned nothing failed while setting up the MCP
    configuration: servers are configured and either a regular file lies
    on the path of [<workingDirectory>/.gemini] (nothing was changed), or
    [settings.json] there is a directory, and then the [.gemini] directory
    that was just made is left behind, since only a finished set-up is
    cleaned up. *)
Theorem runGeminiCLI_without_spawn prompt options w r w' :
  runGeminiCLI prompt options w = (r, w') →
  spawned w' = spawned w →
  (∃ s l, mcpServers options = Some (s :: l))
  ∧ ((¬ no_file_on (configDirectory (wd_of options w)) (fs w)
      ∧ w' = w
      ∧ ∃ msg, r = Throw (NodeOperationError ("Failed to create config directory: " +:+ msg)))
     ∨ (is_dir (fs w !! settingsFile (wd_of options w)) = true
        ∧ w' = with_fs (mkdirs (configDirectory (wd_of options w)) (fs w)) w
        ∧ ∃ msg, r = Throw (NodeOperationError ("Failed to write settings file: " +:+ msg)))).
Proof.
  rewrite runGeminiCLI_eq. intros H Hsp.
  assert (∀ configDir w0, spawned w0 = spawned w →
            after_config prompt options (now w) configDir w0 ≠ (r, w')) as Hafter.
  { intros configDir w0 Hs. rewrite after_config_eq. cbv zeta.
    assert (∀ w1, spawned (cleaned configDir w1) = spawned w1) as Hc
      by (intros; by destruct configDir).
    destruct (gemini w0 _ _) as [output exit_code after_ms | reason];
      [destruct (_ <=? _)|]; intros [= <- <-];
      rewrite Hc in Hsp; simpl in Hsp; rewrite Hs in Hsp; by apply spawned_grows in Hsp. }
  destruct (mcpServers options) as [[|s l]|];
    [by destruct (Hafter None w eq_refl) | | by destruct (Hafter None w eq_refl)].
  split; [by eexists _, _|].
  destruct (existsb _ _) eqn:Hex.
  - left. injection H as <- <-. split_and!; [|done|by eexists].
    intros Hno. apply no_file_on_existsb in Hno. congruence.
  - destruct (is_dir _) eqn:Hd.
    + right. injection H as <- <-. split_and!; [done..|by eexists].
    + by destruct (Hafter _ (configured options w) eq_refl H).
Qed.

Lemma runGeminiCLI_without_spawn_witness :
  ∃ msg, (runGeminiCLI "Refactor" Mcp.options Run.blocked).1
         = Throw (NodeOperationError ("Failed to create config directory: " +:+ msg))
         ∧ (runGeminiCLI "Refactor" Mcp.options Run.blocked).2 = Run.blocked.
Proof.
  destruct (runGeminiCLI "Refactor" Mcp.options Run.blocked) as [r w'] eqn:Hrun.
  assert (spawned w' = spawned Run.blocked) as Hsp.
  { vm_compute in Hrun. by injection Hrun as _ <-. }
  destruct (runGeminiCLI_without_spawn _ _ _ _ _ Hrun Hsp)
    as (_ & [(_ & -> & msg & ->) | (Hd & _)]).
  - by exists msg.
  - vm_compute in Hd. discriminate.
Defined.

(** X11: the node itself creates, changes and removes no regular file
    outside [<workingDirectory>/.gemini] during a run, however the run
    ends; and without MCP servers it leaves the file system exactly as it
    was. *)
Theorem runGeminiCLI_touches_only_config prompt options w r w' :
  runGeminiCLI prompt options w = (r, w') →
  (∀ q content, ¬ configDirectory (wd_of options w) `prefix_of` q →
     fs w' !! q = Some (File content) ↔ fs w !! q = Some (File content))
  ∧ (mcpServers options = None ∨ mcpServers options = Some [] → fs w' = fs w).
Proof. apply runGeminiCLI_files. Qed.

Lemma runGeminiCLI_touches_only_config_witness :
  fs (runGeminiCLI "Say hello" Mcp.options Mcp.world).2 !! ["proj"; "README.md"] = None
  ∧ fs (runGeminiCLI "Refactor" Sample.options Run.world).2 = fs Run.world.
Proof.
  split.
  - destruct (runGeminiCLI "Say hello" Mcp.options Mcp.world) as [r w'] eqn:Hrun.
    destruct (runGeminiCLI_touches_only_config _ _ _ _ _ Hrun) as [Hfiles _].
    destruct (fs w' !! ["proj"; "README.md"]) as [[|content]|] eqn:E; [| |done].
    + vm_compute in Hrun. injection Hrun as _ <-. vm_compute in E. discriminate.
    + apply Hfiles in E; [vm_compute in E; discriminate|].
      intros [k Hk]. vm_compute in Hk. discriminate.
  - destruct (runGeminiCLI "Refactor" Sample.options Run.world) as [r w'] eqn:Hrun.
    destruct (runGeminiCLI_touches_only_config _ _ _ _ _ Hrun) as [_ Hsame].
    apply Hsame. by left.
Defined.

(* ================================================================== *)
(** ** Plan generation and plan editing that fail *)
(* ================================================================== *)

Section Failures.

Implicit Types (wd : path) (w : world) (plan : ExecutionPlan).

Lemma wd_of_with_systemPrompt p options w : wd_of (with_systemPrompt p options) w = wd_of options w.
Proof. done. Qed.

(** A run without MCP servers ends with the files and the working
    directory it started with. *)
Lemma runGeminiCLI_plain prompt options w r w' :
  mcpServers options = None ∨ mcpServers options = Some [] →
  runGeminiCLI prompt options w = (r, w') →
  fs w' = fs w ∧ wd_of options w' = wd_of options w.
Proof.
  intros Hm Hrun. split.
  - by apply (runGeminiCLI_files _ _ _ _ _ Hrun).
  - destruct (runGeminiCLI_spec prompt options w) as (r0 & w0 & H0 & _ & E & _).
    rewrite Hrun in H0. injection H0 as <- <-. by eapply wd_of_evolves.
Qed.

Lemma loadPlan_throws planId wd w e :
  (loadPlan planId wd w).1 = Throw e →
  ∃ msg, e = ApplicationError ("Failed to load plan: " +:+ msg).
Proof.
  unfold loadPlan, try_catch. rewrite bind_eq.
  pose proof (fs_readFile_world (planPath (plansDirectory wd) planId) w) as Hw.
  destruct (fs_readFile _ w) as [[content|e0|] w1]; simpl in Hw; subst w1.
  - rewrite bind_eq. unfold lift.
    destruct (JSON_parse_or_throw content) as [v|e0|] eqn:Hparse; [| |done].
    + destruct v; try done; by destruct (ExecutionPlan_of_json _).
    + destruct (decide _); [done|]. simpl. intros [= <-]. by eexists.
  - destruct (decide _); [done|]. simpl. intros [= <-]. by eexists.
  - done.
Qed.

Lemma loadPlan_Some_file planId wd w plan :
  (loadPlan planId wd w).1 = Ok (Some plan) →
  ∃ content, fs w !! planPath (plansDirectory wd) planId = Some (File content).
Proof.
  unfold loadPlan, try_catch. rewrite bind_eq. unfold fs_readFile.
  destruct (fs w !! planPath (plansDirectory wd) planId) as [[|content]|]; [done|by eexists|].
  by destruct (existsb _ _).
Qed.

(** A file that is there is read the same after [mkdir -p] of the plans directory. *)
Lemma loadPlan_after_mkdirs planId wd w plan :
  (loadPlan planId wd w).1 = Ok (Some plan) →
  (loadPlan planId wd (with_fs (mkdirs (plansDirectory wd) (fs w)) w)).1 = Ok (Some plan).
Proof.
  intros Hload. destruct (loadPlan_Some_file _ _ _ _ Hload) as [content Hfile].
  rewrite <- Hload. apply loadPlan_same_read. unfold fs_readFile. simpl fs.
  rewrite mkdirs_lookup, bool_decide_eq_false_2.
  - by rewrite Hfile.
  - intros [_ H]. by apply planPath_not_prefix in H.
Qed.

Lemma loadPlan_same_fs planId wd w w' :
  fs w' = fs w → (loadPlan planId wd w').1 = (loadPlan planId wd w).1.
Proof.
  intros Hfs. apply loadPlan_same_read. unfold fs_readFile. rewrite Hfs.
  destruct (fs w !! _) as [[|content]|]; [done..|]. by destruct (existsb _ _).
Qed.

Lemma generatePlan_throws prompt options w e w' :
  generatePlanWithGemini prompt options w = (Throw e, w') →
  (∃ msg, e = ApplicationError ("Plan generation failed: " +:+ msg))
  ∧ (mcpServers options = None ∨ mcpServers options = Some [] →
     plans_ready (wd_of options w) (fs w) → fs w' = fs w).
Proof.
  intros H. unfold generatePlanWithGemini in H.
  destruct (generatePlanId_eq w) as [planId HplanId].
  rewrite bind_eq, HplanId in H. cbv beta iota in H.
  rewrite bind_eq in H. unfold Date_now in H. cbv beta iota in H.
  unfold try_catch in H.
  match type of H with
  | match ?m with _ => _ end = _ => destruct m as [[plan|e0|] w1] eqn:Hin; [done| |done]
  end.
  unfold throw in H. injection H as <- <-. split; [by eexists|].
  intros Hm Hready.
  rewrite bind_eq in Hin.
  destruct (runGeminiCLI _ _ w) as [[response|e1|] w2] eqn:Hrun; [| |done].
  2: { injection Hin as _ <-. by apply (runGeminiCLI_plain _ (with_systemPrompt _ options) _ _ _ Hm Hrun). }
  destruct (runGeminiCLI_plain _ (with_systemPrompt _ options) _ _ _ Hm Hrun) as [Hfs Hwd].
  rewrite wd_of_with_systemPrompt in Hwd.
  destruct (negb (success response)); [by injection Hin as _ <-|].
  rewrite bind_eq in Hin. unfold lift in Hin.
  destruct (extract_planData _ _) as [planData|e1|]; [|by injection Hin as _ <-|done].
  destruct (missing_required_fields planData); [by injection Hin as _ <-|].
  rewrite bind_eq in Hin.
  destruct (validatedSteps _) as [validated|e1|]; [|by injection Hin as _ <-|done].
  rewrite bind_eq in Hin.
  destruct (string_or _ _) as [planTitle|e1|]; [|by injection Hin as _ <-|done].
  rewrite bind_eq in Hin.
  destruct (string_or _ _) as [planDescription|e1|]; [|by injection Hin as _ <-|done].
  rewrite bind_eq, workingDirectory_of_eq in Hin. cbv beta iota in Hin.
  rewrite bind_eq, savePlan_ok in Hin; [done|].
  rewrite Hwd. by rewrite Hfs.
Qed.

Lemma editPlan_throws planId instructions options w e w' :
  editPlanWithGemini planId instructions options w = (Throw e, w') →
  ((loadPlan planId (wd_of options w) w).1 = Ok None
   ∧ e = ApplicationError ("Plan with ID " +:+ planId +:+ " not found")
   ∧ w' = w)
  ∨ (∃ msg, (loadPlan planId (wd_of options w) w).1 = Throw e
            ∧ e = ApplicationError ("Failed to load plan: " +:+ msg)
            ∧ w' = w)
  ∨ (∃ existing msg,
       (loadPlan planId (wd_of options w) w).1 = Ok (Some existing)
       ∧ e = ApplicationError ("Plan editing failed: " +:+ msg)
       ∧ (mcpServers options = None ∨ mcpServers options = Some [] →
          (loadPlan planId (wd_of options w) w').1 = Ok (Some existing))).
Proof.
  intros H. unfold editPlanWithGemini in H.
  rewrite bind_eq, workingDirectory_of_eq in H. cbv beta iota in H.
  rewrite bind_eq, loadPlan_eta in H.
  destruct (loadPlan planId (wd_of options w) w).1 as [[existing|]|e0|] eqn:Hload; [| | |done].
  - right; right. cbv beta iota in H. unfold try_catch in H.
    match type of H with
    | match ?m with _ => _ end = _ => destruct m as [[plan|e0|] w1] eqn:Hin; [done| |done]
    end.
    unfold throw in H. injection H as <- <-.
    exists existing. eexists. split_and!; [done..|].
    intros Hm. rewrite bind_eq in Hin.
    destruct (runGeminiCLI _ _ w) as [[response|e1|] w2] eqn:Hrun; [| |done].
    2: { injection Hin as _ <-. rewrite <- Hload. apply loadPlan_same_fs.
         by apply (runGeminiCLI_plain _ (with_systemPrompt _ options) _ _ _ Hm Hrun). }
    destruct (runGeminiCLI_plain _ (with_systemPrompt _ options) _ _ _ Hm Hrun) as [Hfs Hwd].
    assert ((loadPlan planId (wd_of options w) w2).1 = Ok (Some existing)) as Hload2
      by (rewrite <- Hload; by apply loadPlan_same_fs).
    destruct (negb (success response)); [by injection Hin as _ <-|].
    rewrite bind_eq in Hin. unfold lift in Hin.
    destruct (extract_planData _ _) as [planData|e1|]; [|by injection Hin as _ <-|done].
    destruct (missing_required_fields planData); [by injection Hin as _ <-|].
    rewrite bind_eq in Hin.
    destruct (validatedSteps _) as [validated|e1|]; [|by injection Hin as _ <-|done].
    rewrite bind_eq in Hin.
    destruct (string_or _ _) as [planTitle|e1|]; [|by injection Hin as _ <-|done].
    rewrite bind_eq in Hin.
    destruct (string_or _ _) as [planDescription|e1|]; [|by injection Hin as _ <-|done].
    rewrite bind_eq in Hin. unfold Date_now in Hin. cbv beta iota in Hin.
    rewrite bind_eq in Hin.
    match type of Hin with
    | context [savePlan ?p ?d ?w0] =>
        destruct (savePlan_cases p d w0)
          as [(_ & m & He) | [(_ & _ & m & He) | (_ & _ & He)]];
          rewrite He in Hin; [| |done]; injection Hin as _ <-
    end.
    + done.
    + by apply loadPlan_after_mkdirs.
  - left. by injection H as <- <-.
  - right; left. injection H as <- <-.
    destruct (loadPlan_throws _ _ _ _ Hload) as [msg ->]. by exists msg.
Qed.

End Failures.

Module Failing.

(** The child exits with code 3 without printing. *)
Definition world : world :=
  Sample.world_with [Sample.plan draft [Sample.step "1" pending]]
                    (fun _ _ => Exits [] (Some 3) 200).

End Failing.

(** X12: every error that [generatePlanWithGemini] throws is an
    [ApplicationError] whose message starts with [Plan generation failed: ];
    and when no MCP servers are configured and the plans directory is
    usable, a generation that throws leaves the file system as it found
    it: no plan was written. *)
Theorem generatePlan_failure prompt options w e w' :
  generatePlanWithGemini prompt options w = (Throw e, w') →
  (∃ msg, e = ApplicationError ("Plan generation failed: " +:+ msg))
  ∧ (mcpServers options = None ∨ mcpServers options = Some [] →
     plans_ready (wd_of options w) (fs w) → fs w' = fs w).
Proof. apply generatePlan_throws. Qed.

Lemma generatePlan_failure_witness :
  (generatePlanWithGemini "Plan it" Sample.options Failing.world).1
  = Throw (ApplicationError
             "Plan generation failed: Failed to generate plan: Gemini CLI exited with code 3")
  ∧ fs (generatePlanWithGemini "Plan it" Sample.options Failing.world).2 = fs Failing.world.
Proof.
  destruct (generatePlanWithGemini "Plan it" Sample.options Failing.world) as [r w'] eqn:Hrun.
  assert (r = Throw (ApplicationError
                       "Plan generation failed: Failed to generate plan: Gemini CLI exited with code 3"))
    as -> by (vm_compute in Hrun; by injection Hrun as <- _).
  split; [done|].
  apply (generatePlan_failure _ _ _ _ _ Hrun); [by left|].
  apply plans_ready_b_true. vm_compute. reflexivity.
Defined.

(** X13: [editPlanWithGemini] throws in three ways.  A plan id without a
    file gives [Plan with ID ... not found] and a plan file that cannot be
    read or parsed gives [Failed to load plan: ...], both before anything
    is spawned or written; every later error is [Plan editing failed: ...],
    and when no MCP servers are configured the stored plan is then still
    what it was. *)
Theorem editPlan_failure planId instructions options w e w' :
  editPlanWithGemini planId instructions options w = (Throw e, w') →
  ((loadPlan planId (wd_of options w) w).1 = Ok None
   ∧ e = ApplicationError ("Plan with ID " +:+ planId +:+ " not found")
   ∧ w' = w)
  ∨ (∃ msg, (loadPlan planId (wd_of options w) w).1 = Throw e
            ∧ e = ApplicationError ("Failed to load plan: " +:+ msg)
            ∧ w' = w)
  ∨ (∃ existing msg,
       (loadPlan planId (wd_of options w) w).1 = Ok (Some existing)
       ∧ e = ApplicationError ("Plan editing failed: " +:+ msg)
       ∧ (mcpServers options = None ∨ mcpServers options = Some [] →
          (loadPlan planId (wd_of options w) w').1 = Ok (Some existing))).
Proof. apply editPlan_throws. Qed.

Lemma editPlan_failure_witness :
  (editPlanWithGemini "plan_1" "Add tests" Sample.options Failing.world).1
  = Throw (ApplicationError
             "Plan editing failed: Failed to edit plan: Gemini CLI exited with code 3")
  ∧ (loadPlan "plan_1" ["proj"]
       (editPlanWithGemini "plan_1" "Add tests" Sample.options Failing.world).2).1
    = Ok (Some (Sample.plan draft [Sample.step "1" pending])).
Proof.
  destruct (editPlanWithGemini "plan_1" "Add tests" Sample.options Failing.world)
    as [r w'] eqn:Hrun.
  assert (r = Throw (ApplicationError
                       "Plan editing failed: Failed to edit plan: Gemini CLI exited with code 3"))
    as -> by (vm_compute in Hrun; by injection Hrun as <- _).
  split; [done|].
  destruct (editPlan_failure _ _ _ _ _ _ Hrun)
    as [(Hload & _) | [(msg & Hload & _) | (existing & msg & Hload & _ & Hkept)]].
  - vm_compute in Hload. discriminate.
  - vm_compute in Hload. discriminate.
  - pose proof (Hkept (or_introl eq_refl)) as Hk.
    vm_compute in Hload. injection Hload as <-. exact Hk.
Defined.

(* ================================================================== *)
(** ** The responses that [executePlan] returns *)
(* ================================================================== *)

Section Results.

Implicit Types (wd : path) (w : world) (plan : ExecutionPlan).

Lemma set_step_status_length index st plan :
  length (steps (set_step_status index st plan)) = length (steps plan).
Proof. unfold set_step_status. simpl. apply length_alter. Qed.

(** The responses of the loop: successes, then at most one failure, which
    ends the loop. *)
Lemma execute_steps_results wd options todo :
  ∀ plan results index w plan' results' ok w',
    execute_steps wd options plan results index todo w = (Ok (Done (plan', results', ok)), w') →
    length (steps plan') = length (steps plan)
    ∧ ∃ good bad,
        results' = (results ++ good ++ bad)%list
        ∧ Forall (fun r => success r = true) good
        ∧ Forall (fun r => success r = false) bad
        ∧ (length bad ≤ 1)%nat
        ∧ (if ok then bad = [] ∧ length good = length todo
           else (length good < length todo)%nat).
Proof.
  induction todo as [|step todo IH]; intros plan results index w plan' results' ok w' H.
  - simpl in H. unfold ret in H. injection H as <- <- <- <-.
    split; [done|]. exists [], []. rewrite !app_nil_r. split_and!; by try constructor.
  - simpl in H. unfold in_try at 1 in H.
    destruct (savePlan _ wd w) as [[[]|e|] w1]; [|done..].
    rewrite bind_eq in H. unfold attempt in H.
    destruct (runGeminiCLI _ options w1) as [[stepResult|e|] w2]; [| |done].
    + cbv beta iota in H. destruct (success stepResult) eqn:Hsuccess.
      * unfold in_try at 1 in H.
        destruct (savePlan _ wd w2) as [[[]|e|] w3]; [|done..].
        apply IH in H as (Hlen & good & bad & -> & Hgood & Hbad & Hone & Hok).
        split; [by rewrite Hlen, !set_step_status_length|].
        exists (stepResult :: good), bad. rewrite <- !app_assoc. simpl.
        split_and!; try done; [by constructor|].
        destruct ok; simpl; [destruct Hok as [-> ->]; done | lia].
      * unfold ret in H. injection H as <- <- <- <-.
        split; [by rewrite !set_step_status_length|].
        exists [], [stepResult]. simpl.
        split_and!; try done; [by repeat constructor | lia].
    + cbv beta iota in H. unfold ret in H. injection H as <- <- <- <-.
      split; [by rewrite !set_step_status_length|].
      exists [], []. rewrite !app_nil_r. simpl.
      split_and!; try done; try (by constructor); lia.
Qed.

Lemma executePlan_returns planId options w final results w' :
  executePlan planId options w = (Ok (final, results), w') →
  ∃ good bad,
    results = (good ++ bad)%list
    ∧ Forall (fun r => success r = true) good
    ∧ Forall (fun r => success r = false) bad
    ∧ (length bad ≤ 1)%nat
    ∧ (status final = completed ∧ bad = [] ∧ length good = length (steps final)
       ∨ status final = failed ∧ (length good < length (steps final))%nat).
Proof.
  intros H. unfold executePlan in H.
  rewrite bind_eq, workingDirectory_of_eq in H. cbv beta iota in H.
  rewrite bind_eq, loadPlan_eta in H.
  destruct (loadPlan planId (wd_of options w) w).1 as [[plan|]|e|]; [|done..].
  cbv beta iota in H. destruct (negb _); [done|].
  rewrite bind_eq in H. unfold Date_now in H. cbv beta iota in H.
  rewrite bind_eq in H.
  destruct (savePlan _ _ w) as [[[]|e|] w0]; [|done..].
  rewrite bind_eq, bind_eq in H.
  destruct (execute_steps _ _ _ _ _ _ w0) as [[looped|e|] w1] eqn:Hloop; [|done..].
  destruct looped as [[[plan' results'] ok]|plan' e].
  - apply execute_steps_results in Hloop as (Hlen & good & bad & -> & Hgood & Hbad & Hone & Hok).
    rewrite bind_eq in H. unfold Date_now, in_try in H. cbv beta iota in H.
    destruct (savePlan _ _ w1) as [[[]|e|] w2].
    + injection H as <- <- <-.
      exists good, bad. simpl. split_and!; try done.
      destruct ok.
      * left. destruct Hok as [-> Hn]. by rewrite Hlen.
      * right. by rewrite Hlen.
    + rewrite bind_eq in H. cbv beta iota in H. rewrite bind_eq in H.
      by destruct (savePlan _ _ w2) as [[[]|?|] ?].
    + done.
  - unfold ret in H. cbv beta iota in H.
    rewrite bind_eq in H. cbv beta iota in H. rewrite bind_eq in H.
    by destruct (savePlan _ _ w1) as [[[]|?|] ?].
Qed.

End Results.

(** X14: when [executePlan] returns, the responses are those of the steps
    that succeeded, in order, followed by at most one response that
    reports a failure, and nothing after it.  The plan returned is
    [completed] exactly when there is one successful response for every
    step; it is [failed] otherwise, with fewer successes than steps. *)
Theorem executePlan_responses planId options w final results w' :
  executePlan planId options w = (Ok (final, results), w') →
  ∃ good bad,
    results = (good ++ bad)%list
    ∧ Forall (fun r => success r = true) good
    ∧ Forall (fun r => success r = false) bad
    ∧ (length bad ≤ 1)%nat
    ∧ (status final = completed ∧ bad = [] ∧ length good = length (steps final)
       ∨ status final = failed ∧ (length good < length (steps final))%nat).
Proof. apply executePlan_returns. Qed.

Lemma executePlan_responses_witness :
  ∃ final good bad,
    (executePlan "plan_1" Sample.options Execution.world).1 = Ok (final, (good ++ bad)%list)
    ∧ length good = 1%nat ∧ length bad = 1%nat
    ∧ status final = failed.
Proof.
  destruct (executePlan "plan_1" Sample.options Execution.world) as [r w'] eqn:Hrun.
  assert (∃ final results, r = Ok (final, results) ∧ map success results = [true; false]
                           ∧ status final = failed)
    as (final & results & -> & Hresults & Hst).
  { vm_compute in Hrun. injection Hrun as <- _. eexists _, _. split; [reflexivity|]. done. }
  destruct (executePlan_responses _ _ _ _ _ _ Hrun)
    as (good & bad & -> & Hgood & Hbad & Hone & _).
  exists final, good, bad. split; [done|]. clear Hrun.
  rewrite map_app in Hresults.
  destruct good as [|g1 [|g2 good]], bad as [|b1 [|b2 bad]];
    simpl in Hresults, Hone |- *; try discriminate; try lia;
    repeat match goal with
           | H : Forall _ (_ :: _) |- _ => apply Forall_cons in H as [? H]
           end; try congruence.
  done.
Defined.

(** X15: an approved plan without steps is completed at once: on a usable
    plans directory [executePlan] returns it with status [completed] and
    no responses, and spawns nothing. *)
Theorem executePlan_without_steps planId options w plan :
  (loadPlan planId (wd_of options w) w).1 = Ok (Some plan) →
  status plan = approved →
  steps plan = [] →
  plans_ready (wd_of options w) (fs w) →
  ∃ final w',
    executePlan planId options w = (Ok (final, []), w')
    ∧ status final = completed
    ∧ steps final = []
    ∧ spawned w' = spawned w.
Proof.
  intros Hload Hst Hsteps Hready.
  destruct (executePlan_spec planId options w plan Hload Hst Hready)
    as (finished & rest & good & bad & ok & attempted & w' & Hex & _ & Hfr & Hrest
        & Hlen & _ & _ & Hsp & _ & Hpre & _).
  rewrite Hsteps in Hfr, Hpre. symmetry in Hfr. apply app_eq_nil in Hfr as [-> ->].
  apply prefix_nil_inv in Hpre as ->.
  destruct ok; [|done]. destruct Hrest as [_ ->].
  destruct good; [|done].
  eexists _, w'. split; [exact Hex|]. split_and!; try done.
  simpl in Hsp. by rewrite app_nil_r in Hsp.
Qed.

Lemma executePlan_without_steps_witness :
  ∃ final w',
    executePlan "plan_1" Sample.options
                (Sample.world_with [Sample.plan approved []] (fun _ _ => FailsToStart "none"))
    = (Ok (final, []), w')
    ∧ status final = completed
    ∧ steps final = []
    ∧ spawned w' = [].
Proof.
  refine (executePlan_without_steps "plan_1" Sample.options
            (Sample.world_with [Sample.plan approved []] (fun _ _ => FailsToStart "none"))
            (Sample.plan approved []) _ _ _ _).
  - vm_compute. reflexivity.
  - reflexivity.
  - reflexivity.
  - apply plans_ready_b_true. vm_compute. reflexivity.
Defined.

(* ================================================================== *)
(** ** The node's [execute]: checks, output items, errors *)
(* ================================================================== *)

Section ExecuteItems.

Implicit Types (w : world) (p : Parameters) (item : Item).

(** [validateProjectPath] is a test of the resolved path. *)
Lemma validateProjectPath_eq projectPath w :
  validateProjectPath projectPath w
  = (Ok (match path_resolve (cwd w) projectPath, fs w !! path_resolve (cwd w) projectPath with
         | [], _ | _, Some Dir => inl (path_resolve (cwd w) projectPath)
         | _, Some (File _) =>
             inr ("Path exists but is not a directory: "
                  +:+ path_string (path_resolve (cwd w) projectPath))
         | _, None =>
             inr ("Directory does not exist: "
                  +:+ path_string (path_resolve (cwd w) projectPath))
         end), w).
Proof.
  unfold validateProjectPath. rewrite !bind_eq. unfold process_cwd, get_world.
  rewrite !bind_eq. simpl.
  destruct (path_resolve (cwd w) projectPath) as [|c rest]; [done|].
  by destruct (fs w !! (c :: rest)) as [[|content]|].
Qed.

Lemma validated_path projectPath w :
  (let! pathValidation := validateProjectPath projectPath in
   match pathValidation with
   | inl resolvedPath => ret (Some resolvedPath)
   | inr problem => throw (NodeOperationError ("Invalid project path: " +:+ problem))
   end) w
  = (Ok (Some (path_resolve (cwd w) projectPath)), w)
  ∨ ∃ msg,
      (let! pathValidation := validateProjectPath projectPath in
       match pathValidation with
       | inl resolvedPath => ret (Some resolvedPath)
       | inr problem => throw (NodeOperationError ("Invalid project path: " +:+ problem))
       end) w
      = (Throw (NodeOperationError ("Invalid project path: " +:+ msg)), w).
Proof.
  rewrite !bind_eq, validateProjectPath_eq.
  destruct (path_resolve (cwd w) projectPath) as [|c rest]; [by left|].
  destruct (fs w !! (c :: rest)) as [[|content]|]; [by left | right; by eexists..].
Qed.

(** The project path that [execute] hands to the operation. *)
Definition resolved_path p w : option path :=
  if negb (String.eqb (trim (projectPath p)) EmptyString)
  then Some (path_resolve (cwd w) (trim (projectPath p)))
  else None.

(** [execute_item] is the [try] block cut before the output is made. *)
Lemma execute_item_then_eq {A} p (finish : option path → Outcome → A) w :
  execute_item_then p finish w
  = match execute_item p w with
    | (Ok outcome, w') => (Ok (finish (resolved_path p w) outcome), w')
    | (Throw e, w') => (Throw e, w')
    | (Untyped, w') => (Untyped, w')
    end.
Proof.
  unfold execute_item_then, execute_item, resolved_path.
  destruct (_ && _); [done|]. destruct (_ && _); [done|].
  rewrite !bind_eq. unfold checkGeminiCLI_isAvailable.
  destruct (gemini_version w); [|done]. change (negb true) with false. cbv iota.
  rewrite !bind_eq.
  destruct (negb (String.eqb (trim (projectPath p)) EmptyString)).
  - destruct (validated_path (trim (projectPath p)) w) as [-> | [msg ->]]; [|done].
    cbv beta iota. rewrite bind_eq.
    by destruct (run_operation _ _ _ _ _ w) as [[outcome|e|] w'].
  - unfold ret at 1 3. cbv beta iota. rewrite bind_eq.
    by destruct (run_operation _ _ _ _ _ w) as [[outcome|e|] w'].
Qed.

Lemma output_items_paired fmt p resolvedProjectPath i outcome :
  (length (output_items fmt p resolvedProjectPath i outcome) ≤ 1)%nat
  ∧ Forall (fun d => pairedItem d = i) (output_items fmt p resolvedProjectPath i outcome).
Proof.
  destruct outcome; simpl; try (split; [lia | by repeat constructor]).
  destruct (response_output _ _ _ _); simpl; (split; [lia | by repeat constructor]).
Qed.

(** What one turn of the loop pushes. *)
Definition turn (continueOnFail : bool) (itemIndex : nat) item : M (list INodeExecutionData) :=
  try_catch
    (execute_item_then (item_parameters item)
       (fun resolvedProjectPath outcome =>
          output_items (outputFormat item) (item_parameters item)
                       resolvedProjectPath itemIndex outcome))
    (fun e =>
       if continueOnFail then ret [error_item e itemIndex]
       else throw (NodeOperationError ("Gemini CLI execution failed: " +:+ message e))).

Lemma turn_eq continueOnFail i item w :
  turn continueOnFail i item w
  = match execute_item (item_parameters item) w with
    | (Ok outcome, w') =>
        (Ok (output_items (outputFormat item) (item_parameters item)
                          (resolved_path (item_parameters item) w) i outcome), w')
    | (Throw e, w') =>
        if continueOnFail then (Ok [error_item e i], w')
        else (Throw (NodeOperationError ("Gemini CLI execution failed: " +:+ message e)), w')
    | (Untyped, w') => (Untyped, w')
    end.
Proof.
  unfold turn, try_catch. rewrite execute_item_then_eq.
  destruct (execute_item _ w) as [[outcome|e|] w']; try done. by destruct continueOnFail.
Qed.

Lemma execute_from_cons continueOnFail i item rest returnData w :
  execute_from continueOnFail i (item :: rest) returnData w
  = match turn continueOnFail i item w with
    | (Ok pushed, w') => execute_from continueOnFail (S i) rest (returnData ++ pushed)%list w'
    | (Throw e, w') => (Throw e, w')
    | (Untyped, w') => (Untyped, w')
    end.
Proof. reflexivity. Qed.

Lemma turn_paired continueOnFail i item w pushed w' :
  turn continueOnFail i item w = (Ok pushed, w') →
  (length pushed ≤ 1)%nat ∧ Forall (fun d => pairedItem d = i) pushed.
Proof.
  rewrite turn_eq. destruct (execute_item _ w) as [[outcome|e|] w1]; [| |done].
  - intros [= <- <-]. apply output_items_paired.
  - destruct continueOnFail; [|done]. intros [= <- <-]. split; [simpl; lia | by repeat constructor].
Qed.

Definition earlier (a b : INodeExecutionData) : Prop := (pairedItem a < pairedItem b)%nat.

Lemma execute_from_continue items : ∀ i returnData w r w',
  execute_from true i items returnData w = (r, w') →
  (∀ e, r ≠ Throw e)
  ∧ ∀ out, r = Ok out →
      ∃ new, out = (returnData ++ new)%list
             ∧ StronglySorted earlier new
             ∧ Forall (fun d => (i ≤ pairedItem d < i + length items)%nat) new.
Proof.
  induction items as [|item items IH]; intros i returnData w r w'.
  - simpl. intros [= <- <-]. split; [done|]. intros out [= <-].
    exists []. rewrite app_nil_r. split_and!; constructor.
  - rewrite execute_from_cons.
    destruct (turn true i item w) as [[pushed|e|] w1] eqn:Hturn.
    + intros H. apply IH in H as [Hno Hout]. split; [done|].
      intros out ->. destruct (Hout _ eq_refl) as (new & -> & Hsorted & Hrange).
      destruct (turn_paired _ _ _ _ _ _ Hturn) as [Hlen Hi].
      exists (pushed ++ new)%list. rewrite app_assoc. split; [done|]. split.
      * destruct pushed as [|d [|d' pushed]]; [done| |simpl in Hlen; lia].
        simpl. constructor; [done|].
        apply Forall_cons in Hi as [Hd _].
        eapply Forall_impl; [exact Hrange|]. intros x Hx. cbv beta in Hx. unfold earlier. lia.
      * apply Forall_app. split.
        -- eapply Forall_impl; [exact Hi|]. intros x Hx. cbv beta in Hx. simpl. lia.
        -- eapply Forall_impl; [exact Hrange|]. intros x Hx. cbv beta in Hx. simpl. lia.
    + rewrite turn_eq in Hturn.
      destruct (execute_item _ w) as [[outcome|e0|] w2]; done.
    + intros [= <- <-]. done.
Qed.

Lemma execute_from_app continueOnFail l1 l2 : ∀ i returnData w,
  execute_from continueOnFail i (l1 ++ l2) returnData w
  = match execute_from continueOnFail i l1 returnData w with
    | (Ok out, w') => execute_from continueOnFail (i + length l1) l2 out w'
    | (Throw e, w') => (Throw e, w')
    | (Untyped, w') => (Untyped, w')
    end.
Proof.
  induction l1 as [|item l1 IH]; intros i returnData w.
  - simpl. by rewrite Nat.add_0_r.
  - rewrite <- app_comm_cons, !execute_from_cons.
    destruct (turn continueOnFail i item w) as [[pushed|e|] w1]; [|done..].
    rewrite IH. simpl length. by rewrite Nat.add_succ_r.
Qed.

End ExecuteItems.

Section Checks.

Implicit Types (w : world) (p : Parameters).

Definition needs_prompt p : Prop :=
  one_of ["query"; "continue"; "generate_plan"] (operation p) = true.

Definition needs_planId p : Prop :=
  one_of ["edit_plan"; "approve_plan"; "execute_plan"] (operation p) = true.

(** The project path is given and does not resolve to a directory. *)
Definition bad_projectPath p w : Prop :=
  trim (projectPath p) ≠ EmptyString
  ∧ path_resolve (cwd w) (trim (projectPath p)) ≠ []
  ∧ fs w !! path_resolve (cwd w) (trim (projectPath p)) ≠ Some Dir.

Lemma needs_planId_not_prompt p : needs_planId p → ¬ needs_prompt p.
Proof.
  unfold needs_planId, needs_prompt, one_of. simpl. intros H.
  repeat (apply orb_prop in H as [H | H]); try discriminate;
    apply String.eqb_eq in H; rewrite H; simpl; discriminate.
Qed.

Lemma execute_item_checks p w :
  (needs_prompt p ∧ trim (parameter_prompt p) = EmptyString)
  ∨ (needs_planId p ∧ trim (parameter_planId p) = EmptyString)
  ∨ gemini_version w = None
  ∨ bad_projectPath p w →
  ∃ msg,
    execute_item p w = (Throw (NodeOperationError msg), w)
    ∧ (needs_prompt p ∧ trim (parameter_prompt p) = EmptyString →
       msg = "Prompt is required and cannot be empty")
    ∧ (needs_planId p ∧ trim (parameter_planId p) = EmptyString →
       msg = "Plan ID is required for this operation").
Proof.
  intros Hcase.
  pose proof (needs_planId_not_prompt p) as Hdisjoint.
  unfold needs_prompt, needs_planId in *. unfold execute_item.
  destruct (one_of ["query"; "continue"; "generate_plan"] (operation p)) eqn:Hprompt;
    destruct (one_of ["edit_plan"; "approve_plan"; "execute_plan"] (operation p)) eqn:Hid;
    try (by destruct Hdisjoint);
    destruct (String.eqb (trim (parameter_prompt p)) EmptyString) eqn:Hp;
    destruct (String.eqb (trim (parameter_planId p)) EmptyString) eqn:Hi;
    try change (trim EmptyString) with EmptyString;
    try change (String.eqb EmptyString EmptyString) with true;
    cbn [andb];
    try (eexists; split; [done|]; split; [done | by intros [? _]]);
    try (eexists; split; [done|]; split; [by intros [? _] | done]);
    try apply String.eqb_neq in Hp; try apply String.eqb_neq in Hi;
    (rewrite bind_eq; unfold checkGeminiCLI_isAvailable;
     destruct (gemini_version w) eqn:Hv;
     [ change (negb true) with false; cbv iota; rewrite bind_eq;
       destruct Hcase as [[? ?] | [[? ?] | [? | (Hgiven & Hne & Hdir)]]]; try done;
       apply String.eqb_neq in Hgiven; rewrite Hgiven; change (negb false) with true;
       cbv iota; rewrite bind_eq, validateProjectPath_eq;
       destruct (path_resolve (cwd w) (trim (projectPath p))) as [|c rest]; [done|];
       destruct (fs w !! (c :: rest)) as [[|content]|]; [done| |]
     | change (negb false) with true; cbv iota ]);
    (eexists; split; [done|]; split; intros [? ?]; done).
Qed.

End Checks.

Section Summary.

Lemma count_steps_cons st s (l : list ExecutionStep) :
  count_steps st (s :: l)
  = (if decide (step_status s = Some st) then 1 else 0) + count_steps st l.
Proof.
  unfold count_steps. rewrite filter_cons. destruct (decide _); simpl length; lia.
Qed.

Lemma count_steps_completed_all (l : list ExecutionStep) :
  count_steps step_completed (map (with_step_status step_completed) l) = Z.of_nat (length l)
  ∧ count_steps step_failed (map (with_step_status step_completed) l) = 0.
Proof.
  induction l as [|s l [IH1 IH2]]; [done|]. simpl map. rewrite !count_steps_cons, IH1, IH2.
  rewrite decide_True by done. rewrite decide_False by done. simpl length. split; lia.
Qed.

Lemma count_steps_app st (a b : list ExecutionStep) :
  count_steps st (a ++ b) = count_steps st a + count_steps st b.
Proof. unfold count_steps. rewrite filter_app, length_app. lia. Qed.

Lemma count_steps_bounds st (l : list ExecutionStep) :
  0 <= count_steps st l <= Z.of_nat (length l).
Proof. unfold count_steps. pose proof (length_filter (fun s => step_status s = Some st) l). lia. Qed.

Lemma executed_summary (finished rest : list ExecutionStep) (ok : bool) t plan :
  (if ok then rest = [] else rest ≠ []) →
  let final := executed finished rest ok t plan in
  (status final = completed
   ↔ count_steps step_completed (steps final) = Z.of_nat (length (steps final)))
  ∧ (status final = completed ↔ count_steps step_failed (steps final) = 0).
Proof.
  intros Hrest. simpl. unfold steps_after.
  destruct (count_steps_completed_all finished) as [Hc Hf].
  destruct ok.
  - subst rest. rewrite !app_nil_r, Hc, Hf, length_map. done.
  - destruct rest as [|s rest]; [done|].
    rewrite !count_steps_app, !count_steps_cons, Hc, Hf, length_app, length_map.
    change (step_status (with_step_status step_failed s)) with (Some step_failed).
    rewrite decide_False by done. rewrite decide_True by done.
    pose proof (count_steps_bounds step_completed rest).
    pose proof (count_steps_bounds step_failed rest).
    simpl length. split; (split; [done | lia]).
Qed.

End Summary.

Module Batch.

Definition additional : AdditionalOptions :=
  {| additional_apiKey := None; additional_useVertexAI := None;
     additional_systemPrompt := None; additional_debug := Some false |}.

Definition parameters (operation prompt planId : string) : Parameters :=
  {| operation := operation; parameter_model := "gemini-2.5-pro";
     parameter_timeout := 300; projectPath := EmptyString;
     additionalOptions := additional;
     parameter_toolsConfig := Some Sample.tools; parameter_mcpServers := None;
     parameter_prompt := prompt; parameter_planId := planId;
     editInstructions := EmptyString |}.

Definition item (operation prompt planId format : string) : Item :=
  {| item_parameters := parameters operation prompt planId; outputFormat := format |}.

(** One stored plan; every child prints [done] and exits with code 0. *)
Definition world : world :=
  Sample.world_with [Sample.plan draft [Sample.step "1" pending]]
                    (fun _ _ => Sample.says "done" 0).

(** The same without a [gemini] binary. *)
Definition without_cli : Host.world :=
  {| fs := fs world; now := now world; cwd := cwd world; toISOString := toISOString world;
     random36 := random36 world; gemini := gemini world; spawned := spawned world;
     gemini_version := None |}.

End Batch.

(** X16: the checks of [execute] come before any work.  An operation that
    takes a prompt with an empty or blank prompt, an operation on a plan
    with an empty or blank plan id, a missing [gemini] binary (also for
    [list_plans] and [approve_plan], which never run it) and a project
    path that is no directory all end in a [NodeOperationError], with
    nothing spawned and nothing written; the first two have the messages
    [Prompt is required and cannot be empty] and [Plan ID is required for
    this operation]. *)
Theorem execute_item_rejects_before_work p w :
  (needs_prompt p ∧ trim (parameter_prompt p) = EmptyString)
  ∨ (needs_planId p ∧ trim (parameter_planId p) = EmptyString)
  ∨ gemini_version w = None
  ∨ bad_projectPath p w →
  ∃ msg,
    execute_item p w = (Throw (NodeOperationError msg), w)
    ∧ (needs_prompt p ∧ trim (parameter_prompt p) = EmptyString →
       msg = "Prompt is required and cannot be empty")
    ∧ (needs_planId p ∧ trim (parameter_planId p) = EmptyString →
       msg = "Plan ID is required for this operation").
Proof. apply execute_item_checks. Qed.

Lemma execute_item_rejects_before_work_witness :
  (∃ msg, execute_item (Batch.parameters "list_plans" EmptyString EmptyString) Batch.without_cli
          = (Throw (NodeOperationError msg), Batch.without_cli))
  ∧ execute_item (Batch.parameters "query" "   " EmptyString) Batch.world
    = (Throw (NodeOperationError "Prompt is required and cannot be empty"), Batch.world).
Proof.
  split.
  - destruct (execute_item_rejects_before_work
                (Batch.parameters "list_plans" EmptyString EmptyString) Batch.without_cli)
      as (msg & H & _); [right; right; by left|].
    by exists msg.
  - destruct (execute_item_rejects_before_work
                (Batch.parameters "query" "   " EmptyString) Batch.world)
      as (msg & H & Hprompt & _); [left; by split|].
    rewrite H. by rewrite Hprompt.
Defined.

(** X17: when the node continues on failure, [execute] never throws, and
    the items it returns are paired with input items in strictly
    increasing order: at most one output item for each input item, each
    paired with an index below the number of input items. *)
Theorem execute_continue_on_fail items w r w' :
  execute items true w = (r, w') →
  (∀ e, r ≠ Throw e)
  ∧ ∀ out, r = Ok out →
      StronglySorted earlier out
      ∧ Forall (fun d => (pairedItem d < length items)%nat) out.
Proof.
  intros H. apply execute_from_continue in H as [Hno Hout]. split; [done|].
  intros out ->. destruct (Hout _ eq_refl) as (new & -> & Hsorted & Hrange).
  split; [done|]. eapply Forall_impl; [exact Hrange|]. intros d Hd. cbv beta in Hd. lia.
Qed.

Lemma execute_continue_on_fail_witness :
  ∃ out,
    (execute [Batch.item "query" "  " EmptyString "text";
              Batch.item "list_plans" EmptyString EmptyString "summary"] true Batch.world).1
    = Ok out
    ∧ map pairedItem out = [0; 1]%nat
    ∧ StronglySorted earlier out.
Proof.
  destruct (execute [Batch.item "query" "  " EmptyString "text";
                     Batch.item "list_plans" EmptyString EmptyString "summary"] true Batch.world)
    as [r w'] eqn:Hrun.
  assert (∃ out, r = Ok out ∧ map pairedItem out = [0; 1]%nat) as (out & -> & Hpaired).
  { vm_compute in Hrun. injection Hrun as <- _. eexists. split; reflexivity. }
  destruct (execute_continue_on_fail _ _ _ _ Hrun) as [_ Hout].
  destruct (Hout _ eq_refl) as [Hsorted _].
  exists out. split; [reflexivity|]. split; [exact Hpaired | exact Hsorted].
Defined.



(** X19: a query or continue operation returns an output item only for the
    output formats [text], [messages] and [structured]: with any other
    format (the node also offers [plan] and [plan_status]) the agent is run
    and its response is dropped, without an error. *)
Theorem response_dropped_for_other_formats item continueOnFail w response w' :
  execute_item (item_parameters item) w = (Ok (Response response), w') →
  outputFormat item ≠ "text" →
  outputFormat item ≠ "messages" →
  outputFormat item ≠ "structured" →
  execute [item] continueOnFail w = (Ok [], w').
Proof.
  intros Hitem Ht Hm Hs. unfold execute.
  rewrite execute_from_cons, turn_eq, Hitem. simpl.
  unfold response_output.
  apply String.eqb_neq in Ht, Hm, Hs. by rewrite Ht, Hm, Hs.
Qed.

Lemma response_dropped_for_other_formats_witness :
  ∃ w', execute [Batch.item "query" "Say hello" EmptyString "plan"] false Batch.world
        = (Ok [], w')
        ∧ length (spawned w') = 1%nat.
Proof.
  destruct (execute_item (Batch.parameters "query" "Say hello" EmptyString) Batch.world)
    as [r w'] eqn:Hrun.
  assert (∃ response, r = Ok (Response response) ∧ length (spawned w') = 1%nat)
    as (response & -> & Hspawned).
  { vm_compute in Hrun. injection Hrun as <- <-. eexists. split; reflexivity. }
  exists w'. split; [|exact Hspawned].
  apply (response_dropped_for_other_formats
           (Batch.item "query" "Say hello" EmptyString "plan") false Batch.world response w');
    [exact Hrun | discriminate..].
Defined.

(** X20: the summary that [execute] reports for [execute_plan] agrees with
    itself: for an approved plan on a usable plans directory, [success]
    (the final status is [completed]) holds exactly when [completedSteps]
    equals [totalSteps], and exactly when [failedSteps] is 0. *)
Theorem executePlan_summary_consistent planId options w plan :
  (loadPlan planId (wd_of options w) w).1 = Ok (Some plan) →
  status plan = approved →
  plans_ready (wd_of options w) (fs w) →
  ∃ final results w',
    executePlan planId options w = (Ok (final, results), w')
    ∧ (status final = completed
       ↔ count_steps step_completed (steps final) = Z.of_nat (length (steps final)))
    ∧ (status final = completed ↔ count_steps step_failed (steps final) = 0).
Proof.
  intros Hload Hst Hready.
  destruct (executePlan_spec planId options w plan Hload Hst Hready)
    as (finished & rest & good & bad & ok & attempted & w' & Hex & _ & _ & Hrest & _).
  eexists _, _, w'. split; [exact Hex|].
  apply executed_summary. destruct ok; [by destruct Hrest | done].
Qed.

Lemma executePlan_summary_consistent_witness :
  ∃ final results w',
    executePlan "plan_1" Sample.options Execution.world = (Ok (final, results), w')
    ∧ (status final = completed
       ↔ count_steps step_completed (steps final) = Z.of_nat (length (steps final)))
    ∧ (status final = completed ↔ count_steps step_failed (steps final) = 0).
Proof.
  refine (executePlan_summary_consistent "plan_1" Sample.options Execution.world
            Execution.plan _ _ _).
  - vm_compute. reflexivity.
  - reflexivity.
  - apply plans_ready_b_true. vm_compute. reflexivity.
Defined.

(* ================================================================== *)
(** ** Approving, then executing *)
(* ================================================================== *)

(** X21: a plan that [approve_plan] has approved is accepted by
    [executePlan]: for a plan stored under its own id on a usable plans
    directory, the approve operation followed by [executePlan] with the
    same id and options returns, with the plan [completed] or [failed]. *)
Theorem approve_then_execute p prompt planId instructions resolved w plan :
  operation p = "approve_plan" →
  (loadPlan planId (wd_of (operationOptions p resolved) w) w).1 = Ok (Some plan) →
  id plan = planId →
  plans_ready (wd_of (operationOptions p resolved) w) (fs w) →
  ∃ w1 final results w2,
    run_operation p prompt planId instructions resolved w
    = (Ok (Plan (set_status approved (now w) plan)), w1)
    ∧ executePlan planId (operationOptions p resolved) w1 = (Ok (final, results), w2)
    ∧ (status final = completed ∨ status final = failed).
Proof.
  intros Hop Hload Hid Hready.
  set (options := operationOptions p resolved) in *.
  set (wd := wd_of options w) in *.
  set (approved_plan := set_status approved (now w) plan).
  set (w1 := with_fs (saved wd approved_plan (fs w)) w).
  assert (run_operation p prompt planId instructions resolved w = (Ok (Plan approved_plan), w1))
    as Hrun.
  { unfold run_operation. rewrite Hop. simpl. unfold bind at 1.
    rewrite workingDirectory_of_eq. unfold bind at 1. fold options. fold wd.
    rewrite loadPlan_eta, Hload.
    unfold bind, Date_now, ret. by rewrite savePlan_ok. }
  assert (wd_of options w1 = wd) as Hwd by done.
  assert (plans_ready (wd_of options w1) (fs w1)) as Hready1.
  { rewrite Hwd. simpl. by apply plans_ready_saved. }
  assert ((loadPlan planId (wd_of options w1) w1).1 = Ok (Some approved_plan)) as Hload1.
  { rewrite Hwd, (loadPlan_stored planId wd approved_plan w1); [done|]. simpl. rewrite <- Hid.
    apply (stored_saved wd approved_plan). }
  destruct (executePlan_spec planId options w1 approved_plan Hload1 eq_refl Hready1)
    as (finished & rest & good & bad & ok & attempted & w2 & Hex & _).
  eexists w1, _, _, w2. split; [exact Hrun|]. split; [exact Hex|].
  destruct ok; [by left | by right].
Qed.

Lemma approve_then_execute_witness :
  ∃ w1 final results w2,
    run_operation (Approve.parameters "plan_1") EmptyString "plan_1" EmptyString None Batch.world
    = (Ok (Plan (set_status approved (now Batch.world)
                            (Sample.plan draft [Sample.step "1" pending]))), w1)
    ∧ executePlan "plan_1" (operationOptions (Approve.parameters "plan_1") None) w1
      = (Ok (final, results), w2)
    ∧ (status final = completed ∨ status final = failed).
Proof.
  refine (approve_then_execute (Approve.parameters "plan_1") EmptyString "plan_1" EmptyString
            None Batch.world (Sample.plan draft [Sample.step "1" pending]) _ _ _ _).
  - reflexivity.
  - vm_compute. reflexivity.
  - reflexivity.
  - apply plans_ready_b_true. vm_compute. reflexivity.
Defined.

(* ================================================================== *)
(** ** What the validation keeps of a reply *)
(* ================================================================== *)

Section Kept.

Lemma validatedSteps_from_length l : ∀ index vs,
  validatedSteps_from index l = Ok vs → length vs = length l.
Proof.
  induction l as [|x l IH]; intros index vs; simpl; [by intros [= <-]|].
  destruct (validatedStep index x) as [v| |]; try discriminate. simpl.
  destruct (validatedSteps_from (S index) l) as [vs'| |] eqn:Hvs; try discriminate. simpl.
  intros [= <-]. simpl. f_equal. by eapply IH.
Qed.

(** What one validated step takes from the step of the reply. *)
Definition step_kept (step : json) (s : ExecutionStep) : Prop :=
  (∀ i, prop "id" step = Some (JStr i) → i ≠ EmptyString → step_id s = i)
  ∧ (∀ d, prop "description" step = Some (JStr d) → d ≠ EmptyString → step_description s = d)
  ∧ (∀ c, prop "command" step = Some (JStr c) → command s = Some c)
  ∧ (prop "command" step = None → command s = None)
  ∧ (∀ names, prop "files" step = Some (JArr (map JStr names)) → files s = Some names)
  ∧ ((∀ items, prop "files" step ≠ Some (JArr items)) → files s = None).

Lemma string_or_given i fallback t :
  string_or (Some (JStr i)) fallback = Ok t → i ≠ EmptyString → t = i.
Proof.
  unfold string_or. simpl. intros H Hne.
  rewrite (proj2 (String.eqb_neq _ _)) in H by done. by injection H.
Qed.

Lemma validatedStep_kept index step s : validatedStep index step = Ok s → step_kept step s.
Proof.
  intros H. assert (validatedFields index step = Ok s) as H' by (by destruct step).
  clear H. unfold validatedFields in H'.
  destruct (string_or (prop "id" step) _) as [i| |] eqn:Hi; try discriminate. simpl in H'.
  destruct (string_or (prop "description" step) _) as [d| |] eqn:Hd; try discriminate.
  simpl in H'. unfold step_kept.
  destruct (prop "command" step) as [[| | |c0| |]|]; simpl in H'; try discriminate;
    destruct (prop "files" step) as [[| | | |items|]|]; simpl in H'; try discriminate;
    try (destruct (mapM as_string items) as [names|] eqn:Hnames; simpl in H'; try discriminate);
    injection H' as <-; simpl;
    (split_and!;
     [ intros i0 Hi0 Hne; rewrite Hi0 in Hi; by apply string_or_given in Hi
     | intros d0 Hd0 Hne; rewrite Hd0 in Hd; by apply string_or_given in Hd
     | intros; congruence
     | intros; congruence
     | intros names' Hf; try discriminate;
       try (injection Hf as ->; rewrite as_strings_to_json in Hnames; congruence)
     | intros Hno; try done; try (by destruct (Hno items)) ]).
Qed.

End Kept.

Module Kept_reply.

Definition reply_step : json :=
  JObj [("id", JStr "build"); ("description", JStr "Build it"); ("command", JStr "make");
        ("files", JArr [JStr "Makefile"; JStr "src/main.c"]); ("estimated_duration", JNum 60);
        ("status", JStr "completed")].

End Kept_reply.

(** X22: the validation of a reply keeps what the agent gave: there are as
    many steps as the reply has, in the same order, and a step keeps its
    id and description when they are non-empty strings, its command, and
    its files when they are an array (no files otherwise). *)
Theorem validatedSteps_keeps l vs :
  validatedSteps l = Ok vs →
  length vs = length l
  ∧ ∀ k step, l !! k = Some step → ∃ s, vs !! k = Some s ∧ step_kept step s.
Proof.
  intros H. split; [by eapply validatedSteps_from_length|].
  intros k step Hk. destruct (validatedSteps_from_lookup _ _ _ _ _ H Hk) as (s & Hs & Hv).
  exists s. split; [done|]. by eapply validatedStep_kept.
Qed.

Lemma validatedSteps_keeps_witness :
  ∃ s, validatedSteps [Kept_reply.reply_step] = Ok [s]
       ∧ step_id s = "build" ∧ command s = Some "make"
       ∧ files s = Some ["Makefile"; "src/main.c"].
Proof.
  destruct (validatedSteps [Kept_reply.reply_step]) as [vs| |] eqn:H;
    [|vm_compute in H; discriminate..].
  destruct (validatedSteps_keeps _ _ H) as [Hlen Hkept].
  destruct vs as [|s [|s' vs]]; try discriminate Hlen.
  destruct (Hkept 0%nat _ eq_refl) as (s0 & [= <-] & Hid & _ & Hcommand & _ & Hfiles & _).
  exists s. split_and!; [done | by apply Hid | by apply Hcommand | by apply (Hfiles ["Makefile"; "src/main.c"])].
Defined.

(* ================================================================== *)
(** ** Listing after a run with MCP servers *)
(* ================================================================== *)

(** X23: after a run of the agent with MCP servers configured, in which
    the child was spawned, [listPlans] on the same working directory
    returns the empty list: the plans directory went with the
    configuration directory. *)
Theorem listPlans_empty_after_mcp_run prompt options w s servers r w' :
  mcpServers options = Some (s :: servers) →
  runGeminiCLI prompt options w = (r, w') →
  spawned w' ≠ spawned w →
  listPlans (wd_of options w) w' = (Ok [], w').
Proof.
  intros Hm Hrun Hsp.
  destruct (runGeminiCLI_spec prompt options w) as (r0 & w0 & H0 & _ & _ & _ & Hgone & _).
  rewrite Hrun in H0. injection H0 as <- <-.
  assert (fs w' !! plansDirectory (wd_of options w) = None) as Hnone.
  { eapply Hgone; [done | exact Hm | apply configDirectory_prefix]. }
  rewrite listPlans_unfold.
  destruct (fs_readdir_missing _ w' (plansDirectory_not_nil (wd_of options w)) Hnone)
    as [msg ->].
  done.
Qed.

Lemma listPlans_empty_after_mcp_run_witness :
  (listPlans ["proj"] Mcp.world).1 = Ok [Sample.plan draft [Sample.step "1" pending]]
  ∧ (listPlans ["proj"] (runGeminiCLI "Say hello" Mcp.options Mcp.world).2).1 = Ok [].
Proof.
  split; [vm_compute; reflexivity|].
  destruct (runGeminiCLI "Say hello" Mcp.options Mcp.world) as [r w'] eqn:Hrun.
  assert (spawned w' ≠ spawned Mcp.world) as Hsp.
  { vm_compute in Hrun. injection Hrun as _ <-. discriminate. }
  exact (f_equal fst (listPlans_empty_after_mcp_run "Say hello" Mcp.options Mcp.world
                        Mcp.server [] r w' eq_refl Hrun Hsp)).
Defined.

(* ================================================================== *)
(** ** Tool names and arguments of an MCP server *)
(* ================================================================== *)

Section Words.

Implicit Types (s r t : string) (c : ascii).

(** The first character is no white space. *)
Definition solid_start s : Prop :=
  match s with
  | String c _ => is_space c = false
  | EmptyString => False
  end.

(** The last character is no white space. *)
Fixpoint solid_end s : Prop :=
  match s with
  | EmptyString => False
  | String c EmptyString => is_space c = false
  | String _ r => solid_end r
  end.

Fixpoint has_space s : bool :=
  match s with
  | EmptyString => false
  | String c r => is_space c || has_space r
  end.

Lemma trimStart_solid s : trimStart s = EmptyString ∨ solid_start (trimStart s).
Proof.
  induction s as [|c r IH]; simpl; [by left|].
  destruct (is_space c) eqn:Hc; [exact IH|]. right. exact Hc.
Qed.

Lemma trimEnd_cons c r :
  trimEnd (String c r)
  = match trimEnd r with
    | EmptyString => if is_space c then EmptyString else String c EmptyString
    | t => String c t
    end.
Proof. reflexivity. Qed.

Lemma trimEnd_solid s : trimEnd s = EmptyString ∨ solid_end (trimEnd s).
Proof.
  induction s as [|c r IH]; [by left|]. rewrite trimEnd_cons.
  destruct (trimEnd r) as [|d t] eqn:Hr.
  - destruct (is_space c) eqn:Hc; [by left | right; exact Hc].
  - right. destruct IH as [IH | IH]; [done|]. exact IH.
Qed.

Lemma trimEnd_solid_start s : solid_start s → solid_start (trimEnd s).
Proof.
  destruct s as [|c r]; [done|]. intros Hc. change (is_space c = false) in Hc.
  rewrite trimEnd_cons. destruct (trimEnd r); [by rewrite Hc | done].
Qed.

Lemma solid_start_trimStart s : solid_start s → trimStart s = s.
Proof. destruct s as [|c r]; [done|]. simpl. by intros ->. Qed.

Lemma solid_end_trimEnd s : solid_end s → trimEnd s = s.
Proof.
  induction s as [|c r IH]; [done|]. intros H. rewrite trimEnd_cons.
  destruct r as [|d r'].
  - simpl in *. by rewrite H.
  - rewrite IH by exact H. done.
Qed.

(** A trimmed text is empty or starts and ends with a character that is
    no white space. *)
Lemma trim_solid s : trim s = EmptyString ∨ (solid_start (trim s) ∧ solid_end (trim s)).
Proof.
  unfold trim. destruct (trimStart_solid s) as [-> | Hstart]; [by left|].
  destruct (trimEnd_solid (trimStart s)) as [-> | Hend]; [by left|].
  right. split; [by apply trimEnd_solid_start | done].
Qed.

Lemma trim_trim s : trim (trim s) = trim s.
Proof.
  destruct (trim_solid s) as [-> | [Hstart Hend]]; [done|].
  unfold trim at 1. rewrite (solid_start_trimStart _ Hstart). by apply solid_end_trimEnd.
Qed.

Lemma split_pieces sep s : Forall (fun x => includes sep x = false) (split sep s).
Proof.
  induction s as [|c r IH]; simpl; [by repeat constructor|].
  destruct (Ascii.eqb c sep) eqn:Hc; [by constructor|].
  destruct (split sep r) as [|w ws]; [by repeat constructor; simpl; rewrite Hc|].
  apply Forall_cons in IH as [Hw Hws]. constructor; [|done]. simpl. by rewrite Hc, Hw.
Qed.

Lemma includes_trimStart c s : includes c s = false → includes c (trimStart s) = false.
Proof.
  induction s as [|d r IH]; simpl; [done|]. intros [Hd Hr]%orb_false_elim.
  destruct (is_space d); [by apply IH|]. simpl. by rewrite Hd, Hr.
Qed.

Lemma includes_trimEnd c s : includes c s = false → includes c (trimEnd s) = false.
Proof.
  induction s as [|d r IH]; [done|]. intros H.
  change (Ascii.eqb d c || includes c r = false) in H. apply orb_false_elim in H as [Hd Hr].
  rewrite trimEnd_cons. specialize (IH Hr).
  destruct (trimEnd r) as [|e t].
  - destruct (is_space d); [done|]. simpl. by rewrite Hd.
  - simpl in *. by rewrite Hd, IH.
Qed.

(** The pieces of a text that ends in a character that is no white space. *)
Lemma split_spaces_solid s :
  solid_end s →
  ∃ h l, split_spaces s = h :: l
         ∧ (solid_start s → h ≠ EmptyString)
         ∧ Forall (fun x => x ≠ EmptyString) l
         ∧ Forall (fun x => has_space x = false) (h :: l).
Proof.
  induction s as [|c r IH]; [done|]. intros Hend.
  destruct r as [|d r'].
  - (* the last character *)
    simpl in Hend. simpl. rewrite Hend. exists (String c EmptyString), [].
    split_and!; [done | done | constructor |]. repeat constructor. simpl. by rewrite Hend.
  - destruct (IH Hend) as (h & l & Hsplit & Hh & Ht & Hno).
    change (split_spaces (String c (String d r')))
      with (if is_space c then
              if is_space d then split_spaces (String d r')
              else EmptyString :: split_spaces (String d r')
            else match split_spaces (String d r') with
                 | w :: ws => String c w :: ws
                 | [] => [String c EmptyString]
                 end).
    rewrite Hsplit. apply Forall_cons in Hno as [Hnoh Hnot].
    destruct (is_space c) eqn:Hc.
    + destruct (is_space d) eqn:Hd.
      * exists h, l. split_and!; [done | by simpl; rewrite Hc | done | by constructor].
      * exists EmptyString, (h :: l).
        split_and!; [done | by simpl; rewrite Hc | constructor; [by apply Hh | done] |].
        by repeat constructor.
    + exists (String c h), l. split_and!; [done | done | done |].
      constructor; [|done]. simpl. by rewrite Hc, Hnoh.
Qed.

End Words.





(* ================================================================== *)
(** ** What a new plan records *)
(* ================================================================== *)

(** X26: a plan that [generatePlanWithGemini] returns carries the id that
    [generatePlanId] gave at the start and, as both [created_at] and
    [modified_at], the time at the start of the operation, not the time
    the agent answered; its configuration is the model, the working
    directory and the tools configuration of the options. *)
Theorem generatePlan_records prompt options w plan w' :
  generatePlanWithGemini prompt options w = (Ok plan, w') →
  (generatePlanId w).1 = Ok (id plan)
  ∧ created_at plan = now w
  ∧ modified_at plan = now w
  ∧ configuration plan
    = Some {| configuration_model := model options;
              configuration_projectPath := path_string <$> cwd_option options;
              configuration_toolsConfig := toolsConfig options |}.
Proof.
  intros H. unfold generatePlanWithGemini in H.
  destruct (generatePlanId_eq w) as [planId HplanId].
  rewrite bind_eq, HplanId in H. cbv beta iota in H.
  rewrite bind_eq in H. unfold Date_now in H. cbv beta iota in H.
  apply try_catch_rethrow_ok in H.
  run_bind H. destruct (success _); [|discriminate H].
  change (negb true) with false in H. cbv iota in H.
  run_bind H. destruct (missing_required_fields _); [discriminate H|].
  run_bind H. run_bind H. run_bind H.
  rewrite bind_eq, workingDirectory_of_eq in H. cbv beta iota in H.
  run_bind H. unfold ret in H. injection H as <- <-.
  rewrite HplanId. done.
Qed.

Lemma generatePlan_records_witness :
  ∃ plan,
    (generatePlanWithGemini Generation.prompt Sample.options Generation.world).1 = Ok plan
    ∧ id plan = "plan_2023-11-14_22-13-20_k3j9x2"
    ∧ created_at plan = 1700000005000
    ∧ modified_at plan = 1700000005000.
Proof.
  destruct (generatePlanWithGemini Generation.prompt Sample.options Generation.world)
    as [r w'] eqn:Hrun.
  assert (∃ plan, r = Ok plan) as [plan ->].
  { vm_compute in Hrun. injection Hrun as <- _. by eexists. }
  destruct (generatePlan_records _ _ _ _ _ Hrun) as (Hid & Hc & Hm & _).
  exists plan. split; [reflexivity|]. split_and!.
  - vm_compute in Hid. injection Hid as Hid. symmetry. exact Hid.
  - exact Hc.
  - exact Hm.
Defined.

(* ================================================================== *)
(** ** [executePlan] that throws *)
(* ================================================================== *)

Section Throws.

Implicit Types (wd p q : path) (m : gmap path node) (w : world) (plan : ExecutionPlan).

(** [savePlan] of a plan with id [planId] succeeds on [m]. *)
Definition ready_for wd (planId : string) m : Prop :=
  no_file_on (plansDirectory wd) m
  ∧ is_dir (m !! planPath (plansDirectory wd) planId) = false.

Lemma ready_for_saved wd plan m : ready_for wd (id plan) (saved wd plan m).
Proof.
  split; [apply no_file_on_saved|]. unfold saved. by rewrite lookup_insert_eq.
Qed.

Lemma ready_for_mkdirs wd planId m :
  ready_for wd planId m → ready_for wd planId (mkdirs (configDirectory wd) m).
Proof.
  intros [Hno Hd]. split.
  - intros q Hne Hq. rewrite mkdirs_lookup. case_bool_decide; [done | by apply Hno].
  - rewrite mkdirs_lookup, bool_decide_eq_false_2; [done|].
    intros [_ H]. apply (planPath_not_prefix (plansDirectory wd) planId).
    etrans; [exact H | apply configDirectory_prefix].
Qed.

Lemma ready_for_cleaned wd planId m content :
  ready_for wd planId m →
  ready_for wd planId
    (filter (fun e : path * node => ¬ configDirectory wd `prefix_of` e.1)
            (<[settingsFile wd := File content]> (mkdirs (configDirectory wd) m))).
Proof.
  intros Hready. apply ready_for_mkdirs in Hready as [Hno Hd]. split.
  - intros q Hne Hq.
    destruct (filter _ _ !! q) as [n|] eqn:E; [|done].
    apply map_lookup_filter_Some in E as [E _].
    rewrite lookup_insert_ne in E.
    + specialize (Hno q Hne Hq). by rewrite E in Hno.
    + intros <-. by apply settingsPath_not_prefix in Hq.
  - rewrite removed_lookup; [done|].
    etrans; [apply configDirectory_prefix|]. unfold planPath, path_join. by apply prefix_app_r.
Qed.

Lemma runGeminiCLI_ready_for prompt options w r w' planId :
  runGeminiCLI prompt options w = (r, w') →
  ready_for (wd_of options w) planId (fs w) →
  ready_for (wd_of options w) planId (fs w').
Proof.
  rewrite runGeminiCLI_eq. intros H Hready.
  assert (∀ w0, after_config prompt options (now w) None w0 = (r, w') → fs w' = fs w0) as Hnone.
  { intros w0. rewrite after_config_eq. cbv zeta.
    destruct (gemini w0 _ _) as [output exit_code after_ms | reason];
      [destruct (_ <=? _)|]; by intros [= <- <-]. }
  destruct (mcpServers options) as [[|s l]|].
  - by rewrite (Hnone _ H).
  - destruct (existsb _ _); [by injection H as <- <-|].
    destruct (is_dir _).
    + injection H as <- <-. by apply ready_for_mkdirs.
    + rewrite after_config_eq in H. cbv zeta in H.
      destruct (gemini _ _ _) as [output exit_code after_ms | reason];
        [destruct (_ <=? _)|]; injection H as <- <-; by apply ready_for_cleaned.
  - by rewrite (Hnone _ H).
Qed.

Lemma runGeminiCLI_wd prompt options w r w' :
  runGeminiCLI prompt options w = (r, w') → wd_of options w' = wd_of options w ∧ r ≠ Untyped.
Proof.
  intros Hrun. destruct (runGeminiCLI_spec prompt options w) as (r0 & w0 & H0 & Hr & E & _).
  rewrite Hrun in H0. injection H0 as <- <-. split; [by eapply wd_of_evolves | done].
Qed.

Lemma savePlan_ready plan wd w :
  ready_for wd (id plan) (fs w) →
  savePlan plan wd w = (Ok tt, with_fs (saved wd plan (fs w)) w).
Proof.
  intros [Hno Hd].
  destruct (savePlan_cases plan wd w) as [(H & _) | [(_ & H & _) | (_ & _ & H)]];
    [done | congruence | done].
Qed.

(** On a directory where the plan can be saved, the loop always leaves
    through its end or a [break]. *)
Lemma execute_steps_done options todo :
  ∀ plan results index w,
    ready_for (wd_of options w) (id plan) (fs w) →
    ∃ plan' results' ok w',
      execute_steps (wd_of options w) options plan results index todo w
      = (Ok (Done (plan', results', ok)), w')
      ∧ id plan' = id plan
      ∧ wd_of options w' = wd_of options w
      ∧ ready_for (wd_of options w) (id plan) (fs w').
Proof.
  induction todo as [|step todo IH]; intros plan results index w Hready.
  - simpl. unfold ret. by eexists _, _, _, _.
  - simpl execute_steps. unfold in_try at 1.
    rewrite savePlan_ready by done.
    set (plan1 := set_step_status index in_progress plan).
    set (w1 := with_fs (saved (wd_of options w) plan1 (fs w)) w).
    assert (wd_of options w1 = wd_of options w) as Hwd1 by done.
    assert (ready_for (wd_of options w1) (id plan) (fs w1)) as Hready1
      by apply (ready_for_saved (wd_of options w) plan1).
    rewrite bind_eq. unfold attempt.
    destruct (runGeminiCLI (executionPrompt step) options w1) as [r w2] eqn:Hrun.
    destruct (runGeminiCLI_wd _ _ _ _ _ Hrun) as [Hwd2 Hr].
    pose proof (runGeminiCLI_ready_for _ _ _ _ _ _ Hrun Hready1) as Hready2.
    rewrite Hwd1 in Hwd2, Hready2.
    destruct r as [stepResult|e|]; [| |done].
    + cbv beta iota. destruct (success stepResult).
      * unfold in_try at 1.
        set (plan2 := set_step_status index step_completed plan1).
        rewrite (savePlan_ready plan2) by exact Hready2.
        set (w3 := with_fs (saved (wd_of options w) plan2 (fs w2)) w2).
        assert (wd_of options w3 = wd_of options w) as Hwd3 by done.
        destruct (IH plan2 (results ++ [stepResult])%list (S index) w3)
          as (plan' & results' & ok & w' & Hex & Hid & Hwd & Hready').
        { rewrite Hwd3. apply (ready_for_saved (wd_of options w) plan2). }
        rewrite Hwd3 in Hex, Hwd, Hready'.
        eexists _, _, _, _. split; [exact Hex|]. by split_and!.
      * unfold ret. eexists _, _, _, _. split; [done|]. by split_and!.
    + cbv beta iota. unfold ret. eexists _, _, _, _. split; [done|]. by split_and!.
Qed.

Lemma executePlan_throws planId options w e w' :
  executePlan planId options w = (Throw e, w') →
  spawned w' = spawned w
  ∧ (loadPlan planId (wd_of options w) w').1 = (loadPlan planId (wd_of options w) w).1.
Proof.
  intros H. unfold executePlan in H.
  rewrite bind_eq, workingDirectory_of_eq in H. cbv beta iota in H.
  rewrite bind_eq, loadPlan_eta in H.
  destruct (loadPlan planId (wd_of options w) w).1 as [[plan|]|e0|] eqn:Hload; [| | |done].
  2, 3: by injection H as _ <-.
  cbv beta iota in H. destruct (negb _); [by injection H as _ <-|].
  rewrite bind_eq in H. unfold Date_now in H. cbv beta iota in H.
  rewrite bind_eq in H.
  destruct (savePlan_cases (set_status executing (now w) plan) (wd_of options w) w)
    as [(_ & msg & He) | [(_ & _ & msg & He) | (Hno & Hd & He)]]; rewrite He in H.
  - by injection H as _ <-.
  - injection H as _ <-. split; [done|]. by apply loadPlan_after_mkdirs.
  - exfalso. cbv beta iota in H.
    set (plan0 := set_status executing (now w) plan) in *.
    set (w0 := with_fs (saved (wd_of options w) plan0 (fs w)) w) in *.
    assert (wd_of options w0 = wd_of options w) as Hwd0 by done.
    destruct (execute_steps_done options (steps plan0) plan0 [] 0%nat w0)
      as (plan' & results' & ok & w1 & Hex & Hid & Hwd1 & Hready1).
    { rewrite Hwd0. apply (ready_for_saved (wd_of options w) plan0). }
    rewrite Hwd0 in Hex, Hwd1, Hready1.
    rewrite bind_eq, bind_eq, Hex in H. cbv beta iota in H.
    rewrite bind_eq in H. unfold Date_now, in_try in H. cbv beta iota in H.
    rewrite savePlan_ready in H; [done|]. simpl. by rewrite Hid.
Qed.

End Throws.

Module Throwing.

(** The file of [plan_1] holds text that is not JSON. *)
Definition world : world :=
  with_fs (<[planPath (plansDirectory ["proj"]) "plan_1" := File "{broken"]> (fs Batch.world))
          Batch.world.

End Throwing.


